(** * Evergreen Notetaker: the resumable note pipeline

    A shallow embedding of the TypeScript services of the repository
    (services/grokService.ts, services/geminiService.ts, the OpenRouter
    variant of the same service, components/NetworkGraph.tsx and App.tsx)
    and the properties of the pipeline they implement.

    Conventions of the embedding:
    - a JavaScript string is a [string]: a sequence of code units, here the
      code units below 256 (ASCII and Latin-1), on which [trim],
      [toLowerCase] and the regular-expression classes are written out;
    - array indices and loop counters are [nat], millisecond amounts are [Z];
    - a value raised by [throw] is a [thrown]; an async function that may
      reject is a computation in the monad [Run], which threads the state of
      the outside world, records the observable events in order and stops at
      the first uncaught exception. *)

From Stdlib Require Import List String Ascii Bool Arith ZArith Lia.
From Stdlib Require Import DecimalString DecimalNat.
From ExtLib Require Import Structures.Monad Structures.MonadExc.
Import ListNotations.
Import MonadNotation.
Local Open Scope string_scope.
Local Open Scope list_scope.
Local Open Scope nat_scope.
Local Open Scope monad_scope.



(* ===================================================================== *)
(** * JavaScript strings *)
(* ===================================================================== *)

Module Js.

(** The double quote character, for template literals that contain one. *)
Definition dquote : string := String "034"%char EmptyString.

(** WhiteSpace and LineTerminator code units below 256: TAB, LF, VT, FF, CR,
    SP and NBSP.  This is the class [\s] and the set [trim] removes. *)
Definition isWhiteSpace (c : ascii) : bool :=
  let n := nat_of_ascii c in
  ((9 <=? n) && (n <=? 13)) || (n =? 32) || (n =? 160).

(** The characters the regular-expression dot refuses (no [s] flag). *)
Definition isLineTerminator (c : ascii) : bool :=
  let n := nat_of_ascii c in (n =? 10) || (n =? 13).

Fixpoint trimStart (s : string) : string :=
  match s with
  | String c rest => if isWhiteSpace c then trimStart rest else s
  | EmptyString => EmptyString
  end.

Fixpoint trimEnd (s : string) : string :=
  match s with
  | String c rest =>
      match trimEnd rest with
      | EmptyString => if isWhiteSpace c then EmptyString else String c EmptyString
      | rest' => String c rest'
      end
  | EmptyString => EmptyString
  end.

(** [String.prototype.trim] *)
Definition trim (s : string) : string := trimEnd (trimStart s).

Definition lowerChar (c : ascii) : ascii :=
  let n := nat_of_ascii c in
  if ((65 <=? n) && (n <=? 90))
     || ((192 <=? n) && (n <=? 214))
     || ((216 <=? n) && (n <=? 222))
  then ascii_of_nat (n + 32) else c.

(** [String.prototype.toLowerCase] *)
Fixpoint toLowerCase (s : string) : string :=
  match s with
  | String c rest => String (lowerChar c) (toLowerCase rest)
  | EmptyString => EmptyString
  end.

(** [String.prototype.substring(start, end)]: both indices are clamped to the
    length and swapped when out of order. *)
Definition substring (s : string) (start finish : nat) : string :=
  let a := Nat.min start (String.length s) in
  let b := Nat.min finish (String.length s) in
  String.substring (Nat.min a b) (Nat.max a b - Nat.min a b) s.

(** [String.prototype.includes] *)
Fixpoint includes (s needle : string) : bool :=
  String.prefix needle s
  || match s with
     | String _ rest => includes rest needle
     | EmptyString => false
     end.

(** [Number.prototype.toString] on a non-negative integer. *)
Definition toString (n : nat) : string :=
  NilEmpty.string_of_uint (Nat.to_uint n).

Fixpoint repeatChar (c : ascii) (n : nat) : string :=
  match n with
  | 0 => EmptyString
  | S n' => String c (repeatChar c n')
  end.

(** [String.prototype.padStart(targetLength, c)] with a one-character pad. *)
Definition padStart (s : string) (targetLength : nat) (c : ascii) : string :=
  (repeatChar c (targetLength - String.length s) ++ s)%string.

(** The number a string of decimal digits denotes, leading zeros allowed
    (what [parseInt(s, 10)] gives on such a string). *)
Definition readDecimal (s : string) : option nat :=
  option_map Nat.of_uint (NilEmpty.uint_of_string s).

(** [Math.pow(2, n)] on a non-negative integer exponent. *)
Definition pow2 (n : nat) : Z := (2 ^ Z.of_nat n)%Z.

End Js.

(** A thrown value.  [JsError m] is an instance of [Error] whose [message]
    is the string [m]; [JsObject m] is any other thrown value, with its
    [message] property when that is a string ([None] otherwise); the
    OpenRouter wrapper throws the plain object [{status, body}], which is
    [JsHttp status apiMessage]: it has no [message] of its own, and
    [apiMessage] is [body.error.message] when that is truthy. *)
Inductive thrown : Type :=
| JsError (message : string)
| JsObject (message : option string)
| JsHttp (status : nat) (apiMessage : option string).

(** [typeof error.message === 'string'], with the message. *)
Definition messageOf (error : thrown) : option string :=
  match error with
  | JsError m => Some m
  | JsObject m => m
  | JsHttp _ _ => None
  end.

(** [error instanceof Error] *)
Definition instanceofError (error : thrown) : bool :=
  match error with
  | JsError _ => true
  | _ => false
  end.

(* ===================================================================== *)
(** * types.ts *)
(* ===================================================================== *)

Module Note.
Record t : Type := mk
  { id : string; title : string; content : string;
    quotes : list string; source : string }.
End Note.

Module UnlinkedNote.
Record t : Type := mk
  { title : string; content : string; quotes : list string; source : string }.
End UnlinkedNote.

(** What phase 2 parses from a reply.  The result of [JSON.parse] is taken
    for an [Omit<UnlinkedNote, 'title'>] without a check, so the object may
    still carry a [title] of its own: [title] is that key, [None] when the
    reply has none. *)
Module NoteBody.
Record t : Type := mk
  { title : option string;
    content : string; quotes : list string; source : string }.
End NoteBody.

Module Status.
Inductive t : Type := idle | processing | completed | error.

Definition eqb (a b : t) : bool :=
  match a, b with
  | idle, idle | processing, processing
  | completed, completed | error, error => true
  | _, _ => false
  end.
End Status.

Definition ProcessingStatus := Status.t.

Record ProcessingState : Type := mkState
  { status : ProcessingStatus;
    stage : string;
    inputText : string;
    titles : list string;
    unlinkedNotes : list UnlinkedNote.t;
    finalNotes : list Note.t;
    error : option string }.

(** [Partial<ProcessingState>]: the argument of [onProgress].  A field that
    is absent from the object literal is [None]. *)
Module Update.
Record t : Type := mk
  { status : option ProcessingStatus;
    stage : option string;
    inputText : option string;
    titles : option (list string);
    unlinkedNotes : option (list UnlinkedNote.t);
    finalNotes : option (list Note.t);
    error : option (option string) }.
End Update.

Definition orElse {A} (o : option A) (d : A) : A :=
  match o with Some a => a | None => d end.

(** [{ ...prev, ...update }], as [handleProgress] of App.tsx merges an
    update into the session. *)
Definition merge (prev : ProcessingState) (update : Update.t) : ProcessingState :=
  {| status := orElse (Update.status update) (status prev);
     stage := orElse (Update.stage update) (stage prev);
     inputText := orElse (Update.inputText update) (inputText prev);
     titles := orElse (Update.titles update) (titles prev);
     unlinkedNotes := orElse (Update.unlinkedNotes update) (unlinkedNotes prev);
     finalNotes := orElse (Update.finalNotes update) (finalNotes prev);
     error := orElse (Update.error update) (error prev) |}.

(** [{ ...note, id }] on an unlinked note, and [{ title, ...body }]. *)
Definition withId (note : UnlinkedNote.t) (id : string) : Note.t :=
  Note.mk id (UnlinkedNote.title note) (UnlinkedNote.content note)
          (UnlinkedNote.quotes note) (UnlinkedNote.source note).

Definition setId (note : Note.t) (id : string) : Note.t :=
  Note.mk id (Note.title note) (Note.content note)
          (Note.quotes note) (Note.source note).

(** [{ title, ...body }]: the keys of [body] are spread after [title], so
    a [title] of the body replaces the title of the loop. *)
Definition withTitle (title : string) (body : NoteBody.t) : UnlinkedNote.t :=
  UnlinkedNote.mk (match NoteBody.title body with
                   | Some own => own
                   | None => title
                   end)
                  (NoteBody.content body) (NoteBody.quotes body)
                  (NoteBody.source body).

(** [`note_${index.toString().padStart(3, '0')}`] *)
Definition noteId (index : nat) : string :=
  ("note_" ++ Js.padStart (Js.toString index) 3 "0"%char)%string.

(** [array.map((x, index) => f x index)] *)
Fixpoint mapi_from {A B} (f : A -> nat -> B) (index : nat) (l : list A) : list B :=
  match l with
  | [] => []
  | x :: rest => f x index :: mapi_from f (S index) rest
  end.

Definition mapi {A B} (f : A -> nat -> B) (l : list A) : list B :=
  mapi_from f 0 l.

(* ===================================================================== *)
(** * Effects: the monad of runs *)
(* ===================================================================== *)

(** A computation reads the state [W] of the outside world (the network, the
    model behind it), produces the list of events [Ev] it caused, in order,
    the new state of the world, and either the value it returns or the value
    it throws.  [await] is sequencing: there is one thread of control. *)
Definition Run (W Ev A : Type) : Type := W -> list Ev * W * (thrown + A).

#[global] Instance Monad_Run {W Ev : Type} : Monad (Run W Ev) :=
  {| ret := fun _ a w => ([], w, inr a);
     bind := fun _ _ m f w =>
       match m w with
       | (t1, w1, inl e) => (t1, w1, inl e)
       | (t1, w1, inr a) =>
           match f a w1 with
           | (t2, w2, r) => (t1 ++ t2, w2, r)
           end
       end |}.

(** [throw] and [try { ... } catch (error) { ... }] *)
#[global] Instance MonadExc_Run {W Ev : Type} : MonadExc thrown (Run W Ev) :=
  {| raise := fun _ e w => ([], w, inl e);
     catch := fun _ m handler w =>
       match m w with
       | (t1, w1, inl e) =>
           match handler e w1 with
           | (t2, w2, r) => (t1 ++ t2, w2, r)
           end
       | (t1, w1, inr a) => (t1, w1, inr a)
       end |}.

(** An event with no answer (a progress callback, a timer). *)
Definition emit {W Ev : Type} (e : Ev) : Run W Ev unit :=
  fun w => ([e], w, inr tt).

(** A request to the outside world: [answer] is how the world reacts in its
    current state, [log] the event recorded for the request and its
    outcome.  A rejected promise throws at the [await]. *)
Definition perform {W Ev A : Type}
    (answer : W -> W * (thrown + A)) (log : thrown + A -> Ev) : Run W Ev A :=
  fun w => match answer w with
           | (w', r) => ([log r], w', r)
           end.

Definition traceOf {W Ev A} (r : list Ev * W * (thrown + A)) : list Ev :=
  fst (fst r).
Definition worldOf {W Ev A} (r : list Ev * W * (thrown + A)) : W :=
  snd (fst r).
Definition outcomeOf {W Ev A} (r : list Ev * W * (thrown + A)) : thrown + A :=
  snd r.

(* ===================================================================== *)
(** * Model gateway: retries and response parsing *)
(* ===================================================================== *)

Module Gateway.

(** What the retry wrappers do that can be observed: an attempt (one network
    call, with its outcome) and a timer. *)
Inductive event (Response : Type) : Type :=
| Attempt (outcome : thrown + Response)
| Delay (ms : Z).
Arguments Attempt {Response} outcome.
Arguments Delay {Response} ms.

(** [const delay = (ms) => new Promise(res => setTimeout(res, ms))] *)
Definition delay {W Response} (ms : Z) : Run W (event Response) unit :=
  emit (Delay ms).

(** [try { return await call } catch (error) { ... }] as a value. *)
Definition attempt {W Ev A} (call : Run W Ev A) : Run W Ev (thrown + A) :=
  catch (a <- call ;; ret (inr a)) (fun error => ret (inl error)).

Definition messageIncludes (error : thrown) (needle : string) : bool :=
  match messageOf error with
  | Some m => Js.includes m needle
  | None => false
  end.

(** [!responseText || responseText.trim() === ''] *)
Definition emptyText (responseText : option string) : bool :=
  match responseText with
  | None => true
  | Some t => (String.length t =? 0) || (String.length (Js.trim t) =? 0)
  end.

(** [/^```json\s*/] and [/\s*```$/] replaced by the empty string. *)
Definition fence : string := "```".

Definition stripFenceStart (s : string) : string :=
  if String.prefix "```json" s
  then Js.trimStart (String.substring 7 (String.length s - 7) s)
  else s.

Definition stripFenceEnd (s : string) : string :=
  let n := String.length s in
  if (3 <=? n) && String.eqb (String.substring (n - 3) 3 s) fence
  then Js.trimEnd (String.substring 0 (n - 3) s)
  else s.

Definition sanitize (responseText : string) : string :=
  stripFenceEnd (stripFenceStart responseText).

(** The error for a reply cut off by the token limit, the same text in the
    Gemini service and in the OpenRouter variant. *)
Definition truncated : thrown :=
  JsError "The response was cut off because it reached the maximum token limit.".

(* --------------------------------------------------------------------- *)
(** ** geminiService.ts *)

Module Gemini.

Record SafetyRating : Type :=
  { category : string; blocked : bool }.

Record Candidate : Type :=
  { finishReason : option string;
    safetyRatings : option (list SafetyRating) }.

Record GenerateContentResponse : Type :=
  { text : option string;
    candidates : option (list Candidate) }.

Definition isRateLimitError (error : thrown) : bool :=
  messageIncludes error (Js.dquote ++ "code" ++ Js.dquote ++ ":429")%string
  || messageIncludes error "RESOURCE_EXHAUSTED".

Section Retries.
Context {W Response : Type}.
Variable apiCall : Run W (event Response) Response.
Variable maxRetries : nat.
Variable initialDelay : Z.

(** The [for] loop of [callGeminiWithRetries], entered with [attempt]
    and [lastError]; [remaining] is [maxRetries - attempt], the number
    of iterations the loop condition still allows. *)
Fixpoint retryLoop (remaining attempt : nat) (lastError : thrown)
    : Run W (event Response) Response :=
  match remaining with
  | 0 => raise lastError
  | S remaining' =>
      r <- Gateway.attempt apiCall ;;
      match r with
      | inr response => ret response
      | inl error =>
          if isRateLimitError error then
            let delayMs := (initialDelay * Js.pow2 attempt)%Z in
            delay delayMs ;;
            retryLoop remaining' (S attempt) error
          else raise error
      end
  end.

(** [let lastError = null], then the loop from [attempt = 0]. *)
Definition callGeminiWithRetries : Run W (event Response) Response :=
  retryLoop maxRetries 0 (JsObject None).
End Retries.

Section Parse.
Context {T : Type}.
(** [JSON.parse(text) as T]: the decoded value, or the message of the
    [SyntaxError] it throws. *)
Variable JSON_parse : string -> string + T.

Definition firstCandidate (response : GenerateContentResponse)
    : option Candidate :=
  match candidates response with
  | Some (c :: _) => Some c
  | _ => None
  end.

Definition safeParseJsonResponse (response : GenerateContentResponse)
    : thrown + T :=
  let responseText := text response in
  if emptyText responseText then
    let finishReason :=
      match firstCandidate response with
      | Some c => finishReason c
      | None => None
      end in
    let safetyRatings :=
      match firstCandidate response with
      | Some c => safetyRatings c
      | None => None
      end in
    match finishReason with
    | Some "SAFETY" =>
        let blockedRating :=
          match safetyRatings with
          | Some ratings => List.find blocked ratings
          | None => None
          end in
        let reason :=
          match blockedRating with
          | Some rating => ("due to " ++ category rating)%string
          | None => ""
          end in
        inl (JsError ("The request was blocked by safety settings "
                      ++ reason ++ ". Please modify the input text."))
    | Some "MAX_TOKENS" =>
        inl (JsError
          "The response was cut off because it reached the maximum token limit.")
    | _ =>
        inl (JsError "Gemini API returned an empty or invalid response.")
    end
  else
    match JSON_parse (sanitize (orElse responseText "")) with
    | inr value => inr value
    | inl message =>
        inl (JsError ("Invalid JSON response from API: " ++ message))
    end.
End Parse.

End Gemini.

(* --------------------------------------------------------------------- *)
(** ** grokService.ts *)

Module Grok.

Record Choice : Type :=
  { content : option string;      (* [message?.content] *)
    finish_reason : string }.

Record OpenRouterResponse : Type :=
  { choices : list Choice }.

(** What [fetch] resolves to: [response.ok], [response.status], and what
    [response.text()] and [response.json()] give. *)
Record HttpResponse : Type :=
  { ok : bool;
    status : nat;
    text : string;
    json : thrown + OpenRouterResponse }.

Definition isRateLimitError (error : thrown) : bool :=
  messageIncludes error "429" || messageIncludes error "too many requests".

(** [data.choices[0]?.message?.content || ''] *)
Definition contentOf (data : OpenRouterResponse) : string :=
  match choices data with
  | c :: _ => orElse (content c) ""
  | [] => ""
  end.

Section Retries.
Context {W : Type}.
Variable fetch : Run W (event HttpResponse) HttpResponse.
Variable maxRetries : nat.
Variable initialDelay : Z.

(** The body of the [try] block. *)
Definition request : Run W (event HttpResponse) string :=
  response <- fetch ;;
  if negb (ok response) then
    let errorText := text response in
    raise (JsError ("API request failed: " ++ Js.toString (status response)
                    ++ " " ++ errorText))
  else
    match json response with
    | inl error => raise error
    | inr data => ret (contentOf data)
    end.

Fixpoint retryLoop (remaining attempt : nat) (lastError : thrown)
    : Run W (event HttpResponse) string :=
  match remaining with
  | 0 => raise lastError
  | S remaining' =>
      r <- Gateway.attempt request ;;
      match r with
      | inr content => ret content
      | inl error =>
          if isRateLimitError error && (attempt <? maxRetries - 1) then
            let delayMs := (initialDelay * Js.pow2 attempt)%Z in
            delay delayMs ;;
            retryLoop remaining' (S attempt) error
          else raise error
      end
  end.

Definition callGrokWithRetries : Run W (event HttpResponse) string :=
  retryLoop maxRetries 0 (JsObject None).
End Retries.

Section Parse.
Context {T : Type}.
Variable JSON_parse : string -> string + T.

Definition safeParseJsonResponse (responseText : string) : thrown + T :=
  match JSON_parse (sanitize responseText) with
  | inr value => inr value
  | inl _ => inl (JsError "Invalid response format from API")
  end.

(** What the caller of a phase function sees for a reply [data] that
    arrived with status 200: [callGrokWithRetries] keeps the content and
    [safeParseJsonResponse] decodes it. *)
Definition parseReply (data : OpenRouterResponse) : thrown + T :=
  safeParseJsonResponse (contentOf data).
End Parse.

(** What [extractConcepts], [generateSingleNoteBody] and [interlinkNotes] do
    with the messages they have built: [callGrokWithRetries(messages)] with
    its default arguments, then [safeParseJsonResponse]. *)
Definition roundTrip {W T : Type}
    (fetch : Run W (event HttpResponse) HttpResponse)
    (JSON_parse : string -> string + T) : Run W (event HttpResponse) T :=
  response <- callGrokWithRetries fetch 3 2000 ;;
  match safeParseJsonResponse JSON_parse response with
  | inl error => raise error
  | inr value => ret value
  end.

End Grok.

(* --------------------------------------------------------------------- *)
(** ** The OpenRouter variant of the service *)

Module OpenRouter.

Record Choice : Type :=
  { content : option string;          (* [message?.content] *)
    finish_reason : option string }.

(** The decoded body of a reply ([any] in the source). *)
Record ApiResponse : Type :=
  { choices : option (list Choice) }.

(** What [fetch] resolves to.  [errorMessage] is [body.error.message] of
    the [errorInfo] object built for a response that is not ok, when that
    is truthy. *)
Record HttpResponse : Type :=
  { ok : bool;
    status : nat;
    json : thrown + ApiResponse;
    errorMessage : option string }.

(** [error?.status === 429] *)
Definition isRateLimitError (error : thrown) : bool :=
  match error with
  | JsHttp status _ => status =? 429
  | _ => false
  end.

Section Retries.
Context {W : Type}.
Variable fetch : Run W (event HttpResponse) HttpResponse.
Variable JSON_stringify : thrown -> string.
Variable maxRetries : nat.
Variable initialDelay : Z.

Definition request : Run W (event HttpResponse) ApiResponse :=
  response <- fetch ;;
  if ok response then
    match json response with
    | inl error => raise error
    | inr data => ret data
    end
  else raise (JsHttp (status response) (errorMessage response)).

(** The branch of the [catch] block for an error that is not retried. *)
Definition rethrow (error : thrown) : thrown :=
  match error with
  | JsHttp status (Some message) =>
      JsError ("API Error (" ++ Js.toString status ++ "): " ++ message)
  | JsError _ => error
  | _ => JsError ("An unknown API error occurred: " ++ JSON_stringify error)
  end.

Fixpoint retryLoop (remaining attempt : nat) (lastError : thrown)
    : Run W (event HttpResponse) ApiResponse :=
  match remaining with
  | 0 => raise lastError
  | S remaining' =>
      r <- Gateway.attempt request ;;
      match r with
      | inr data => ret data
      | inl error =>
          if isRateLimitError error then
            let delayMs := (initialDelay * Js.pow2 attempt)%Z in
            delay delayMs ;;
            retryLoop remaining' (S attempt) error
          else raise (rethrow error)
      end
  end.

Definition callOpenRouterWithRetries
    : Run W (event HttpResponse) ApiResponse :=
  retryLoop maxRetries 0 (JsObject None).
End Retries.

Definition firstChoice (apiResponse : ApiResponse) : option Choice :=
  match choices apiResponse with
  | Some (c :: _) => Some c
  | _ => None
  end.

Section Parse.
Context {T : Type}.
Variable JSON_parse : string -> string + T.

Definition safeParseJsonResponse (apiResponse : ApiResponse) : thrown + T :=
  let contentString :=
    match firstChoice apiResponse with
    | Some c => content c
    | None => None
    end in
  if emptyText contentString then
    let finishReason :=
      match firstChoice apiResponse with
      | Some c => finish_reason c
      | None => None
      end in
    match finishReason with
    | Some "content_filter" =>
        inl (JsError
          "The request was blocked by a content filter. Please modify the input text.")
    | Some "length" | Some "max_tokens" =>
        inl (JsError
          "The response was cut off because it reached the maximum token limit.")
    | _ =>
        inl (JsError "OpenRouter API returned an empty or invalid response.")
    end
  else
    match JSON_parse (orElse contentString "") with
    | inr value => inr value
    | inl message =>
        inl (JsError ("Invalid JSON response from API: " ++ message))
    end.
End Parse.

End OpenRouter.

End Gateway.

(* ===================================================================== *)
(** * Pipeline orchestrator *)
(* ===================================================================== *)

Module Pipeline.

(** What a run of the orchestrator does that can be observed: the progress
    callback, the timer between calls, and the four requests to the model.
    A request is one call of [call...WithRetries] followed by
    [safeParseJsonResponse]; its outcome is the decoded reply, or whatever
    the two of them throw. *)
Inductive event : Type :=
| Progress (update : Update.t)
| Delay (ms : Z)
| ExtractConcepts (bookContent : string) (outcome : thrown + list string)
| GenerateNoteBody (bookContent title : string) (outcome : thrown + NoteBody.t)
| InterlinkNotes (notesWithTempIds : list Note.t) (outcome : thrown + list Note.t)
| InterlinkSingleNote (content : string) (otherTitles : list string)
                      (outcome : thrown + string).

(** The model behind the gateway: how it answers each request in a given
    state of the world.  Nothing is assumed about the answers. *)
Record Model : Type :=
  { World : Type;
    titlesReply : string -> World -> World * (thrown + list string);
    bodyReply : string -> string -> World -> World * (thrown + NoteBody.t);
    notesReply : list Note.t -> World -> World * (thrown + list Note.t);
    contentReply : string -> list string -> World -> World * (thrown + string) }.

(** [{ ...state, titles }] and the like. *)
Definition withTitles (state : ProcessingState) (titles : list string) :=
  mkState (status state) (stage state) (inputText state) titles
          (unlinkedNotes state) (finalNotes state) (error state).

Definition withUnlinkedNotes (state : ProcessingState)
    (unlinkedNotes : list UnlinkedNote.t) :=
  mkState (status state) (stage state) (inputText state) (titles state)
          unlinkedNotes (finalNotes state) (error state).

Definition withFinalNotes (state : ProcessingState) (finalNotes : list Note.t) :=
  mkState (status state) (stage state) (inputText state) (titles state)
          (unlinkedNotes state) finalNotes (error state).

(** The object literals passed to [onProgress]. *)
Definition stageStatusUpdate (stage : string) (status : ProcessingStatus) :=
  Update.mk (Some status) (Some stage) None None None None None.
Definition titlesUpdate (titles : list string) :=
  Update.mk None None None (Some titles) None None None.
Definition stageUpdate (stage : string) :=
  Update.mk None (Some stage) None None None None None.
Definition unlinkedNotesUpdate (unlinkedNotes : list UnlinkedNote.t) :=
  Update.mk None None None None (Some unlinkedNotes) None None.
Definition completedUpdate (finalNotes : list Note.t) :=
  Update.mk (Some Status.completed) (Some "") None None None (Some finalNotes) None.
Definition errorUpdate (descriptiveError : string) :=
  Update.mk (Some Status.error) None None None None None
            (Some (Some descriptiveError)).

Definition unknownError : string :=
  "An unknown error occurred while processing the book.".

(** An asynchronous function of the orchestrator. *)
Abbreviation Task model := (Run (World model) event).

Section Phases.
Variable model : Model.

Definition onProgress (update : Update.t) : Task model unit :=
  emit (Progress update).

Definition delay (ms : Z) : Task model unit :=
  emit (Delay ms).

(** Phase 1: one request, decoded as a list of titles.  The three services
    differ in the wording of the request only. *)
Definition extractConcepts (bookContent : string) : Task model (list string) :=
  perform (titlesReply model bookContent) (ExtractConcepts bookContent).

(** Phase 2: one request for one title. *)
Definition generateSingleNoteBody (bookContent title : string)
    : Task model NoteBody.t :=
  perform (bodyReply model bookContent title)
          (GenerateNoteBody bookContent title).

(** The block [if (state.titles.length === 0) { ... }], the same in the
    three services. *)
Definition extractPhase (state : ProcessingState) : Task model ProcessingState :=
  if List.length (titles state) =? 0 then
    let stage := "Phase 1/3: Extracting core concepts..." in
    onProgress (stageStatusUpdate stage Status.processing) ;;
    newTitles <- extractConcepts (inputText state) ;;
    let state := withTitles state newTitles in
    onProgress (titlesUpdate newTitles) ;;
    ret state
  else ret state.

Definition generateStage (i : nat) (state : ProcessingState) (title : string)
    : string :=
  ("Phase 2/3: Generating note " ++ Js.toString (i + 1) ++ "/"
     ++ Js.toString (List.length (titles state)) ++ ": " ++ Js.dquote
     ++ Js.substring title 0 40 ++ "..." ++ Js.dquote)%string.

(** The loop [for (let i = startIndex; i < state.titles.length; i++)];
    [remaining] is [state.titles.length - i].  [notes] is the local array
    [unlinkedNotes]; the pair returned is [state] and that array at the
    exit of the loop. *)
Fixpoint generateLoop (remaining i : nat) (state : ProcessingState)
    (notes : list UnlinkedNote.t)
    : Task model (ProcessingState * list UnlinkedNote.t) :=
  match remaining with
  | 0 => ret (state, notes)
  | S remaining' =>
      let title := nth i (titles state) "" in
      let stage := generateStage i state title in
      onProgress (stageUpdate stage) ;;
      body <- generateSingleNoteBody (inputText state) title ;;
      let notes := notes ++ [withTitle title body] in
      let state := withUnlinkedNotes state notes in
      onProgress (unlinkedNotesUpdate (unlinkedNotes state)) ;;
      (if i <? List.length (titles state) - 1 then delay 1500 else ret tt) ;;
      generateLoop remaining' (S i) state notes
  end.

(** Phase 2 as a block, up to [state = { ...state, unlinkedNotes }]. *)
Definition generatePhase (state : ProcessingState) : Task model ProcessingState :=
  let notes := unlinkedNotes state in
  let startIndex := List.length notes in
  r <- (if startIndex <? List.length (titles state)
        then generateLoop (List.length (titles state) - startIndex)
                          startIndex state notes
        else ret (state, notes)) ;;
  ret (withUnlinkedNotes (fst r) (snd r)).

(** [state.status !== 'completed' || state.finalNotes.length === 0] *)
Definition interlinkDue (state : ProcessingState) : bool :=
  negb (Status.eqb (status state) Status.completed)
  || (List.length (finalNotes state) =? 0).

(** The end of every [catch] block: the error is reported, then thrown. *)
Definition failWith (who descriptiveError : string) : Task model (list Note.t) :=
  onProgress (errorUpdate descriptiveError) ;;
  raise (JsError ("Failed to process book with " ++ who ++ ": "
                  ++ descriptiveError)).
End Phases.

(* --------------------------------------------------------------------- *)
(** ** grokService.ts *)

Module Grok.
Section Service.
Variable model : Model.

(** Phase 3, batch strategy; the ids are assigned here. *)
Definition interlinkNotes (notes : list UnlinkedNote.t)
    : Task model (list Note.t) :=
  let notesWithTempIds :=
    mapi (fun note index => withId note (noteId index)) notes in
  linkedNotes <- perform (notesReply model notesWithTempIds)
                         (InterlinkNotes notesWithTempIds) ;;
  ret (mapi (fun note index => setId note (noteId index)) linkedNotes).

(** [descriptiveError] of the [catch] block. *)
Definition describe (error : thrown) : string :=
  match messageOf error with
  | Some message => message
  | None => unknownError
  end.

Definition processBookWithGrok (initialState : ProcessingState)
    : Task model (list Note.t) :=
  let state := initialState in
  catch
    (state <- extractPhase model state ;;
     state <- generatePhase model state ;;
     if interlinkDue state then
       let stage := "Phase 3/3: Weaving the knowledge graph..." in
       onProgress model (stageUpdate stage) ;;
       final <- interlinkNotes (unlinkedNotes state) ;;
       let state := withFinalNotes state final in
       onProgress model (completedUpdate final) ;;
       ret (finalNotes state)
     else ret (finalNotes state))
    (fun error => failWith model "Grok" (describe error)).
End Service.
End Grok.

(* --------------------------------------------------------------------- *)
(** ** geminiService.ts *)

Module Gemini.
Section Service.
Variable model : Model.

(** [JSON.parse(error.message)] followed by [.error.message], when the
    message decodes and that property is truthy. *)
Variable apiErrorMessage : string -> option string.

(** Phase 3, batch strategy; the reply is returned as decoded. *)
Definition interlinkNotes (notes : list UnlinkedNote.t)
    : Task model (list Note.t) :=
  let notesWithTempIds :=
    mapi (fun note index => withId note (noteId index)) notes in
  perform (notesReply model notesWithTempIds)
          (InterlinkNotes notesWithTempIds).

Definition describe (error : thrown) : string :=
  match messageOf error with
  | Some message =>
      match apiErrorMessage message with
      | Some inner => ("API Error: " ++ inner)%string
      | None => message
      end
  | None => unknownError
  end.

Definition processBookWithGemini (initialState : ProcessingState)
    : Task model (list Note.t) :=
  let state := initialState in
  catch
    (state <- extractPhase model state ;;
     state <- generatePhase model state ;;
     if interlinkDue state then
       let stage := "Phase 3/3: Weaving the knowledge graph..." in
       onProgress model (stageUpdate stage) ;;
       linkedNotesWithIds <- interlinkNotes (unlinkedNotes state) ;;
       let final :=
         mapi (fun note index => setId note (noteId index))
              linkedNotesWithIds in
       let state := withFinalNotes state final in
       onProgress model (completedUpdate final) ;;
       ret (finalNotes state)
     else ret (finalNotes state))
    (fun error => failWith model "Gemini" (describe error)).
End Service.
End Gemini.

(* --------------------------------------------------------------------- *)
(** ** The OpenRouter variant of the service *)

Module OpenRouter.
Section Service.
Variable model : Model.

(** Phase 3 helper, per-note strategy: the note's own title is left out of
    the link targets; the reply is the revised content. *)
Definition interlinkSingleNote (noteToLink : UnlinkedNote.t)
    (allTitles : list string) : Task model string :=
  let otherTitles :=
    filter (fun t => negb (String.eqb t (UnlinkedNote.title noteToLink)))
           allTitles in
  perform (contentReply model (UnlinkedNote.content noteToLink) otherTitles)
          (InterlinkSingleNote (UnlinkedNote.content noteToLink) otherTitles).

Definition interlinkStage (i : nat) (state : ProcessingState)
    (noteToLink : UnlinkedNote.t) : string :=
  ("Phase 3/3: Interlinking note " ++ Js.toString (i + 1) ++ "/"
     ++ Js.toString (List.length (unlinkedNotes state)) ++ ": " ++ Js.dquote
     ++ Js.substring (UnlinkedNote.title noteToLink) 0 40 ++ "..."
     ++ Js.dquote)%string.

Definition noNote : UnlinkedNote.t := UnlinkedNote.mk "" "" [] "".

(** The loop [for (let i = 0; i < state.unlinkedNotes.length; i++)];
    [remaining] is [state.unlinkedNotes.length - i], [final] the local
    array [finalNotes]. *)
Fixpoint interlinkLoop (remaining i : nat) (state : ProcessingState)
    (allNoteTitles : list string) (final : list Note.t)
    : Task model (list Note.t) :=
  match remaining with
  | 0 => ret final
  | S remaining' =>
      let noteToLink := nth i (unlinkedNotes state) noNote in
      let stage := interlinkStage i state noteToLink in
      onProgress model (stageUpdate stage) ;;
      newContent <- interlinkSingleNote noteToLink allNoteTitles ;;
      let final :=
        final ++ [Note.mk (noteId i) (UnlinkedNote.title noteToLink)
                          newContent (UnlinkedNote.quotes noteToLink)
                          (UnlinkedNote.source noteToLink)] in
      (if i <? List.length (unlinkedNotes state) - 1
       then delay model 1500 else ret tt) ;;
      interlinkLoop remaining' (S i) state allNoteTitles final
  end.

Definition describe (error : thrown) : string :=
  match error with
  | JsError message => message
  | _ => unknownError
  end.

(** [processBookWithGemini] of the OpenRouter variant. *)
Definition processBookWithGemini (initialState : ProcessingState)
    : Task model (list Note.t) :=
  let state := initialState in
  catch
    (state <- extractPhase model state ;;
     state <- generatePhase model state ;;
     if interlinkDue state then
       let allNoteTitles := map UnlinkedNote.title (unlinkedNotes state) in
       final <- interlinkLoop (List.length (unlinkedNotes state)) 0 state
                              allNoteTitles [] ;;
       let state := withFinalNotes state final in
       onProgress model (completedUpdate final) ;;
       ret (finalNotes state)
     else ret (finalNotes state))
    (fun error => failWith model "AI" (describe error)).
End Service.
End OpenRouter.

End Pipeline.

(* ===================================================================== *)
(** * Presentation: cross-references *)
(* ===================================================================== *)

Module Links.

(** [.*?] followed by the two closing brackets: the shortest run of
    characters other than line terminators up to the first "]]".  The result
    is the run and what follows the closing brackets. *)
Fixpoint lazyInner (s : string) : option (string * string) :=
  match s with
  | String "]" (String "]" rest) => Some (EmptyString, rest)
  | String c rest =>
      if Js.isLineTerminator c then None
      else match lazyInner rest with
           | Some (inner, after) => Some (String c inner, after)
           | None => None
           end
  | EmptyString => None
  end.

(** The matches of [/\[\[(.*?)\]\]/g], leftmost first, each search starting
    where the previous match ended.  Every step leaves at least one code
    unit behind, [fuel] bounds the number of steps. *)
Fixpoint matchesFrom (fuel : nat) (s : string) : list string :=
  match fuel with
  | 0 => []
  | S fuel' =>
      match s with
      | String "[" (String "[" rest) =>
          match lazyInner rest with
          | Some (inner, after) =>
              ("[[" ++ inner ++ "]]")%string :: matchesFrom fuel' after
          | None => matchesFrom fuel' (String "[" rest)
          end
      | String _ rest => matchesFrom fuel' rest
      | EmptyString => []
      end
  end.

(** [content.match(/\[\[(.*?)\]\]/g) || []] *)
Definition linkMatches (content : string) : list string :=
  matchesFrom (S (String.length content)) content.

(** The text of a marker for the title [T]. *)
Definition marker (T : string) : string := ("[[" ++ T ++ "]]")%string.

(** [s.trim().toLowerCase()] *)
Definition normalize (s : string) : string := Js.toLowerCase (Js.trim s).

End Links.

(** A [Map] with string keys, as [new Map(entries)] builds it: a later
    entry with the same key replaces the earlier one. *)
Module JsMap.
Definition t (V : Type) : Type := list (string * V).

Definition set {V} (m : t V) (key : string) (value : V) : t V :=
  filter (fun kv => negb (String.eqb (fst kv) key)) m ++ [(key, value)].

Definition fromEntries {V} (entries : list (string * V)) : t V :=
  fold_left (fun m kv => set m (fst kv) (snd kv)) entries [].

Definition get {V} (m : t V) (key : string) : option V :=
  match find (fun kv => String.eqb (fst kv) key) m with
  | Some kv => Some (snd kv)
  | None => None
  end.
End JsMap.

(** components/NetworkGraph.tsx, the [useMemo] that builds the graph. *)
Module NetworkGraph.

Record D3Node : Type := { id : string; title : string }.
Record D3Link : Type := { source : string; target : string }.

Definition titleToIdMap (notes : list Note.t) : JsMap.t string :=
  JsMap.fromEntries
    (map (fun note => (Links.normalize (Note.title note), Note.id note)) notes).

(** The body of [linkMatches.forEach]: the links one match adds. *)
Definition linksOfMatch (map : JsMap.t string) (note : Note.t)
    (matched : string) : list D3Link :=
  let targetTitle :=
    Links.normalize (Js.substring matched 2 (String.length matched - 2)) in
  match JsMap.get map targetTitle with
  | Some targetId =>
      if negb (String.eqb targetId "")
         && negb (String.eqb targetId (Note.id note))
      then [ {| source := Note.id note; target := targetId |} ]
      else []
  | None => []
  end.

Definition newNodes (notes : list Note.t) : list D3Node :=
  map (fun note => {| id := Note.id note; title := Note.title note |}) notes.

Definition newLinks (notes : list Note.t) : list D3Link :=
  let map := titleToIdMap notes in
  flat_map (fun note =>
              flat_map (linksOfMatch map note)
                       (Links.linkMatches (Note.content note)))
           notes.
End NetworkGraph.

(** App.tsx *)
Module App.

Inductive ViewMode : Type := viewer | graph.

(** The three pieces of React state. *)
Record t : Type := mk
  { session : ProcessingState;
    selectedNoteId : option string;
    viewMode : ViewMode }.

Definition getInitialState : ProcessingState :=
  mkState Status.idle "" "" [] [] [] None.

(** [setSession(prev => ({ ...prev, ...update }))] for every progress
    event of a run, in order. *)
Definition handleProgress (session : ProcessingState)
    (ev : Pipeline.event) : ProcessingState :=
  match ev with
  | Pipeline.Progress update => merge session update
  | _ => session
  end.

Definition replay (trace : list Pipeline.event) (session : ProcessingState)
    : ProcessingState :=
  fold_left handleProgress trace session.

(** [runProcess]: the session is marked as processing and its error
    cleared, the orchestrator runs on [stateToProcess] with
    [handleProgress] as its callback, and a non-empty result selects its
    first note.  A failure is logged and nothing else. *)
Definition runProcess (model : Pipeline.Model) (app : t)
    (stateToProcess : ProcessingState) (w : Pipeline.World model)
    : t * Pipeline.World model :=
  let prev := session app in
  let started :=
    mkState Status.processing (stage prev) (inputText prev) (titles prev)
            (unlinkedNotes prev) (finalNotes prev) None in
  match Pipeline.Grok.processBookWithGrok model stateToProcess w with
  | (trace, w', outcome) =>
      let session' := replay trace started in
      match outcome with
      | inr (first :: _) =>
          (mk session' (Some (Note.id first)) (viewMode app), w')
      | _ => (mk session' (selectedNoteId app) (viewMode app), w')
      end
  end.

End App.

(* ===================================================================== *)
(** * Test doubles *)
(* ===================================================================== *)

Module Fixture.

(** A model whose world is the number of requests it has served.  Request
    number [n] is rejected with [e] when [failure n = Some e]; otherwise
    titles are "X" and "Y", a body quotes its title, the batch interlink
    returns its input with every id replaced by "same" and a link to "X"
    added, and the per-note interlink adds a link to each target. *)
Definition answer {A} (failure : nat -> option thrown) (a : A) (n : nat)
    : nat * (thrown + A) :=
  (S n, match failure n with Some e => inl e | None => inr a end).

Definition scripted (failure : nat -> option thrown) : Pipeline.Model :=
  {| Pipeline.World := nat;
     Pipeline.titlesReply := fun _ => answer failure ["X"; "Y"];
     Pipeline.bodyReply := fun _ title =>
       answer failure
         (NoteBody.mk None ("About " ++ title) [title] "Chapter 1");
     Pipeline.notesReply := fun notes =>
       answer failure
         (map (fun n => Note.mk "same" (Note.title n)
                          (Note.content n ++ " See [[X]].")
                          (Note.quotes n) (Note.source n)) notes);
     Pipeline.contentReply := fun content others =>
       answer failure
         (fold_left (fun acc t => acc ++ " [[" ++ t ++ "]]") others content)%string
  |}.

Definition reliable : Pipeline.Model := scripted (fun _ => None).

(** As [reliable], but every note body comes with a title of its own. *)
Definition retitling : Pipeline.Model :=
  {| Pipeline.World := nat;
     Pipeline.titlesReply := Pipeline.titlesReply reliable;
     Pipeline.bodyReply := fun _ title n =>
       (S n, inr (NoteBody.mk (Some ("On " ++ title)%string)
                              ("About " ++ title) [title] "Chapter 1"));
     Pipeline.notesReply := Pipeline.notesReply reliable;
     Pipeline.contentReply := Pipeline.contentReply reliable |}.

(** The request number [k] fails, every other request succeeds. *)
Definition failingAt (k : nat) (e : thrown) : Pipeline.Model :=
  scripted (fun n => if n =? k then Some e else None).

Definition fresh (text : string) : ProcessingState :=
  mkState Status.idle "" text [] [] [] None.

Definition noteA : UnlinkedNote.t := UnlinkedNote.mk "A" "Alpha." ["a"] "p. 1".
Definition noteB : UnlinkedNote.t := UnlinkedNote.mk "B" "Beta." ["b"] "p. 2".

(** A session interrupted after the first of three notes. *)
Definition interrupted : ProcessingState :=
  mkState Status.error "" "book" ["A"; "B"; "C"] [noteA] [] (Some "boom").

(** A session with every note generated and the interlink still due. *)
Definition generated : ProcessingState :=
  mkState Status.error "" "book" ["A"; "B"] [noteA; noteB] [] (Some "boom").

(** A session whose notes are all generated and which still holds the
    final notes of an earlier book. *)
Definition stale : ProcessingState :=
  mkState Status.error "" "book" ["A"; "B"] [noteA; noteB]
          [Note.mk "note_000" "Old" "Old." [] ""] (Some "boom").

Definition finished : ProcessingState :=
  mkState Status.completed "" "book" ["A"; "B"] [noteA; noteB]
          [Note.mk "note_000" "A" "Alpha, see [[B]]." ["a"] "p. 1";
           Note.mk "note_001" "B" "Beta." ["b"] "p. 2"] None.
End Fixture.

(* ===================================================================== *)
(** * Observing a run of the orchestrator *)
(* ===================================================================== *)

Module Trace.
Import Pipeline.

(** The events of a trace that [f] selects, in order. *)
Definition collect {X} (f : event -> option X) (trace : list event) : list X :=
  flat_map (fun ev => match f ev with Some x => [x] | None => [] end) trace.

Definition updateOf (ev : event) : option Update.t :=
  match ev with Progress update => Some update | _ => None end.

Definition extractCallOf (ev : event) : option string :=
  match ev with ExtractConcepts text _ => Some text | _ => None end.

Definition generateCallOf (ev : event) : option (string * string) :=
  match ev with
  | GenerateNoteBody text title _ => Some (text, title)
  | _ => None
  end.

Definition interlinkCallOf (ev : event) : option event :=
  match ev with
  | InterlinkNotes _ _ | InterlinkSingleNote _ _ _ => Some ev
  | _ => None
  end.

(** What a request was rejected with. *)
Definition rejectionOf (ev : event) : option thrown :=
  match ev with
  | ExtractConcepts _ (inl e) | GenerateNoteBody _ _ (inl e)
  | InterlinkNotes _ (inl e) | InterlinkSingleNote _ _ (inl e) => Some e
  | _ => None
  end.

(** What a phase-2 request was rejected with. *)
Definition generateRejectionOf (ev : event) : option thrown :=
  match ev with
  | GenerateNoteBody _ _ (inl e) => Some e
  | _ => None
  end.

Definition titlesOf (ev : event) : option (list string) :=
  match ev with Progress update => Update.titles update | _ => None end.

Definition unlinkedNotesOf (ev : event) : option (list UnlinkedNote.t) :=
  match ev with Progress update => Update.unlinkedNotes update | _ => None end.

Definition finalNotesOf (ev : event) : option (list Note.t) :=
  match ev with Progress update => Update.finalNotes update | _ => None end.

Definition errorOf (ev : event) : option (option string) :=
  match ev with Progress update => Update.error update | _ => None end.

Definition updates := collect updateOf.
Definition extractCalls := collect extractCallOf.
Definition generateCalls := collect generateCallOf.
Definition interlinkCalls := collect interlinkCallOf.
Definition rejections := collect rejectionOf.
Definition generateRejections := collect generateRejectionOf.
Definition titlesUpdates := collect titlesOf.
Definition unlinkedNotesUpdates := collect unlinkedNotesOf.
Definition finalNotesUpdates := collect finalNotesOf.
Definition errorUpdates := collect errorOf.

(** What phase 2 may emit: stage announcements, checkpoints of the notes,
    timers and its own requests; and what phase 3 may emit before it
    completes: stage announcements, timers and its own requests. *)
Definition phase2Event (ev : event) : Prop :=
  extractCallOf ev = None /\ interlinkCallOf ev = None
  /\ titlesOf ev = None /\ finalNotesOf ev = None /\ errorOf ev = None.

Definition phase1Event (ev : event) : Prop :=
  generateCallOf ev = None /\ generateRejectionOf ev = None
  /\ interlinkCallOf ev = None /\ unlinkedNotesOf ev = None
  /\ finalNotesOf ev = None /\ errorOf ev = None.

Definition phase3Event (ev : event) : Prop :=
  extractCallOf ev = None /\ generateCallOf ev = None
  /\ titlesOf ev = None /\ unlinkedNotesOf ev = None
  /\ finalNotesOf ev = None /\ errorOf ev = None.

(** Events that are neither a request of phases 1 and 2 nor a checkpoint
  of the titles or of the notes; and events that leave the titles and the
  notes of the consumer's session as they are. *)
Definition closing (ev : event) : Prop :=
  extractCallOf ev = None /\ generateCallOf ev = None
  /\ generateRejectionOf ev = None
  /\ titlesOf ev = None /\ unlinkedNotesOf ev = None.

Definition inert (ev : event) : Prop :=
  titlesOf ev = None /\ unlinkedNotesOf ev = None.

(** A computation that throws only what a request was rejected with, and
      stops there: its trace has a rejected request exactly when it throws,
      and then that request is its last event. *)
Definition stopsAtRejection {W A} (r : list event * W * (thrown + A))
    : Prop :=
  match outcomeOf r with
  | inr _ => rejections (traceOf r) = []
  | inl e =>
      exists before last,
        traceOf r = before ++ [last]
        /\ rejectionOf last = Some e
        /\ rejections before = []
  end.

(** The phase-2 requests for the titles number [from], ..., [from+count-1]
    of a session. *)
Definition generateCallsFor (state : ProcessingState) (from count : nat)
    : list (string * string) :=
  map (fun i => (inputText state, nth i (titles state) "")) (seq from count).

(** [unlinkedNotes[i].title = titles[i]] for every index of
    [unlinkedNotes]. *)
Definition aligned (state : ProcessingState) : Prop :=
  forall i note,
    nth_error (unlinkedNotes state) i = Some note ->
    nth_error (titles state) i = Some (UnlinkedNote.title note).

(** [finalNotes[i].id] is the ordinal id of [i]. *)
Definition ordinalIds (notes : list Note.t) : Prop :=
  forall i note, nth_error notes i = Some note -> Note.id note = noteId i.

(** A note body that leaves the title of its note to the loop: it has no
    [title] of its own, or the title that was asked for. *)
Definition keepsTitle (ev : event) : bool :=
  match ev with
  | GenerateNoteBody _ title (inr body) =>
      match NoteBody.title body with
      | Some own => String.eqb own title
      | None => true
      end
  | _ => true
  end.

(** The session as the consumer holds it after each event of a trace,
    starting from [session]: at every step there are at most as many notes
    as titles and notes are only appended, and the notes are aligned with
    the titles as long as every note body so far kept its title ([kept]
    says so for the events before the trace). *)
Fixpoint steady (kept : bool) (session : ProcessingState)
    (trace : list event) : Prop :=
  match trace with
  | [] => True
  | ev :: rest =>
      let next := App.handleProgress session ev in
      let kept := kept && keepsTitle ev in
      (kept = true -> aligned next)
      /\ List.length (unlinkedNotes next) <= List.length (titles next)
      /\ (exists added, unlinkedNotes next = unlinkedNotes session ++ added)
      /\ steady kept next rest
  end.
End Trace.

(** The three services as one interface: the orchestrator, the name it
    reports failures under, and how it words a caught error. *)
Module Service.
Import Pipeline.

Record t (model : Model) : Type := mk
  { run : ProcessingState -> Task model (list Note.t);
    who : string;
    describe : thrown -> string }.
Arguments mk {model} run who describe.
Arguments run {model} _ _ _.
Arguments who {model} _.
Arguments describe {model} _ _.

Definition grok (model : Model) : t model :=
  mk (Grok.processBookWithGrok model) "Grok" Grok.describe.

Definition gemini (model : Model) (apiErrorMessage : string -> option string)
    : t model :=
  mk (Gemini.processBookWithGemini model apiErrorMessage) "Gemini"
     (Gemini.describe apiErrorMessage).

Definition openRouter (model : Model) : t model :=
  mk (OpenRouter.processBookWithGemini model) "AI" OpenRouter.describe.

Definition all (model : Model) (apiErrorMessage : string -> option string)
    : list (t model) :=
  [grok model; gemini model apiErrorMessage; openRouter model].

(** Phase 3 of each service, from the announcement of the stage to the
    list of final notes. *)
Definition grokInterlink (model : Model) (state : ProcessingState)
    : Task model (list Note.t) :=
  onProgress model (stageUpdate "Phase 3/3: Weaving the knowledge graph...") ;;
  Grok.interlinkNotes model (unlinkedNotes state).

Definition geminiInterlink (model : Model) (state : ProcessingState)
    : Task model (list Note.t) :=
  onProgress model (stageUpdate "Phase 3/3: Weaving the knowledge graph...") ;;
  linkedNotesWithIds <- Gemini.interlinkNotes model (unlinkedNotes state) ;;
  ret (mapi (fun note index => setId note (noteId index)) linkedNotesWithIds).

Definition openRouterInterlink (model : Model) (state : ProcessingState)
    : Task model (list Note.t) :=
  OpenRouter.interlinkLoop model (List.length (unlinkedNotes state)) 0 state
    (map UnlinkedNote.title (unlinkedNotes state)) [].

(** What the common shape needs to know of a phase 3: it emits its own
    events only, throws exactly what its last request was rejected with,
    returns notes with ordinal ids, and makes at least one request when
    there is a note to link. *)
Definition phase3 (model : Model)
    (interlink : ProcessingState -> Task model (list Note.t)) : Prop :=
  forall state w,
    Forall Trace.phase3Event (traceOf (interlink state w))
    /\ Trace.stopsAtRejection (interlink state w)
    /\ (forall final, outcomeOf (interlink state w) = inr final ->
                      Trace.ordinalIds final)
    /\ (unlinkedNotes state <> [] ->
        Trace.interlinkCalls (traceOf (interlink state w)) <> []).

(** What a [catch] block throws for the error [e], and the progress event
  it emits before. *)
Definition failure (who : string) (describe : thrown -> string) (e : thrown)
    : thrown :=
  JsError ("Failed to process book with " ++ who ++ ": " ++ describe e).

Definition report (describe : thrown -> string) (e : thrown) : event :=
  Progress (errorUpdate (describe e)).

(** The shape the three orchestrators share. *)
Definition orchestrate (model : Model)
    (interlink : ProcessingState -> Task model (list Note.t))
    (who : string) (describe : thrown -> string)
    (initialState : ProcessingState) : Task model (list Note.t) :=
  catch
    (state <- extractPhase model initialState ;;
     state <- generatePhase model state ;;
     if interlinkDue state then
       final <- interlink state ;;
       onProgress model (completedUpdate final) ;;
       ret final
     else ret (finalNotes state))
    (fun error => failWith model who (describe error)).
End Service.

(* ===================================================================== *)
(** * Observing the gateway *)
(* ===================================================================== *)

Module Backoff.
Import Gateway.

(** One network call against a network that answers [net]. *)
Definition send {W R} (net : W -> W * (thrown + R)) : Run W (event R) R :=
  perform net Attempt.

(** The timers of a trace, in order, and the number of network calls. *)
Fixpoint delays {R} (trace : list (event R)) : list Z :=
  match trace with
  | [] => []
  | Delay ms :: rest => ms :: delays rest
  | Attempt _ :: rest => delays rest
  end.

Fixpoint attempts {R} (trace : list (event R)) : nat :=
  match trace with
  | [] => 0
  | Attempt _ :: rest => S (attempts rest)
  | Delay _ :: rest => attempts rest
  end.

(** [base * 2^attempt] for [m] consecutive attempts from number [from]. *)
Definition schedule (initialDelay : Z) (from m : nat) : list Z :=
  map (fun attempt => (initialDelay * Js.pow2 attempt)%Z) (seq from m).

Section Requests.
Context {W R A : Type}.
Variable request : Run W (event R) A.
Variable isRateLimitError : thrown -> bool.

(** The next [m] requests, issued one after the other from the world
    [w], all fail with a rate-limit error. *)
Fixpoint rateLimited (m : nat) (w : W) : bool :=
  match m with
  | 0 => true
  | S m' =>
      match outcomeOf (request w) with
      | inl e => isRateLimitError e && rateLimited m' (worldOf (request w))
      | inr _ => false
      end
  end.

(** The world after [m] requests. *)
Fixpoint worldAfter (m : nat) (w : W) : W :=
  match m with
  | 0 => w
  | S m' => worldAfter m' (worldOf (request w))
  end.
End Requests.

(** The shape the three retry loops share: a failed attempt is retried
    after the delay when [retryable attempt error] holds, and otherwise
    [final error] is thrown. *)
Section Shape.
Context {W R A : Type}.
Variable request : Run W (event R) A.
Variable retryable : nat -> thrown -> bool.
Variable final : thrown -> thrown.
Variable initialDelay : Z.

Fixpoint retryShape (remaining attempt : nat) (lastError : thrown)
    : Run W (event R) A :=
  match remaining with
  | 0 => raise lastError
  | S remaining' =>
      r <- Gateway.attempt request ;;
      match r with
      | inr a => ret a
      | inl error =>
          if retryable attempt error then
            delay (initialDelay * Js.pow2 attempt)%Z ;;
            retryShape remaining' (S attempt) error
          else raise (final error)
      end
  end.

(** The next [m] requests all fail and each failure is retried. *)
Fixpoint retried (m attempt : nat) (w : W) : bool :=
  match m with
  | 0 => true
  | S m' =>
      match outcomeOf (request w) with
      | inl e => retryable attempt e
                 && retried m' (S attempt) (worldOf (request w))
      | inr _ => false
      end
  end.
End Shape.

(** What a run [r] of a wrapper from the world [w] looks like when it
    answers with [reply] after [m] rate-limited attempts, and when it gives
    up after [m] attempts. *)
Definition answersAfter {W R A} (r : list (event R) * W * (thrown + A))
    (request : Run W (event R) A) (initialDelay : Z) (m : nat) (w : W)
    (reply : A) : Prop :=
  outcomeOf r = inr reply
  /\ delays (traceOf r) = schedule initialDelay 0 m
  /\ attempts (traceOf r) = S m
  /\ worldOf r = worldAfter request (S m) w.

Definition givesUpAfter {W R A} (r : list (event R) * W * (thrown + A))
    (request : Run W (event R) A) (initialDelay : Z) (m : nat) (w : W)
    : Prop :=
  (exists e, outcomeOf (request (worldAfter request (m - 1) w)) = inl e
             /\ outcomeOf r = inl e)
  /\ firstn (m - 1) (delays (traceOf r)) = schedule initialDelay 0 (m - 1)
  /\ attempts (traceOf r) = m
  /\ worldOf r = worldAfter request m w.

(** A Gemini endpoint that rejects its first [failures] calls with the
    quota error of the SDK and then answers; the world counts the calls. *)
Definition quotaError : thrown :=
  JsError "got status: 429 RESOURCE_EXHAUSTED".

Definition okReply : Gemini.GenerateContentResponse :=
  {| Gemini.text := Some "[]"; Gemini.candidates := None |}.

Definition flakyGemini (failures : nat) (n : nat)
    : nat * (thrown + Gemini.GenerateContentResponse) :=
  (S n, if n <? failures then inl quotaError else inr okReply).

(** An OpenRouter endpoint that answers its first [failures] calls with
    status 429 and then with one choice whose content is "[]". *)
Definition tooMany : Grok.HttpResponse :=
  {| Grok.ok := false; Grok.status := 429; Grok.text := "slow down";
     Grok.json := inl (JsError "Unexpected token") |}.

Definition okData : Grok.OpenRouterResponse :=
  {| Grok.choices := [ {| Grok.content := Some "[]";
                          Grok.finish_reason := "stop" |} ] |}.

Definition okHttp : Grok.HttpResponse :=
  {| Grok.ok := true; Grok.status := 200; Grok.text := "";
     Grok.json := inr okData |}.

Definition flakyGrok (failures : nat) (n : nat)
    : nat * (thrown + Grok.HttpResponse) :=
  (S n, inr (if n <? failures then tooMany else okHttp)).

(** A decoder that, like [JSON.parse], rejects the empty text. *)
Definition parseNonEmpty (s : string) : string + string :=
  if String.eqb s "" then inl "Unexpected end of JSON input" else inr s.

(** A reply with empty content and the given finish reason. *)
Definition emptyReply (reason : string) : Grok.OpenRouterResponse :=
  {| Grok.choices := [ {| Grok.content := Some "";
                          Grok.finish_reason := reason |} ] |}.

(** An endpoint that answers every call with status 200 and that reply. *)
Definition emptyHttp (reason : string) : Grok.HttpResponse :=
  {| Grok.ok := true; Grok.status := 200; Grok.text := "";
     Grok.json := inr (emptyReply reason) |}.

Definition alwaysEmpty (reason : string) (n : nat)
    : nat * (thrown + Grok.HttpResponse) :=
  (S n, inr (emptyHttp reason)).
End Backoff.


(* ===================================================================== *)
(** * The budget of the retry wrappers *)
(* ===================================================================== *)

Module Budget.
Import Gateway Backoff.

(** What the trace of a retry wrapper may look like: at most [maxRetries]
    network calls, at least one when [maxRetries] is positive, a timer only
    after a call, and the timers are the first waits of the schedule
    [initialDelay * 2^0], [initialDelay * 2^1], ... *)
Definition bounded {R} (maxRetries : nat) (initialDelay : Z)
    (trace : list (event R)) : Prop :=
  attempts trace <= maxRetries
  /\ (0 < maxRetries -> 0 < attempts trace)
  /\ List.length (delays trace) <= attempts trace
  /\ attempts trace <= S (List.length (delays trace))
  /\ delays trace = schedule initialDelay 0 (List.length (delays trace)).

(** The time spent waiting. *)
Definition total (waits : list Z) : Z := fold_right Z.add 0%Z waits.
End Budget.

(** Endpoints for the examples: the Grok endpoint answers every call with
    status 500 and a body that happens to contain the digits 429; the
    OpenRouter endpoint answers every call with status 429, or with status
    402 and an error message in its body. *)
Module Endpoint.
Import Gateway.

Definition serverError : Grok.HttpResponse :=
  {| Grok.ok := false; Grok.status := 500;
     Grok.text := "upstream failure, trace 14290";
     Grok.json := inl (JsError "Unexpected token") |}.

Definition alwaysServerError (n : nat) : nat * (thrown + Grok.HttpResponse) :=
  (S n, inr serverError).

Definition busy : OpenRouter.HttpResponse :=
  {| OpenRouter.ok := false; OpenRouter.status := 429;
     OpenRouter.json := inl (JsError "Unexpected token");
     OpenRouter.errorMessage := Some "Rate limit exceeded" |}.

Definition alwaysBusy (n : nat) : nat * (thrown + OpenRouter.HttpResponse) :=
  (S n, inr busy).

Definition unpaid : OpenRouter.HttpResponse :=
  {| OpenRouter.ok := false; OpenRouter.status := 402;
     OpenRouter.json := inl (JsError "Unexpected token");
     OpenRouter.errorMessage := Some "Insufficient credits" |}.

Definition alwaysUnpaid (n : nat) : nat * (thrown + OpenRouter.HttpResponse) :=
  (S n, inr unpaid).

(** A Gemini endpoint that is out of quota twice and then refuses the key. *)
Definition badKey : thrown := JsError "API key not valid".

Definition quotaThenBadKey (n : nat)
    : nat * (thrown + Gemini.GenerateContentResponse) :=
  (S n, inl (if n <? 2 then Backoff.quotaError else badKey)).
End Endpoint.

(** Strings made of white space only. *)
Fixpoint allWhiteSpace (s : string) : bool :=
  match s with
  | EmptyString => true
  | String c rest => Js.isWhiteSpace c && allWhiteSpace rest
  end.

(* ===================================================================== *)
(** * Observing the pace and the result of a run *)
(* ===================================================================== *)

Module Pace.
Import Pipeline.

(** A request to the model, or a timer. *)
Inductive beat : Type :=
| call
| pause (ms : Z).

Definition beatOf (ev : event) : option beat :=
  match ev with
  | Delay ms => Some (pause ms)
  | ExtractConcepts _ _ | GenerateNoteBody _ _ _
  | InterlinkNotes _ _ | InterlinkSingleNote _ _ _ => Some call
  | Progress _ => None
  end.

(** The requests and timers of a trace, in order. *)
Definition rhythm : list event -> list beat := Trace.collect beatOf.

(** [n] requests with a timer of [ms] between two of them, and none before
    the first or after the last. *)
Fixpoint spaced (ms : Z) (n : nat) : list beat :=
  match n with
  | 0 => []
  | S n' =>
      match n' with
      | 0 => [call]
      | S _ => call :: pause ms :: spaced ms n'
      end
  end.
End Pace.

(** What the interlink must not touch: the title, the quotes and the
    source of a note. *)
Module Frame.
Definition ofNote (note : Note.t) : string * list string * string :=
  (Note.title note, Note.quotes note, Note.source note).

Definition ofUnlinked (note : UnlinkedNote.t) : string * list string * string :=
  (UnlinkedNote.title note, UnlinkedNote.quotes note, UnlinkedNote.source note).
End Frame.

(** A model that finds no concept in a book, and echoes the notes it is
    asked to interlink. *)
Module Barren.
Definition model : Pipeline.Model :=
  {| Pipeline.World := nat;
     Pipeline.titlesReply := fun _ n => (S n, inr []);
     Pipeline.bodyReply := fun _ title n =>
       (S n, inr (NoteBody.mk None title [] ""));
     Pipeline.notesReply := fun notes n => (S n, inr notes);
     Pipeline.contentReply := fun content _ n => (S n, inr content) |}.
End Barren.

(** Strings without a line terminator, and strings without the character
    [c]. *)
Fixpoint noLineTerminator (s : string) : bool :=
  match s with
  | EmptyString => true
  | String c rest => negb (Js.isLineTerminator c) && noLineTerminator rest
  end.

Fixpoint lacks (c : ascii) (s : string) : bool :=
  match s with
  | EmptyString => true
  | String x rest => negb (Ascii.eqb x c) && lacks c rest
  end.

(** Contents written as plain text with markers in it. *)
Module Prose.

(** Each piece is a text and the title of the marker that follows it;
    [rest] is what follows the last marker. *)
Fixpoint woven (pieces : list (string * string)) (rest : string) : string :=
  match pieces with
  | [] => rest
  | (text, T) :: pieces' =>
      (text ++ Links.marker T ++ woven pieces' rest)%string
  end.


(** Two notes for the examples: the first refers to a title that no note
    has and, in other letters and with blanks around it, to the title of
    the second. *)
Definition holder : Note.t :=
  Note.mk "note_000" "A" "See [1], [[C]] and [[ b ]]." ["a"] "p. 1".

Definition notes : list Note.t :=
  [holder; Note.mk "note_001" "B" "Beta." ["b"] "p. 2"].

Definition session : ProcessingState :=
  mkState Status.completed "" "book" ["A"; "B"]
          [Fixture.noteA; Fixture.noteB] notes None.
End Prose.

(* ===================================================================== *)
(** * components/NoteView.tsx *)
(* ===================================================================== *)

Module NoteView.

(** [s] without the prefix [p], when it starts with [p]. *)
Fixpoint stripPrefix (p s : string) : option string :=
  match p with
  | EmptyString => Some s
  | String a p' =>
      match s with
      | String b s' => if Ascii.eqb a b then stripPrefix p' s' else None
      | EmptyString => None
      end
  end.

(** [.*?] followed by [closing]: the shortest run of characters other than
    line terminators up to the first [closing].  The result is the run and
    what follows [closing]. *)
Fixpoint lazyUpTo (closing s : string) : option (string * string) :=
  match stripPrefix closing s with
  | Some after => Some (EmptyString, after)
  | None =>
      match s with
      | String c rest =>
          if Js.isLineTerminator c then None
          else match lazyUpTo closing rest with
               | Some (inner, after) => Some (String c inner, after)
               | None => None
               end
      | EmptyString => None
      end
  end.

(** One alternative of the pattern, [opening.*?closing], at the start of
    [s]: the text matched and what follows it. *)
Definition delimited (opening closing s : string) : option (string * string) :=
  match stripPrefix opening s with
  | Some rest =>
      match lazyUpTo closing rest with
      | Some (inner, after) =>
          Some ((opening ++ inner ++ closing)%string, after)
      | None => None
      end
  | None => None
  end.

(** The pattern of [split] at the start of [s].  It is one group of three
    alternatives, each a lazy run between two delimiters: a link between
    "[[" and "]]", bold text between "**" and "**", italic text between "*"
    and "*".  The first alternative that matches is taken. *)
Definition matchAt (s : string) : option (string * string) :=
  match delimited "[[" "]]" s with
  | Some m => Some m
  | None =>
      match delimited "**" "**" s with
      | Some m => Some m
      | None => delimited "*" "*" s
      end
  end.

(** [content.split(pattern)] with the pattern in one capturing group: the
    text before the first match, the match, the text up to the next match,
    and so on up to the text after the last match; the texts may be empty.
    [text] is the text read since the last match; every step leaves a
    character behind, and [fuel] bounds the number of steps. *)
Fixpoint splitFrom (fuel : nat) (text s : string) : list string :=
  match fuel with
  | 0 => [(text ++ s)%string]
  | S fuel' =>
      match s with
      | EmptyString => [text]
      | String c rest =>
          match matchAt s with
          | Some (matched, after) =>
              text :: matched :: splitFrom fuel' EmptyString after
          | None => splitFrom fuel' (text ++ String c EmptyString) rest
          end
      end
  end.

Definition split (content : string) : list string :=
  splitFrom (S (String.length content)) EmptyString content.

(** [part.match] on a pattern anchored at both ends, [opening], a group of
    any characters and [closing]; the result is the group.  With the two
    anchors the group is what is left of [part] without [opening] in front
    and [closing] at the end.  [dotAll] is the flag [s]; without it the
    group holds no line terminator. *)
Definition enclosed (opening closing : string) (dotAll : bool)
    (part : string) : option string :=
  match stripPrefix opening part with
  | Some rest =>
      let n := String.length rest - String.length closing in
      let inner := String.substring 0 n rest in
      if (String.length closing <=? String.length rest)
         && String.eqb (String.substring n (String.length closing) rest)
                       closing
         && (dotAll || noLineTerminator inner)
      then Some inner
      else None
  | None => None
  end.

(** What a part is rendered as; a click on a [button] calls [onLinkClick]
    with its title. *)
Inductive element : Type :=
| button (key : nat) (title : string)
| strong (key : nat) (text : string)
| em (key : nat) (text : string)
| span (key : nat) (text : string).

(** The callback of [parts.map]; [None] is [null]. *)
Definition renderPart (part : string) (index : nat) : option element :=
  if String.eqb part "" then None
  else
    match enclosed "[[" "]]" false part with
    | Some title => Some (button index title)
    | None =>
        match enclosed "**" "**" true part with
        | Some text => Some (strong index text)
        | None =>
            match enclosed "*" "*" true part with
            | Some text => Some (em index text)
            | None => Some (span index part)
            end
        end
    end.

Definition parseContent (content : string) : list (option element) :=
  mapi renderPart (split content).

(** The text an element stands for, with its delimiters, and the text of a
    list of elements. *)
Definition sourceOf (e : option element) : string :=
  match e with
  | Some (button _ title) => ("[[" ++ title ++ "]]")%string
  | Some (strong _ text) => ("**" ++ text ++ "**")%string
  | Some (em _ text) => ("*" ++ text ++ "*")%string
  | Some (span _ text) => text
  | None => EmptyString
  end.

Definition sourceText (elements : list (option element)) : string :=
  fold_right String.append EmptyString (map sourceOf elements).

(** The titles of the buttons, in order. *)
Definition linkTitles (elements : list (option element)) : list string :=
  flat_map (fun e => match e with
                     | Some (button _ title) => [title]
                     | _ => []
                     end) elements.
End NoteView.

(* ===================================================================== *)
(** * App.tsx: the notes on display, the controls and the export *)
(* ===================================================================== *)

Module Display.

(** [`note_temp_${index}`] *)
Definition tempId (index : nat) : string :=
  ("note_temp_" ++ Js.toString index)%string.

(** [notesToDisplay]: the final notes of a completed session, otherwise
    the unlinked notes under temporary ids. *)
Definition notesToDisplay (session : ProcessingState) : list Note.t :=
  if Status.eqb (status session) Status.completed
     && (0 <? List.length (finalNotes session))
  then finalNotes session
  else if 0 <? List.length (unlinkedNotes session)
  then mapi (fun note index => withId note (tempId index))
            (unlinkedNotes session)
  else [].

(** [selectedNote]: [notesToDisplay.find(note => note.id === selectedNoteId)
    || null] *)
Definition selectedNote (app : App.t) : option Note.t :=
  find (fun note =>
          match App.selectedNoteId app with
          | Some id => String.eqb (Note.id note) id
          | None => false
          end)
       (notesToDisplay (App.session app)).

(** [setSelectedNoteId], which the list of notes calls with the id of the
    entry that is clicked. *)
Definition setSelectedNoteId (app : App.t) (id : option string) : App.t :=
  App.mk (App.session app) id (App.viewMode app).

End Display.

Module Controls.

(** [setSession(prev => ({...prev, error}))] *)
Definition withError (session : ProcessingState) (error : option string)
    : ProcessingState :=
  mkState (status session) (stage session) (inputText session)
          (titles session) (unlinkedNotes session) (finalNotes session) error.

(** [handleStartProcessing]: a blank input is refused; otherwise the
    pipeline runs on a fresh state that holds the input text only. *)
Definition handleStartProcessing (model : Pipeline.Model) (app : App.t)
    (w : Pipeline.World model) : App.t * Pipeline.World model :=
  if String.eqb (Js.trim (inputText (App.session app))) "" then
    (App.mk (withError (App.session app)
                       (Some "Please paste the book content first."))
            (App.selectedNoteId app) (App.viewMode app), w)
  else
    let initialState :=
      mkState (status App.getInitialState) (stage App.getInitialState)
              (inputText (App.session app)) (titles App.getInitialState)
              (unlinkedNotes App.getInitialState)
              (finalNotes App.getInitialState) (error App.getInitialState) in
    App.runProcess model app initialState w.


(** [handleStartNew]; [confirmed] is the answer to [window.confirm] and
    [stored] the item of the local storage. *)
Definition handleStartNew (confirmed : bool) (stored : option string)
    (app : App.t) : App.t * option string :=
  if confirmed
  then (App.mk App.getInitialState None (App.viewMode app), None)
  else (app, stored).
End Controls.

Module ExportNotes.

Definition nl : string := String "010" EmptyString.

(** The class of the pattern of [sanitizeFilename]: slash, backslash,
    question mark, percent, star, colon, bar, double quote, less and
    greater. *)
Definition forbidden (c : ascii) : bool :=
  let n := nat_of_ascii c in
  (n =? 47) || (n =? 92) || (n =? 63) || (n =? 37) || (n =? 42)
  || (n =? 58) || (n =? 124) || (n =? 34) || (n =? 60) || (n =? 62).

(** [title.replace(pattern, '-')] with the flag [g]. *)
Fixpoint replaceForbidden (s : string) : string :=
  match s with
  | EmptyString => EmptyString
  | String c rest =>
      String (if forbidden c then "-"%char else c) (replaceForbidden rest)
  end.

Definition sanitizeFilename (title : string) : string :=
  Js.substring (replaceForbidden title) 0 200.

(** Names without a character of the class. *)
Fixpoint safe (s : string) : bool :=
  match s with
  | EmptyString => true
  | String c rest => negb (forbidden c) && safe rest
  end.

Definition filename (note : Note.t) : string :=
  (sanitizeFilename (Note.title note) ++ ".md")%string.

Definition quotesMarkdown (quotes : list string) : string :=
  if 0 <? List.length quotes
  then String.concat (nl ++ nl) (map (fun q => ("> " ++ q)%string) quotes)
  else "_No quotes available._".

(** The template literal, trimmed. *)
Definition markdownContent (note : Note.t) : string :=
  Js.trim
    (nl ++ "# " ++ Note.title note ++ nl
     ++ nl ++ Note.content note ++ nl
     ++ nl ++ "---" ++ nl
     ++ nl ++ "## Supporting Quotes" ++ nl
     ++ nl ++ quotesMarkdown (Note.quotes note) ++ nl
     ++ nl ++ "---" ++ nl
     ++ nl ++ "## Source" ++ nl
     ++ nl ++ Note.source note ++ nl
     ++ "        ")%string.

(** The archive after [notes.forEach]: [zip.file(filename, markdownContent)]
    adds a file, or replaces the file of that name. *)
Definition files (notes : list Note.t) : JsMap.t string :=
  fold_left (fun zip note =>
               JsMap.set zip (filename note) (markdownContent note))
            notes [].

(** [handleExport] up to the archive: nothing is built for an empty list of
    final notes. *)
Definition handleExport (session : ProcessingState) : option (JsMap.t string) :=
  let notes := finalNotes session in
  if List.length notes =? 0 then None else Some (files notes).
End ExportNotes.

(* ===================================================================== *)
(** * grokService.ts, from the request to the session *)
(* ===================================================================== *)

Module GrokService.
Import Gateway.

Section Wiring.
Context {W : Type}.

(** The endpoint: how it answers a POST of the given messages, each a role
    and a content, in the state [W] of the world. *)
Variable net : list (string * string) -> W -> W * (thrown + Grok.HttpResponse).

(** The prompts of constants.ts, [JSON.stringify] on the two payloads and
    [JSON.parse] on the three kinds of reply. *)
Variables EXTRACT_CONCEPTS_PROMPT GENERATE_NOTE_PROMPT
          INTERLINK_NOTES_PROMPT : string.
Variable stringifyRequest : string -> string -> string.
Variable stringifyNotes : list Note.t -> string.
Variable parseTitles : string -> string + list string.
Variable parseBody : string -> string + NoteBody.t.
Variable parseNotes : string -> string + list Note.t.

Definition extractConcepts (text : string)
    : Run W (event Grok.HttpResponse) (list string) :=
  let messages :=
    [("system", EXTRACT_CONCEPTS_PROMPT); ("user", text)] in
  Grok.roundTrip (Backoff.send (net messages)) parseTitles.

Definition generateSingleNoteBody (bookContent title : string)
    : Run W (event Grok.HttpResponse) NoteBody.t :=
  let messages :=
    [("system", GENERATE_NOTE_PROMPT);
     ("user", stringifyRequest bookContent title)] in
  Grok.roundTrip (Backoff.send (net messages)) parseBody.

(** The request of [interlinkNotes], between the two renumberings that the
    orchestrator's model of it carries. *)
Definition linkRequest (notesWithTempIds : list Note.t)
    : Run W (event Grok.HttpResponse) (list Note.t) :=
  let messages :=
    [("system", INTERLINK_NOTES_PROMPT);
     ("user", stringifyNotes notesWithTempIds)] in
  Grok.roundTrip (Backoff.send (net messages)) parseNotes.

(** What the orchestrator sees of a phase function: the state it leaves the
    world in and what it returns or throws. *)
Definition seen {T : Type} (call : Run W (event Grok.HttpResponse) T) (w : W)
    : W * (thrown + T) :=
  (worldOf (call w), outcomeOf (call w)).

(** The service as a model of the orchestrator.  grokService.ts has no
    per-note request; none is ever made by its orchestrator. *)
Definition model : Pipeline.Model :=
  {| Pipeline.World := W;
     Pipeline.titlesReply := fun text => seen (extractConcepts text);
     Pipeline.bodyReply := fun bookContent title =>
       seen (generateSingleNoteBody bookContent title);
     Pipeline.notesReply := fun notes => seen (linkRequest notes);
     Pipeline.contentReply := fun _ _ w => (w, inl (JsObject None)) |}.
End Wiring.
End GrokService.

Module Outage.
Import Gateway.

(** An endpoint that answers every call with status 503. *)
Definition unavailable : Grok.HttpResponse :=
  {| Grok.ok := false; Grok.status := 503;
     Grok.text := "Service Unavailable";
     Grok.json := inl (JsError "Unexpected token") |}.

Definition down (messages : list (string * string)) (n : nat)
    : nat * (thrown + Grok.HttpResponse) :=
  (S n, inr unavailable).

(** Decoders that reject every text. *)
Definition reject {T : Type} (text : string) : string + T :=
  inl "Unexpected token".

Definition service : Pipeline.Model :=
  GrokService.model down "extract" "generate" "interlink"
                    (fun text concept => (text ++ concept)%string)
                    (fun _ => "[]") reject reject reject.
End Outage.

(** The notes a trace shows to have been generated: for every request of
    phase 2 that was answered, the title of the request with the body of
    the answer. *)
Module Generated.
Import Pipeline.

Definition noteOf (ev : event) : option UnlinkedNote.t :=
  match ev with
  | GenerateNoteBody _ title (inr body) => Some (withTitle title body)
  | _ => None
  end.

Definition notes : list event -> list UnlinkedNote.t := Trace.collect noteOf.
End Generated.
(* ===================================================================== *)
(** * Properties of the gateway *)
(* ===================================================================== *)


Section RunFacts.
Context {W Ev : Type}.

Lemma run_bind {A B} (m : Run W Ev A) (f : A -> Run W Ev B) (w : W) :
  bind m f w =
  match m w with
  | (t1, w1, inl e) => (t1, w1, inl e)
  | (t1, w1, inr a) =>
      match f a w1 with
      | (t2, w2, r) => (t1 ++ t2, w2, r)
      end
  end.
Proof. reflexivity. Qed.

Lemma run_catch {A} (m : Run W Ev A) (h : thrown -> Run W Ev A) (w : W) :
  catch m h w =
  match m w with
  | (t1, w1, inl e) =>
      match h e w1 with
      | (t2, w2, r) => (t1 ++ t2, w2, r)
      end
  | (t1, w1, inr a) => (t1, w1, inr a)
  end.
Proof. reflexivity. Qed.

Lemma run_attempt {A} (m : Run W Ev A) (w : W) :
  Gateway.attempt m w =
  match m w with
  | (t, w', r) => (t, w', inr r)
  end.
Proof.
  unfold Gateway.attempt. rewrite run_catch, run_bind.
  destruct (m w) as [[t w'] [e | a]]; cbn; now rewrite app_nil_r.
Qed.
End RunFacts.

Section ShapeFacts.
Import Gateway Backoff.
Context {W R A : Type}.
Variable request : Run W (event R) A.
Variable retryable : nat -> thrown -> bool.
Variable final : thrown -> thrown.
Variable base : Z.

(** Every request is one network call and sets no timer. *)
Hypothesis one_call :
  forall w, attempts (traceOf (request w)) = 1 /\ delays (traceOf (request w)) = [].

Local Abbreviation loop := (retryShape request retryable final base).

Lemma delays_app (t1 t2 : list (event R)) :
  delays (t1 ++ t2) = delays t1 ++ delays t2.
Proof.
  induction t1 as [|[o|ms] t1 IH]; cbn; auto. now rewrite IH.
Qed.

Lemma attempts_app (t1 t2 : list (event R)) :
  attempts (t1 ++ t2) = attempts t1 + attempts t2.
Proof.
  induction t1 as [|[o|ms] t1 IH]; cbn; auto.
Qed.

Lemma loop_answer rem attempt lastError w reply :
  outcomeOf (request w) = inr reply ->
  loop (S rem) attempt lastError w =
  (traceOf (request w), worldOf (request w), inr reply).
Proof.
  intros H. cbn [retryShape]. rewrite run_bind, run_attempt.
  destruct (request w) as [[t w'] r]. cbn in *. subst r. cbn.
  now rewrite app_nil_r.
Qed.

Lemma loop_retry rem attempt lastError w e :
  outcomeOf (request w) = inl e -> retryable attempt e = true ->
  loop (S rem) attempt lastError w =
  match loop rem (S attempt) e (worldOf (request w)) with
  | (t, w', r) =>
      (traceOf (request w) ++ Delay (base * Js.pow2 attempt) :: t, w', r)
  end.
Proof.
  intros H Hr. cbn [retryShape]. rewrite run_bind, run_attempt.
  destruct (request w) as [[t0 w0] r0]. cbn in H. subst r0.
  cbn -[retryShape Js.pow2]. rewrite Hr. cbn -[retryShape Js.pow2].
  destruct (retryShape _ _ _ _ _ _ _ _) as [[t w'] r]. reflexivity.
Qed.

Lemma loop_stop rem attempt lastError w e :
  outcomeOf (request w) = inl e -> retryable attempt e = false ->
  loop (S rem) attempt lastError w =
  (traceOf (request w), worldOf (request w), inl (final e)).
Proof.
  intros H Hr. cbn [retryShape]. rewrite run_bind, run_attempt.
  destruct (request w) as [[t0 w0] r0]. cbn in H. subst r0.
  cbn -[retryShape Js.pow2]. rewrite Hr. cbn. now rewrite app_nil_r.
Qed.

Lemma schedule_cons from m :
  schedule base from (S m) = (base * Js.pow2 from)%Z :: schedule base (S from) m.
Proof. reflexivity. Qed.

(** After [m] retried failures the attempt that succeeds is returned. *)
Lemma loop_recovers m : forall rem attempt lastError w reply,
  m < rem ->
  retried request retryable m attempt w = true ->
  outcomeOf (request (worldAfter request m w)) = inr reply ->
  let r := loop rem attempt lastError w in
  outcomeOf r = inr reply
  /\ delays (traceOf r) = schedule base attempt m
  /\ attempts (traceOf r) = S m
  /\ worldOf r = worldAfter request (S m) w.
Proof.
  induction m as [|m IH]; intros rem attempt lastError w reply Hlt Hret Hok.
  - destruct rem as [|rem]; [lia|]. cbn in Hok. cbn zeta.
    rewrite (loop_answer _ _ _ _ _ Hok). cbn.
    destruct (one_call w) as [Ha Hd]. now rewrite Ha, Hd.
  - destruct rem as [|rem]; [lia|]. cbn in Hret, Hok.
    destruct (outcomeOf (request w)) as [e|a] eqn:He; [|discriminate].
    apply andb_prop in Hret as [Hr Hret].
    specialize (IH rem (S attempt) e (worldOf (request w)) reply
                   ltac:(lia) Hret Hok).
    cbn zeta in *. rewrite (loop_retry _ _ _ _ _ He Hr).
    destruct (loop rem (S attempt) e (worldOf (request w))) as [[t w'] r].
    cbn in *. destruct IH as (Ho & Hd & Ha & Hw).
    destruct (one_call w) as [Ha1 Hd1].
    rewrite delays_app, attempts_app, Ha1, Hd1. unfold schedule in *.
    cbn [delays attempts app map seq Nat.add]. rewrite Hd, Ha. auto.
Qed.

(** When every attempt fails, the last error is thrown after [rem]
    attempts; the last failure is either retried into the end of the loop
    or rethrown as it is. *)
Lemma loop_gives_up rem : forall attempt lastError w,
  retried request retryable rem attempt w = true ->
  let r := loop (S rem) attempt lastError w in
  forall e,
  outcomeOf (request (worldAfter request rem w)) = inl e ->
  retryable (attempt + rem) e = true \/ final e = e ->
  outcomeOf r = inl e
  /\ firstn rem (delays (traceOf r)) = schedule base attempt rem
  /\ attempts (traceOf r) = S rem
  /\ worldOf r = worldAfter request (S rem) w.
Proof.
  induction rem as [|rem IH]; intros attempt lastError w Hret r e He Hlast;
    subst r.
  - cbn in He. destruct (one_call w) as [Ha Hd].
    rewrite Nat.add_0_r in Hlast.
    destruct (retryable attempt e) eqn:Hr.
    + rewrite (loop_retry _ _ _ _ _ He Hr). cbn.
      rewrite attempts_app, Ha. cbn. auto.
    + destruct Hlast as [Hlast | Hlast]; [discriminate|].
      rewrite (loop_stop _ _ _ _ _ He Hr). cbn. rewrite Hlast, Ha. auto.
  - cbn in Hret, He.
    destruct (outcomeOf (request w)) as [e0|a] eqn:He0; [|discriminate].
    apply andb_prop in Hret as [Hr Hret].
    rewrite (loop_retry _ _ _ _ _ He0 Hr).
    specialize (IH (S attempt) e0 (worldOf (request w)) Hret e He).
    cbn zeta in IH.
    destruct (loop (S rem) (S attempt) e0 (worldOf (request w)))
      as [[t w'] r'].
    destruct IH as (Ho & Hd & Ha & Hw).
    { now rewrite <- Nat.add_succ_comm in Hlast. }
    cbn in *. destruct (one_call w) as [Ha1 Hd1].
    rewrite delays_app, attempts_app, Ha1, Hd1. unfold schedule in *.
    cbn [delays attempts app map seq Nat.add firstn]. rewrite Hd, Ha. auto.
Qed.
End ShapeFacts.

Section Wrappers.
Import Gateway Backoff.
Context {W : Type}.

Lemma send_run {R} (net : W -> W * (thrown + R)) (w : W) :
  send net w = ([Attempt (snd (net w))], fst (net w), snd (net w)).
Proof. unfold send, perform. now destruct (net w). Qed.

Lemma send_one_call {R} (net : W -> W * (thrown + R)) (w : W) :
  attempts (traceOf (send net w)) = 1 /\ delays (traceOf (send net w)) = [].
Proof. rewrite send_run. auto. Qed.

Lemma grok_request_one_call (net : W -> W * (thrown + Grok.HttpResponse)) w :
  attempts (traceOf (Grok.request (send net) w)) = 1
  /\ delays (traceOf (Grok.request (send net) w)) = [].
Proof.
  unfold Grok.request. rewrite run_bind, send_run.
  destruct (snd (net w)) as [e|resp]; cbn; auto.
  destruct (Grok.ok resp); cbn; auto.
  destruct (Grok.json resp); cbn; auto.
Qed.

Lemma openrouter_request_one_call
    (net : W -> W * (thrown + OpenRouter.HttpResponse)) w :
  attempts (traceOf (OpenRouter.request (send net) w)) = 1
  /\ delays (traceOf (OpenRouter.request (send net) w)) = [].
Proof.
  unfold OpenRouter.request. rewrite run_bind, send_run.
  destruct (snd (net w)) as [e|resp]; cbn; auto.
  destruct (OpenRouter.ok resp); cbn; auto.
  destruct (OpenRouter.json resp); cbn; auto.
Qed.

(** The three loops are instances of the common shape. *)
Lemma gemini_shape {R} (apiCall : Run W (event R) R) base rem attempt e :
  Gemini.retryLoop apiCall base rem attempt e =
  retryShape apiCall (fun _ => Gemini.isRateLimitError) (fun x => x) base
             rem attempt e.
Proof. reflexivity. Qed.

Lemma grok_shape (fetch : Run W (event Grok.HttpResponse) Grok.HttpResponse)
    maxRetries base rem attempt e :
  Grok.retryLoop fetch maxRetries base rem attempt e =
  retryShape (Grok.request fetch)
             (fun a x => Grok.isRateLimitError x && (a <? maxRetries - 1))
             (fun x => x) base rem attempt e.
Proof. reflexivity. Qed.

Lemma openrouter_shape
    (fetch : Run W (event OpenRouter.HttpResponse) OpenRouter.HttpResponse)
    stringify base rem attempt e :
  OpenRouter.retryLoop fetch stringify base rem attempt e =
  retryShape (OpenRouter.request fetch)
             (fun _ => OpenRouter.isRateLimitError)
             (OpenRouter.rethrow stringify) base rem attempt e.
Proof. reflexivity. Qed.

Lemma retried_always {R A} (request : Run W (event R) A) isRL m :
  forall attempt w,
    retried request (fun _ => isRL) m attempt w = rateLimited request isRL m w.
Proof.
  induction m as [|m IH]; intros attempt w; cbn; auto.
  destruct (outcomeOf (request w)); auto. now rewrite IH.
Qed.

Lemma retried_below {R A} (request : Run W (event R) A) isRL bound m :
  forall attempt w,
    attempt + m <= bound ->
    rateLimited request isRL m w = true ->
    retried request (fun a x => isRL x && (a <? bound)) m attempt w = true.
Proof.
  induction m as [|m IH]; intros attempt w Hb H; cbn in *; auto.
  destruct (outcomeOf (request w)); [|discriminate].
  apply andb_prop in H as [H1 H2]. rewrite H1, IH by (auto; lia).
  cbn. rewrite andb_true_r. apply Nat.ltb_lt. lia.
Qed.

Lemma rateLimited_last {R A} (request : Run W (event R) A) isRL m :
  forall w,
    rateLimited request isRL (S m) w = true ->
    rateLimited request isRL m w = true
    /\ exists e, outcomeOf (request (worldAfter request m w)) = inl e
                 /\ isRL e = true.
Proof.
  induction m as [|m IH]; intros w H.
  - cbn in *. destruct (outcomeOf (request w)) as [e|]; [|discriminate].
    apply andb_prop in H as [H _]. eauto.
  - cbn [rateLimited] in H.
    destruct (outcomeOf (request w)) as [e|] eqn:He; [|discriminate].
    apply andb_prop in H as [H1 H2]. apply IH in H2 as [H2 H3].
    cbn [rateLimited worldAfter]. rewrite He, H1, H2. auto.
Qed.
End Wrappers.

(** C4, as amended: with at most [maxRetries] attempts, a request whose
    first [m < maxRetries] attempts fail with a rate-limit error and whose
    next attempt succeeds is answered with that reply after exactly [m]
    delayed retries, the wait after the rate-limited attempt number
    [attempt] being [initialDelay * 2^attempt]; with the defaults 3 and 2000
    that is 2000 ms and 4000 ms for [m = 2].  When all [maxRetries] attempts
    are rate limited the wrapper makes no further attempt and throws the
    last error.  This holds for the wrappers of the three services. *)
Theorem backoff_schedule :
  forall (W : Type) (maxRetries : nat) (initialDelay : Z) (m : nat) (w : W),
    (forall R (net : W -> W * (thrown + R)),
       let request := Backoff.send net in
       let r := Gateway.Gemini.callGeminiWithRetries request maxRetries
                                                     initialDelay w in
       Backoff.rateLimited request Gateway.Gemini.isRateLimitError m w = true ->
       (m < maxRetries ->
        forall reply,
          outcomeOf (request (Backoff.worldAfter request m w)) = inr reply ->
          Backoff.answersAfter r request initialDelay m w reply)
       /\ (0 < m -> m = maxRetries ->
           Backoff.givesUpAfter r request initialDelay m w))
    /\ (forall (net : W -> W * (thrown + Gateway.Grok.HttpResponse)),
       let request := Gateway.Grok.request (Backoff.send net) in
       let r := Gateway.Grok.callGrokWithRetries (Backoff.send net) maxRetries
                                                 initialDelay w in
       Backoff.rateLimited request Gateway.Grok.isRateLimitError m w = true ->
       (m < maxRetries ->
        forall reply,
          outcomeOf (request (Backoff.worldAfter request m w)) = inr reply ->
          Backoff.answersAfter r request initialDelay m w reply)
       /\ (0 < m -> m = maxRetries ->
           Backoff.givesUpAfter r request initialDelay m w))
    /\ (forall (net : W -> W * (thrown + Gateway.OpenRouter.HttpResponse))
               (stringify : thrown -> string),
       let request := Gateway.OpenRouter.request (Backoff.send net) in
       let r := Gateway.OpenRouter.callOpenRouterWithRetries
                  (Backoff.send net) stringify maxRetries initialDelay w in
       Backoff.rateLimited request Gateway.OpenRouter.isRateLimitError m w = true ->
       (m < maxRetries ->
        forall reply,
          outcomeOf (request (Backoff.worldAfter request m w)) = inr reply ->
          Backoff.answersAfter r request initialDelay m w reply)
       /\ (0 < m -> m = maxRetries ->
           Backoff.givesUpAfter r request initialDelay m w)).
Proof.
  intros W maxRetries initialDelay m w. split; [|split].
  - intros R net request r Hrl. subst r.
    unfold Gateway.Gemini.callGeminiWithRetries. rewrite gemini_shape. split.
    + intros Hm reply Hok. unfold Backoff.answersAfter.
      apply loop_recovers; auto; [apply send_one_call|].
      now rewrite retried_always.
    + intros Hpos ->. destruct maxRetries as [|k]; [lia|].
      apply rateLimited_last in Hrl as [Hrl (e & He & Hrl')].
      unfold Backoff.givesUpAfter. rewrite Nat.sub_succ, Nat.sub_0_r.
      edestruct (loop_gives_up request (fun _ => Gateway.Gemini.isRateLimitError)
                   (fun x => x) initialDelay (send_one_call net) k 0
                   (JsObject None) w) as (Ho & Hd & Ha & Hw); eauto.
      { now rewrite retried_always. }
      split; [exists e; split; [exact He | exact Ho]|].
      split; [exact Hd | split; [exact Ha | exact Hw]].
  - intros net request r Hrl. subst r.
    unfold Gateway.Grok.callGrokWithRetries. rewrite grok_shape. split.
    + intros Hm reply Hok. unfold Backoff.answersAfter.
      apply loop_recovers; auto; [apply grok_request_one_call|].
      apply retried_below; auto. lia.
    + intros Hpos ->. destruct maxRetries as [|k]; [lia|].
      apply rateLimited_last in Hrl as [Hrl (e & He & Hrl')].
      unfold Backoff.givesUpAfter. rewrite Nat.sub_succ, Nat.sub_0_r.
      edestruct (loop_gives_up request
                   (fun a x => Gateway.Grok.isRateLimitError x && (a <? k))
                   (fun x => x) initialDelay (grok_request_one_call net) k 0
                   (JsObject None) w) as (Ho & Hd & Ha & Hw); eauto.
      { apply retried_below; auto; lia. }
      split; [exists e; split; [exact He | exact Ho]|].
      split; [exact Hd | split; [exact Ha | exact Hw]].
  - intros net stringify request r Hrl. subst r.
    unfold Gateway.OpenRouter.callOpenRouterWithRetries.
    rewrite openrouter_shape. split.
    + intros Hm reply Hok. unfold Backoff.answersAfter.
      apply loop_recovers; auto; [apply openrouter_request_one_call|].
      now rewrite retried_always.
    + intros Hpos ->. destruct maxRetries as [|k]; [lia|].
      apply rateLimited_last in Hrl as [Hrl (e & He & Hrl')].
      unfold Backoff.givesUpAfter. rewrite Nat.sub_succ, Nat.sub_0_r.
      edestruct (loop_gives_up request
                   (fun _ => Gateway.OpenRouter.isRateLimitError)
                   (Gateway.OpenRouter.rethrow stringify) initialDelay
                   (openrouter_request_one_call net) k 0
                   (JsObject None) w) as (Ho & Hd & Ha & Hw); eauto.
      { now rewrite retried_always. }
      split; [exists e; split; [exact He | exact Ho]|].
      split; [exact Hd | split; [exact Ha | exact Hw]].
Qed.

(** Two rate-limited attempts, then an answer: delays of 2000 ms and
    4000 ms, three attempts, and the answer is returned. *)
Lemma backoff_schedule_witness :
  Backoff.answersAfter
    (Gateway.Gemini.callGeminiWithRetries
       (Backoff.send (Backoff.flakyGemini 2)) 3 2000%Z 0)
    (Backoff.send (Backoff.flakyGemini 2)) 2000%Z 2 0 Backoff.okReply
  /\ Backoff.answersAfter
       (Gateway.Grok.callGrokWithRetries
          (Backoff.send (Backoff.flakyGrok 2)) 3 2000%Z 0)
       (Gateway.Grok.request (Backoff.send (Backoff.flakyGrok 2)))
       2000%Z 2 0 "[]".
Proof.
  destruct (backoff_schedule nat 3 2000%Z 2 0) as (G & K & _). split.
  - apply (G _ (Backoff.flakyGemini 2)); [reflexivity | lia | reflexivity].
  - apply (K (Backoff.flakyGrok 2)); [reflexivity | lia | reflexivity].
Defined.

(** C4 as stated fails: after three rate-limited attempts no fourth attempt
    is made, although it would succeed.  The Gemini wrapper waits 2000,
    4000 and 8000 ms and throws the quota error; the Grok wrapper waits 2000
    and 4000 ms and throws the error of the third attempt. *)
Lemma backoff_three_failures_give_up :
  let gemini := Backoff.send (Backoff.flakyGemini 3) in
  let grok := Gateway.Grok.request (Backoff.send (Backoff.flakyGrok 3)) in
  let r1 := Gateway.Gemini.callGeminiWithRetries gemini 3 2000%Z 0 in
  let r2 := Gateway.Grok.callGrokWithRetries
              (Backoff.send (Backoff.flakyGrok 3)) 3 2000%Z 0 in
  (Backoff.rateLimited gemini Gateway.Gemini.isRateLimitError 3 0 = true
   /\ outcomeOf (gemini (Backoff.worldAfter gemini 3 0)) = inr Backoff.okReply
   /\ outcomeOf r1 <> inr Backoff.okReply
   /\ outcomeOf r1 = inl Backoff.quotaError
   /\ Backoff.delays (traceOf r1) = [2000; 4000; 8000]%Z
   /\ Backoff.attempts (traceOf r1) = 3)
  /\ (Backoff.rateLimited grok Gateway.Grok.isRateLimitError 3 0 = true
      /\ outcomeOf (grok (Backoff.worldAfter grok 3 0)) = inr "[]"
      /\ outcomeOf r2 <> inr "[]"
      /\ outcomeOf r2 = inl (JsError "API request failed: 429 slow down")
      /\ Backoff.delays (traceOf r2) = [2000; 4000]%Z
      /\ Backoff.attempts (traceOf r2) = 3).
Proof.
  cbv zeta. repeat split; try reflexivity; vm_compute; discriminate.
Qed.

(* --------------------------------------------------------------------- *)
(** ** Empty replies *)

Example sanitize_example :
  Gateway.sanitize ("```json" ++ String "010" "[1, 2]" ++ String "010" "```")
  = "[1, 2]".
Proof. reflexivity. Qed.

Section EmptyReplies.
Import Gateway.
Context {T : Type}.
Variable JSON_parse : string -> string + T.

(** The OpenRouter variant tells the three kinds of empty reply apart. *)
Lemma openrouter_empty_reply_classified (apiResponse : OpenRouter.ApiResponse) :
  emptyText (match OpenRouter.firstChoice apiResponse with
             | Some c => OpenRouter.content c
             | None => None
             end) = true ->
  let reason := match OpenRouter.firstChoice apiResponse with
                | Some c => OpenRouter.finish_reason c
                | None => None
                end in
  let result := OpenRouter.safeParseJsonResponse JSON_parse apiResponse in
  (reason = Some "content_filter" ->
   result = inl (JsError
     "The request was blocked by a content filter. Please modify the input text."))
  /\ (reason = Some "length" \/ reason = Some "max_tokens" ->
      result = inl truncated)
  /\ (reason <> Some "content_filter" -> reason <> Some "length" ->
      reason <> Some "max_tokens" ->
      result = inl (JsError
        "OpenRouter API returned an empty or invalid response.")).
Proof.
  intros Hempty reason result. subst result reason.
  unfold OpenRouter.safeParseJsonResponse. rewrite Hempty.
  destruct (OpenRouter.firstChoice apiResponse) as [c|]; cbn.
  2:{ repeat split; intros; try reflexivity; try discriminate.
      destruct H; discriminate. }
  destruct (OpenRouter.finish_reason c) as [s|].
  2:{ repeat split; intros; try reflexivity; try discriminate.
      destruct H; discriminate. }
  destruct (String.eqb_spec s "content_filter") as [->|H1].
  { repeat split; intros; try reflexivity; try congruence.
    destruct H; discriminate. }
  destruct (String.eqb_spec s "length") as [->|H2].
  { repeat split; intros; try reflexivity; try congruence. }
  destruct (String.eqb_spec s "max_tokens") as [->|H3].
  { repeat split; intros; try reflexivity; try congruence. }
  assert (forall X (a b c d : X),
             match s with
             | "content_filter" => a
             | "length" => b
             | "max_tokens" => c
             | _ => d
             end = d) as Hd.
  { intros X a b c0 d.
    repeat (match goal with
            | |- context [match ?x with EmptyString => _ | String _ _ => _ end] =>
                destruct x; try reflexivity
            | |- context [match ?x with Ascii _ _ _ _ _ _ _ _ => _ end] =>
                destruct x
            | |- context [if ?b then _ else _] => destruct b; try reflexivity
            end); congruence. }
  repeat split; intros; try congruence.
  - destruct H; congruence.
  - apply Hd.
Qed.

(** So does the Gemini service. *)
Lemma gemini_empty_reply_classified (response : Gemini.GenerateContentResponse) :
  emptyText (Gemini.text response) = true ->
  let reason := match Gemini.firstCandidate response with
                | Some c => Gemini.finishReason c
                | None => None
                end in
  let result := Gemini.safeParseJsonResponse JSON_parse response in
  (reason = Some "SAFETY" ->
   exists why,
     result = inl (JsError ("The request was blocked by safety settings "
                            ++ why ++ ". Please modify the input text.")))
  /\ (reason = Some "MAX_TOKENS" -> result = inl truncated)
  /\ (reason <> Some "SAFETY" -> reason <> Some "MAX_TOKENS" ->
      result = inl (JsError
        "Gemini API returned an empty or invalid response.")).
Proof.
  intros Hempty reason result. subst result reason.
  unfold Gemini.safeParseJsonResponse. rewrite Hempty.
  destruct (Gemini.firstCandidate response) as [c|]; cbn.
  2:{ repeat split; intros; try reflexivity; discriminate. }
  destruct (Gemini.finishReason c) as [s|].
  2:{ repeat split; intros; try reflexivity; discriminate. }
  destruct (String.eqb_spec s "SAFETY") as [->|H1].
  { repeat split; intros; try congruence. eexists. reflexivity. }
  destruct (String.eqb_spec s "MAX_TOKENS") as [->|H2].
  { repeat split; intros; try reflexivity; congruence. }
  assert (forall X (a b d : X),
             match s with
             | "SAFETY" => a
             | "MAX_TOKENS" => b
             | _ => d
             end = d) as Hd.
  { intros X a b d.
    repeat (match goal with
            | |- context [match ?x with EmptyString => _ | String _ _ => _ end] =>
                destruct x; try reflexivity
            | |- context [match ?x with Ascii _ _ _ _ _ _ _ _ => _ end] =>
                destruct x
            | |- context [if ?b then _ else _] => destruct b; try reflexivity
            end); congruence. }
  repeat split; intros; try congruence. apply Hd.
Qed.
End EmptyReplies.

(** C5 on the Grok service: a reply with empty content is rejected with the
    one message of the JSON decoding failure, whatever its finish reason.
    [callGrokWithRetries] keeps the content of the reply only, so
    [safeParseJsonResponse] never sees the finish reason: two empty replies
    that differ in their finish reason are decoded alike, and when the
    endpoint answers a phase function with such a reply, the phase function
    throws "Invalid response format from API" after one attempt. *)
Theorem grok_empty_reply_unclassified :
  forall (T : Type) (decode : string -> string + T) (reason reason' : string),
    Gateway.Grok.parseReply decode (Backoff.emptyReply reason)
    = Gateway.Grok.parseReply decode (Backoff.emptyReply reason')
    /\ ((exists message, decode "" = inl message) ->
        Gateway.Grok.parseReply decode (Backoff.emptyReply reason)
        = inl (JsError "Invalid response format from API")
        /\ forall (W : Type) (net : W -> W * (thrown + Gateway.Grok.HttpResponse))
                  (w : W),
             snd (net w) = inr (Backoff.emptyHttp reason) ->
             let r := Gateway.Grok.roundTrip (Backoff.send net) decode w in
             outcomeOf r = inl (JsError "Invalid response format from API")
             /\ Backoff.attempts (traceOf r) = 1).
Proof.
  intros T decode reason reason'. split; [reflexivity|].
  intros [message H].
  assert (Gateway.Grok.safeParseJsonResponse decode ""
          = inl (JsError "Invalid response format from API")) as Hparse.
  { unfold Gateway.Grok.safeParseJsonResponse.
    change (Gateway.sanitize "") with "". now rewrite H. }
  split; [exact Hparse|].
  intros W net w Hnet. cbv zeta. unfold Gateway.Grok.roundTrip.
  rewrite run_bind. unfold Gateway.Grok.callGrokWithRetries.
  rewrite grok_shape.
  assert (Gateway.Grok.request (Backoff.send net) w
          = ([Gateway.Attempt (inr (Backoff.emptyHttp reason))],
             fst (net w), inr "")) as Hreq.
  { unfold Gateway.Grok.request. rewrite run_bind, send_run, Hnet.
    reflexivity. }
  rewrite (loop_answer _ _ _ _ 2 0 (JsObject None) w "")
    by now rewrite Hreq.
  rewrite Hreq. cbn [traceOf worldOf fst snd]. rewrite Hparse.
  split; reflexivity.
Qed.

(** A truncated and a filtered empty reply, through the Grok service: the
    same message. *)
Lemma grok_empty_reply_unclassified_witness :
  outcomeOf (Gateway.Grok.roundTrip
               (Backoff.send (Backoff.alwaysEmpty "length"))
               Backoff.parseNonEmpty 0)
  = inl (JsError "Invalid response format from API")
  /\ outcomeOf (Gateway.Grok.roundTrip
                  (Backoff.send (Backoff.alwaysEmpty "content_filter"))
                  Backoff.parseNonEmpty 0)
     = inl (JsError "Invalid response format from API").
Proof.
  split.
  - destruct (grok_empty_reply_unclassified string Backoff.parseNonEmpty
                "length" "length") as [_ H].
    destruct H as [_ H].
    { exists "Unexpected end of JSON input". reflexivity. }
    apply (H nat (Backoff.alwaysEmpty "length") 0 eq_refl).
  - destruct (grok_empty_reply_unclassified string Backoff.parseNonEmpty
                "content_filter" "length") as [_ H].
    destruct H as [_ H].
    { exists "Unexpected end of JSON input". reflexivity. }
    apply (H nat (Backoff.alwaysEmpty "content_filter") 0 eq_refl).
Defined.

(* ===================================================================== *)
(** * Properties of the orchestrator *)
(* ===================================================================== *)

Section MonadLaws.
Context {W Ev : Type}.

Lemma run_ret {A} (a : A) (w : W) : (ret a : Run W Ev A) w = ([], w, inr a).
Proof. reflexivity. Qed.

Lemma run_emit (e : Ev) (w : W) : emit e w = ([e], w, inr tt).
Proof. reflexivity. Qed.

Lemma run_perform {A} (answer : W -> W * (thrown + A)) (log : thrown + A -> Ev) w :
  perform answer log w = ([log (snd (answer w))], fst (answer w), snd (answer w)).
Proof. unfold perform. now destruct (answer w). Qed.

Lemma bind_assoc {A B C} (m : Run W Ev A) (f : A -> Run W Ev B)
    (g : B -> Run W Ev C) (w : W) :
  bind (bind m f) g w = bind m (fun a => bind (f a) g) w.
Proof.
  rewrite !run_bind. destruct (m w) as [[t1 w1] [e|a]]; auto.
  rewrite run_bind. destruct (f a w1) as [[t2 w2] [e|b]]; auto.
  destruct (g b w2) as [[t3 w3] r]. now rewrite app_assoc.
Qed.

Lemma bind_ext {A B} (m : Run W Ev A) (f g : A -> Run W Ev B) (w : W) :
  (forall a w', f a w' = g a w') -> bind m f w = bind m g w.
Proof.
  intros H. rewrite !run_bind. destruct (m w) as [[t1 w1] [e|a]]; auto.
  now rewrite H.
Qed.

Lemma catch_ext {A} (m m' : Run W Ev A) (h : thrown -> Run W Ev A) (w : W) :
  m w = m' w -> catch m h w = catch m' h w.
Proof. intros H. now rewrite !run_catch, H. Qed.
End MonadLaws.

Section Shapes.
Import Pipeline.
Variable model : Model.

Lemma grok_orchestrates st w :
  Grok.processBookWithGrok model st w =
  Service.orchestrate model (Service.grokInterlink model) "Grok"
                      Grok.describe st w.
Proof.
  unfold Grok.processBookWithGrok, Service.orchestrate. apply catch_ext.
  apply bind_ext. intros s1 w1. apply bind_ext. intros s2 w2.
  destruct (interlinkDue s2); auto.
  unfold Service.grokInterlink. now rewrite bind_assoc.
Qed.

Lemma gemini_orchestrates apiErrorMessage st w :
  Gemini.processBookWithGemini model apiErrorMessage st w =
  Service.orchestrate model (Service.geminiInterlink model) "Gemini"
                      (Gemini.describe apiErrorMessage) st w.
Proof.
  unfold Gemini.processBookWithGemini, Service.orchestrate. apply catch_ext.
  apply bind_ext. intros s1 w1. apply bind_ext. intros s2 w2.
  destruct (interlinkDue s2); auto.
  unfold Service.geminiInterlink. rewrite bind_assoc.
  apply bind_ext. intros [] w3. rewrite bind_assoc. apply bind_ext.
  intros l w4. reflexivity.
Qed.

Lemma openRouter_orchestrates st w :
  OpenRouter.processBookWithGemini model st w =
  Service.orchestrate model (Service.openRouterInterlink model) "AI"
                      OpenRouter.describe st w.
Proof. reflexivity. Qed.

(** Every service is the common shape around its own phase 3. *)
Lemma service_shape apiErrorMessage service :
  In service (Service.all model apiErrorMessage) ->
  exists interlink,
    In interlink [Service.grokInterlink model; Service.geminiInterlink model;
                  Service.openRouterInterlink model]
    /\ forall st w,
         Service.run service st w =
         Service.orchestrate model interlink (Service.who service)
                             (Service.describe service) st w.
Proof.
  intros [<-|[<-|[<-|[]]]].
  - exists (Service.grokInterlink model). split; [cbn; auto|].
    apply grok_orchestrates.
  - exists (Service.geminiInterlink model). split; [cbn; auto|].
    apply gemini_orchestrates.
  - exists (Service.openRouterInterlink model). split; [cbn; auto|].
    apply openRouter_orchestrates.
Qed.
End Shapes.

Section TraceFacts.
Import Pipeline Trace.

Lemma collect_app {X} (f : event -> option X) t1 t2 :
  collect f (t1 ++ t2) = collect f t1 ++ collect f t2.
Proof. apply flat_map_app. Qed.

Lemma collect_none {X} (f : event -> option X) t :
  Forall (fun ev => f ev = None) t -> collect f t = [].
Proof.
  induction 1 as [|ev t H _ IH]; cbn; auto. now rewrite H.
Qed.

Lemma collect_cons {X} (f : event -> option X) ev t :
  collect f (ev :: t) =
  match f ev with Some x => x :: collect f t | None => collect f t end.
Proof. cbn. now destruct (f ev). Qed.

Lemma replay_app t1 t2 s :
  App.replay (t1 ++ t2) s = App.replay t2 (App.replay t1 s).
Proof. apply fold_left_app. Qed.

End TraceFacts.

Section PhaseFacts.
Import Pipeline Trace.
Variable model : Model.

Lemma eta_unlinkedNotes st : withUnlinkedNotes st (unlinkedNotes st) = st.
Proof. now destruct st. Qed.

(** Phase 1 is skipped when the session has titles. *)
Lemma extractPhase_skip st w :
  titles st <> [] -> extractPhase model st w = ([], w, inr st).
Proof.
  intros H. unfold extractPhase.
  destruct (titles st); [congruence | reflexivity].
Qed.

Lemma extractPhase_run st w :
  titles st = [] ->
  extractPhase model st w =
  let announce :=
    Progress (stageStatusUpdate "Phase 1/3: Extracting core concepts..."
                                Status.processing) in
  match titlesReply model (inputText st) w with
  | (w1, inl e) =>
      ([announce; ExtractConcepts (inputText st) (inl e)], w1, inl e)
  | (w1, inr newTitles) =>
      ([announce; ExtractConcepts (inputText st) (inr newTitles);
        Progress (titlesUpdate newTitles)], w1, inr (withTitles st newTitles))
  end.
Proof.
  intros H. unfold extractPhase, extractConcepts, onProgress, emit, perform.
  rewrite H. cbn.
  destruct (titlesReply model (inputText st) w) as [w1 [e|ts]]; reflexivity.
Qed.

(** One turn of the phase-2 loop. *)
Lemma generateLoop_step remaining i state notes w :
  generateLoop model (S remaining) i state notes w =
  let title := nth i (titles state) "" in
  let announce := Progress (stageUpdate (generateStage i state title)) in
  match bodyReply model (inputText state) title w with
  | (w1, inl e) =>
      ([announce; GenerateNoteBody (inputText state) title (inl e)], w1, inl e)
  | (w1, inr body) =>
      let notes' := notes ++ [withTitle title body] in
      match generateLoop model remaining (S i)
              (withUnlinkedNotes state notes') notes' w1 with
      | (t, w2, r) =>
          (announce :: GenerateNoteBody (inputText state) title (inr body)
             :: Progress (unlinkedNotesUpdate notes')
             :: (if i <? List.length (titles state) - 1
                 then [Delay 1500] else []) ++ t,
           w2, r)
      end
  end.
Proof.
  cbn [generateLoop]. unfold generateSingleNoteBody, onProgress, delay.
  rewrite run_bind, run_emit, run_bind, run_perform.
  destruct (bodyReply model (inputText state) (nth i (titles state) "") w)
    as [w1 [e|body]]; cbn -[generateLoop Nat.ltb]; [reflexivity|].
  destruct (i <? List.length (titles state) - 1);
    cbn -[generateLoop];
    destruct (generateLoop model remaining (S i) _ _ w1) as [[t w2] r];
    reflexivity.
Qed.

Lemma generatePhase_run st w :
  generatePhase model st w =
  if List.length (unlinkedNotes st) <? List.length (titles st) then
    match generateLoop model
            (List.length (titles st) - List.length (unlinkedNotes st))
            (List.length (unlinkedNotes st)) st (unlinkedNotes st) w with
    | (t, w', inl e) => (t, w', inl e)
    | (t, w', inr r) => (t, w', inr (withUnlinkedNotes (fst r) (snd r)))
    end
  else ([], w, inr st).
Proof.
  unfold generatePhase. rewrite run_bind.
  destruct (List.length (unlinkedNotes st) <? List.length (titles st)).
  - destruct (generateLoop _ _ _ _ _ _) as [[t w'] [e|r]]; cbn; auto.
    now rewrite app_nil_r.
  - cbn. now rewrite eta_unlinkedNotes.
Qed.

Section Orchestrate.
Variable interlink : ProcessingState -> Task model (list Note.t).
Variable who : string.
Variable describe : thrown -> string.

(** A run of the common shape, phase by phase. *)
Lemma orchestrate_run st w :
  Service.orchestrate model interlink who describe st w =
  match extractPhase model st w with
  | (t1, w1, inl e) => (t1 ++ [Service.report describe e], w1, inl (Service.failure who describe e))
  | (t1, w1, inr s1) =>
      match generatePhase model s1 w1 with
      | (t2, w2, inl e) => (t1 ++ t2 ++ [Service.report describe e], w2, inl (Service.failure who describe e))
      | (t2, w2, inr s2) =>
          if interlinkDue s2 then
            match interlink s2 w2 with
            | (t3, w3, inl e) =>
                (t1 ++ t2 ++ t3 ++ [Service.report describe e], w3, inl (Service.failure who describe e))
            | (t3, w3, inr final) =>
                (t1 ++ t2 ++ t3 ++ [Progress (completedUpdate final)],
                 w3, inr final)
            end
          else (t1 ++ t2, w2, inr (finalNotes s2))
      end
  end.
Proof.
  unfold Service.orchestrate. rewrite run_catch, run_bind.
  destruct (extractPhase model st w) as [[t1 w1] [e|s1]]; [reflexivity|].
  rewrite run_bind.
  destruct (generatePhase model s1 w1) as [[t2 w2] [e|s2]].
  { cbn -[String.append]. now rewrite <- app_assoc. }
  destruct (interlinkDue s2).
  - rewrite run_bind.
    destruct (interlink s2 w2) as [[t3 w3] [e|final]];
      cbn -[String.append]; rewrite <- ?app_assoc; reflexivity.
  - cbn. now rewrite app_nil_r.
Qed.
End Orchestrate.
End PhaseFacts.

Section GenerateLoop.
Import Pipeline Trace.
Variable model : Model.

Lemma aligned_prefix st :
  aligned st <->
  exists rest, titles st = map UnlinkedNote.title (unlinkedNotes st) ++ rest.
Proof.
  unfold aligned. generalize (titles st) as T, (unlinkedNotes st) as notes.
  intros T notes. revert T.
  induction notes as [|n notes IH]; intros T; split.
  - intros _. now exists T.
  - intros _ i note H. now destruct i.
  - intros H. pose proof (H 0 n eq_refl) as H0.
    destruct T as [|t T]; [discriminate|]. cbn in H0. injection H0 as ->.
    destruct (proj1 (IH T)) as [rest ->].
    { intros i note Hi. exact (H (S i) note Hi). }
    now exists rest.
  - intros [rest ->] i note H. destruct i as [|i]; cbn in *.
    + now injection H as ->.
    + apply (proj2 (IH _)); eauto.
Qed.

Ltac step w1 e body :=
  rewrite generateLoop_step; cbv zeta;
  match goal with
  | |- context [bodyReply ?m ?x ?t ?w] =>
      destruct (bodyReply m x t w) as [w1 [e|body]]
  end.

Ltac case_pause :=
  match goal with
  | |- context [if ?b then _ else _] => destruct b
  end.

Lemma phase2Event_quiet ev :
  match ev with
  | Progress u =>
      Update.titles u = None /\ Update.finalNotes u = None
      /\ Update.error u = None
  | Delay _ | GenerateNoteBody _ _ _ => True
  | _ => False
  end -> phase2Event ev.
Proof.
  destruct ev; cbn; try tauto; unfold phase2Event; cbn; tauto.
Qed.

(** Phase 2 emits its own events only. *)
Lemma generateLoop_events remaining : forall i state notes w,
  Forall phase2Event (traceOf (generateLoop model remaining i state notes w)).
Proof.
  induction remaining as [|remaining IH]; intros i state notes w.
  - constructor.
  - step w1 e body.
    + repeat constructor.
    + specialize (IH (S i)
        (withUnlinkedNotes state
           (notes ++ [withTitle (nth i (titles state) "") body]))
        (notes ++ [withTitle (nth i (titles state) "") body]) w1).
      destruct (generateLoop _ _ _ _ _ _) as [[t w2] r]. cbn in *.
      repeat (constructor; [now (apply phase2Event_quiet; cbn; auto)|]).
      apply Forall_app. split; auto.
      case_pause; repeat constructor.
Qed.

(** It throws exactly what its last request was rejected with. *)
Lemma generateLoop_stops remaining : forall i state notes w,
  stopsAtRejection (generateLoop model remaining i state notes w).
Proof.
  induction remaining as [|remaining IH]; intros i state notes w.
  - reflexivity.
  - step w1 e body.
    + unfold stopsAtRejection. cbn.
      eexists [_], _. repeat split.
    + specialize (IH (S i)
        (withUnlinkedNotes state
           (notes ++ [withTitle (nth i (titles state) "") body]))
        (notes ++ [withTitle (nth i (titles state) "") body]) w1).
      destruct (generateLoop _ _ _ _ _ _) as [[t w2] r].
      unfold stopsAtRejection in *. cbn [outcomeOf traceOf fst snd] in *.
      set (pause := if i <? _ then [Delay 1500] else []).
      assert (rejections pause = []) as Hp.
      { subst pause. now case_pause. }
      destruct r as [e|a].
      * destruct IH as (before & last & -> & Hl & Hb).
        eexists (_ :: _ :: _ :: pause ++ before), last.
        split; [|split; [exact Hl|]].
        { cbn. now rewrite <- app_assoc. }
        unfold rejections in *. rewrite !collect_cons. cbn.
        now rewrite collect_app, Hp, Hb.
      * unfold rejections in *. rewrite !collect_cons. cbn.
        now rewrite collect_app, Hp, IH.
Qed.

Lemma generateCallsFor_cons state i m :
  generateCallsFor state i (S m) =
  (inputText state, nth i (titles state) "") :: generateCallsFor state (S i) m.
Proof. reflexivity. Qed.

(** The requests of phase 2 are those for the titles [i], [i+1], ... in
    this order, one each; none is missing unless one was rejected. *)
Lemma generateLoop_calls remaining : forall i state notes w,
  let t := traceOf (generateLoop model remaining i state notes w) in
  exists m,
    m <= remaining
    /\ generateCalls t = generateCallsFor state i m
    /\ (rejections t = [] -> m = remaining).
Proof.
  induction remaining as [|remaining IH]; intros i state notes w; cbv zeta.
  - exists 0. cbn. auto.
  - step w1 e body.
    + exists 1. cbn. repeat split; auto; try lia. discriminate.
    + specialize (IH (S i)
        (withUnlinkedNotes state
           (notes ++ [withTitle (nth i (titles state) "") body]))
        (notes ++ [withTitle (nth i (titles state) "") body]) w1).
      destruct (generateLoop _ _ _ _ _ _) as [[t w2] r].
      cbn [traceOf fst snd] in *. destruct IH as (m & Hm & Hc & Hr).
      set (pause := if i <? _ then [Delay 1500] else []).
      assert (generateCalls pause = [] /\ rejections pause = []) as [Hp Hq].
      { subst pause. now case_pause. }
      exists (S m). unfold generateCalls, rejections in *.
      rewrite !collect_cons, !collect_app, Hp, Hq. cbn [generateCallOf rejectionOf app].
      rewrite Hc, generateCallsFor_cons. repeat split; auto; try lia.
Qed.

(** Every checkpoint extends the notes the loop was entered with. *)
Lemma generateLoop_checkpoints remaining : forall i state notes w,
  Forall (fun l => exists added, l = notes ++ added)
         (unlinkedNotesUpdates
            (traceOf (generateLoop model remaining i state notes w))).
Proof.
  induction remaining as [|remaining IH]; intros i state notes w.
  - constructor.
  - step w1 e body.
    + constructor.
    + specialize (IH (S i)
        (withUnlinkedNotes state
           (notes ++ [withTitle (nth i (titles state) "") body]))
        (notes ++ [withTitle (nth i (titles state) "") body]) w1).
      destruct (generateLoop _ _ _ _ _ _) as [[t w2] r].
      cbn [traceOf fst snd] in *.
      set (pause := if i <? _ then [Delay 1500] else []).
      assert (unlinkedNotesUpdates pause = []) as Hp.
      { subst pause. now case_pause. }
      unfold unlinkedNotesUpdates in *.
      rewrite !collect_cons, collect_app, Hp. cbn.
      constructor; [eauto|].
      eapply Forall_impl; [|exact IH]. cbn.
      intros l [added ->]. rewrite <- app_assoc. eauto.
Qed.

(** What the loop returns: the session it was given, with notes added. *)
Lemma generateLoop_result remaining : forall i state notes w s' notes',
  outcomeOf (generateLoop model remaining i state notes w) = inr (s', notes') ->
  withUnlinkedNotes s' notes' = withUnlinkedNotes state notes'
  /\ exists added, notes' = notes ++ added.
Proof.
  induction remaining as [|remaining IH]; intros i state notes w s' notes'.
  - cbn. intros [= <- <-]. split; auto. exists []. now rewrite app_nil_r.
  - step w1 e body; [discriminate|].
    specialize (IH (S i)
        (withUnlinkedNotes state
           (notes ++ [withTitle (nth i (titles state) "") body]))
        (notes ++ [withTitle (nth i (titles state) "") body]) w1 s' notes').
    destruct (generateLoop _ _ _ _ _ _) as [[t w2] r].
    cbn [outcomeOf snd] in *. intros H. destruct (IH H) as [E [added ->]].
    split; [exact E|]. rewrite <- app_assoc. eauto.
Qed.

End GenerateLoop.

Section Interlink.
Import Pipeline Trace.
Variable model : Model.

Lemma mapi_from_setId_ids l : forall k i n,
  nth_error (mapi_from (fun note index => setId note (noteId index)) k l) i
  = Some n ->
  Note.id n = noteId (k + i).
Proof.
  induction l as [|x l IH]; intros k i n H; destruct i; cbn in *;
    try discriminate.
  - injection H as <-. cbn. now rewrite Nat.add_0_r.
  - rewrite <- Nat.add_succ_comm. now apply IH.
Qed.

Lemma mapi_setId_ordinal l :
  ordinalIds (mapi (fun note index => setId note (noteId index)) l).
Proof. intros i n H. now apply (mapi_from_setId_ids l 0 i n). Qed.

Lemma phase3Event_quiet ev :
  match ev with
  | Progress u =>
      Update.titles u = None /\ Update.unlinkedNotes u = None
      /\ Update.finalNotes u = None /\ Update.error u = None
  | Delay _ | InterlinkNotes _ _ | InterlinkSingleNote _ _ _ => True
  | _ => False
  end -> phase3Event ev.
Proof.
  destruct ev; cbn; try tauto; unfold phase3Event; cbn; tauto.
Qed.

Lemma grokInterlink_run st w :
  Service.grokInterlink model st w =
  let sent := mapi (fun note index => withId note (noteId index))
                   (unlinkedNotes st) in
  let announce :=
    Progress (stageUpdate "Phase 3/3: Weaving the knowledge graph...") in
  match notesReply model sent w with
  | (w1, inl e) => ([announce; InterlinkNotes sent (inl e)], w1, inl e)
  | (w1, inr linked) =>
      ([announce; InterlinkNotes sent (inr linked)], w1,
       inr (mapi (fun note index => setId note (noteId index)) linked))
  end.
Proof.
  unfold Service.grokInterlink, Grok.interlinkNotes, onProgress.
  rewrite run_bind, run_emit, run_bind, run_perform. cbv zeta.
  destruct (notesReply model _ w) as [w1 [e|linked]]; reflexivity.
Qed.

Lemma geminiInterlink_run st w :
  Service.geminiInterlink model st w = Service.grokInterlink model st w.
Proof.
  unfold Service.geminiInterlink, Service.grokInterlink,
    Gemini.interlinkNotes, Grok.interlinkNotes, onProgress.
  unfold perform, emit. cbn -[mapi noteId].
  destruct (notesReply model _ w) as [w1 [e|linked]]; reflexivity.
Qed.

Lemma grokInterlink_phase3 : Service.phase3 model (Service.grokInterlink model).
Proof.
  intros st w. rewrite grokInterlink_run. cbv zeta.
  destruct (notesReply model _ w) as [w1 [e|linked]];
    cbn [traceOf outcomeOf fst snd].
  - split; [|split; [|split]].
    + repeat constructor.
    + unfold stopsAtRejection. cbn. eexists [_], _. repeat split.
    + discriminate.
    + discriminate.
  - split; [|split; [|split]].
    + repeat constructor.
    + reflexivity.
    + intros final [= <-]. apply mapi_setId_ordinal.
    + discriminate.
Qed.

Lemma geminiInterlink_phase3 :
  Service.phase3 model (Service.geminiInterlink model).
Proof.
  intros st w. rewrite geminiInterlink_run. apply grokInterlink_phase3.
Qed.

(** One turn of the per-note loop. *)
Lemma interlinkLoop_step remaining i state allNoteTitles final w :
  OpenRouter.interlinkLoop model (S remaining) i state allNoteTitles final w =
  let noteToLink := nth i (unlinkedNotes state) OpenRouter.noNote in
  let otherTitles :=
    filter (fun t => negb (String.eqb t (UnlinkedNote.title noteToLink)))
           allNoteTitles in
  let announce :=
    Progress (stageUpdate (OpenRouter.interlinkStage i state noteToLink)) in
  match contentReply model (UnlinkedNote.content noteToLink) otherTitles w with
  | (w1, inl e) =>
      ([announce;
        InterlinkSingleNote (UnlinkedNote.content noteToLink) otherTitles (inl e)],
       w1, inl e)
  | (w1, inr newContent) =>
      match OpenRouter.interlinkLoop model remaining (S i) state allNoteTitles
              (final ++ [Note.mk (noteId i) (UnlinkedNote.title noteToLink)
                                 newContent (UnlinkedNote.quotes noteToLink)
                                 (UnlinkedNote.source noteToLink)]) w1 with
      | (t, w2, r) =>
          (announce
             :: InterlinkSingleNote (UnlinkedNote.content noteToLink)
                                    otherTitles (inr newContent)
             :: (if i <? List.length (unlinkedNotes state) - 1
                 then [Delay 1500] else []) ++ t,
           w2, r)
      end
  end.
Proof.
  cbn [OpenRouter.interlinkLoop].
  unfold OpenRouter.interlinkSingleNote, onProgress, delay.
  rewrite run_bind, run_emit, run_bind, run_perform. cbv zeta.
  destruct (contentReply model _ _ w) as [w1 [e|newContent]];
    cbn -[OpenRouter.interlinkLoop Nat.ltb]; [reflexivity|].
  destruct (i <? List.length (unlinkedNotes state) - 1);
    cbn -[OpenRouter.interlinkLoop];
    destruct (OpenRouter.interlinkLoop model remaining (S i) _ _ _ w1)
      as [[t w2] r]; reflexivity.
Qed.

Ltac istep w1 e c :=
  rewrite interlinkLoop_step; cbv zeta;
  match goal with
  | |- context [contentReply ?m ?x ?t ?w] =>
      destruct (contentReply m x t w) as [w1 [e|c]]
  end.

Ltac case_pause :=
  match goal with
  | |- context [if ?b then _ else _] => destruct b
  end.

Lemma interlinkLoop_events remaining : forall i state titles final w,
  Forall phase3Event
    (traceOf (OpenRouter.interlinkLoop model remaining i state titles final w)).
Proof.
  induction remaining as [|remaining IH]; intros i state all final w.
  - constructor.
  - istep w1 e c.
    + repeat constructor.
    + match goal with
      | |- context [OpenRouter.interlinkLoop model remaining (S i) state all ?f w1] =>
          specialize (IH (S i) state all f w1);
          destruct (OpenRouter.interlinkLoop model remaining (S i) state all f w1)
            as [[t w2] r]
      end.
      cbn [traceOf fst] in *.
      repeat (constructor; [now (apply phase3Event_quiet; cbn; auto)|]).
      apply Forall_app. split; auto. case_pause; repeat constructor.
Qed.

Lemma interlinkLoop_stops remaining : forall i state titles final w,
  stopsAtRejection (OpenRouter.interlinkLoop model remaining i state titles final w).
Proof.
  induction remaining as [|remaining IH]; intros i state all final w.
  - reflexivity.
  - istep w1 e c.
    + unfold stopsAtRejection. cbn. eexists [_], _. repeat split.
    + match goal with
      | |- context [OpenRouter.interlinkLoop model remaining (S i) state all ?f w1] =>
          specialize (IH (S i) state all f w1);
          destruct (OpenRouter.interlinkLoop model remaining (S i) state all f w1)
            as [[t w2] r]
      end.
      unfold stopsAtRejection in *. cbn [outcomeOf traceOf fst snd] in *.
      set (pause := if i <? _ then [Delay 1500] else []).
      assert (rejections pause = []) as Hp.
      { subst pause. now case_pause. }
      destruct r as [e|a].
      * destruct IH as (before & last & -> & Hl & Hb).
        eexists (_ :: _ :: pause ++ before), last.
        split; [|split; [exact Hl|]].
        { cbn. now rewrite <- app_assoc. }
        unfold rejections in *. rewrite !collect_cons. cbn.
        now rewrite collect_app, Hp, Hb.
      * unfold rejections in *. rewrite !collect_cons. cbn.
        now rewrite collect_app, Hp, IH.
Qed.

Lemma ordinalIds_snoc final n :
  ordinalIds final -> Note.id n = noteId (List.length final) ->
  ordinalIds (final ++ [n]).
Proof.
  intros H Hn i x Hx.
  destruct (Nat.lt_ge_cases i (List.length final)) as [Hlt|Hge].
  - rewrite nth_error_app1 in Hx by auto. now apply H.
  - rewrite nth_error_app2 in Hx by auto.
    destruct (i - List.length final) as [|k] eqn:E; cbn in Hx.
    + injection Hx as <-. rewrite Hn. f_equal. lia.
    + now destruct k.
Qed.

Lemma interlinkLoop_ids remaining : forall i state titles final w result,
  ordinalIds final -> List.length final = i ->
  outcomeOf (OpenRouter.interlinkLoop model remaining i state titles final w)
  = inr result ->
  ordinalIds result.
Proof.
  induction remaining as [|remaining IH];
    intros i state all final w result Hids Hlen.
  - cbn. now intros [= <-].
  - istep w1 e c; [discriminate|].
    match goal with
    | |- context [OpenRouter.interlinkLoop model remaining (S i) state all ?f w1] =>
        specialize (IH (S i) state all f w1 result);
        destruct (OpenRouter.interlinkLoop model remaining (S i) state all f w1)
          as [[t w2] r]
    end.
    cbn [outcomeOf snd] in *. apply IH.
    + apply ordinalIds_snoc; auto. subst i. reflexivity.
    + rewrite length_app. cbn. lia.
Qed.

Lemma interlinkLoop_calls remaining i state titles final w :
  interlinkCalls
    (traceOf (OpenRouter.interlinkLoop model (S remaining) i state titles final w))
  <> [].
Proof.
  istep w1 e c; [discriminate|].
  destruct (OpenRouter.interlinkLoop _ _ _ _ _ _ _) as [[t w2] r].
  discriminate.
Qed.

Lemma openRouterInterlink_phase3 :
  Service.phase3 model (Service.openRouterInterlink model).
Proof.
  intros st w. unfold Service.openRouterInterlink.
  split; [|split; [|split]].
  - apply interlinkLoop_events.
  - apply interlinkLoop_stops.
  - intros final. apply interlinkLoop_ids; auto.
    intros i n H. now destruct i.
  - destruct (unlinkedNotes st) as [|n l] eqn:E; [congruence|].
    intros _. apply interlinkLoop_calls.
Qed.

Lemma service_phase3 interlink :
  In interlink [Service.grokInterlink model; Service.geminiInterlink model;
                Service.openRouterInterlink model] ->
  Service.phase3 model interlink.
Proof.
  intros [<-|[<-|[<-|[]]]];
    auto using grokInterlink_phase3, geminiInterlink_phase3,
               openRouterInterlink_phase3.
Qed.
End Interlink.

(* ===================================================================== *)
(** * The resume contract *)
(* ===================================================================== *)

Section Resume.
Import Pipeline Trace.
Variable model : Model.

Lemma phase2_no_other_rejection t :
  Forall phase2Event t -> generateRejections t = [] -> rejections t = [].
Proof.
  unfold generateRejections, rejections.
  induction 1 as [|ev t H _ IH]; auto. rewrite !collect_cons.
  destruct H as (H1 & H2 & _).
  destruct ev as [u|ms|x [e|o]|x y [e|o]|x [e|o]|x y [e|o]]; cbn in *;
    try discriminate; auto.
Qed.

Lemma phase3_no_generate t :
  Forall phase3Event t ->
  generateCalls t = [] /\ generateRejections t = [] /\ extractCalls t = []
  /\ titlesUpdates t = [] /\ unlinkedNotesUpdates t = []
  /\ finalNotesUpdates t = [] /\ errorUpdates t = [].
Proof.
  intros H. repeat split; apply collect_none;
    (eapply Forall_impl; [|exact H]); cbn;
    intros ev (H1 & H2 & H3 & H4 & H5 & H6); auto.
  destruct ev as [u|ms|x [e|o]|x y [e|o]|x [e|o]|x y [e|o]]; cbn in *;
    try discriminate; auto.
Qed.

Lemma phase2_quiet t :
  Forall phase2Event t ->
  extractCalls t = [] /\ interlinkCalls t = [] /\ titlesUpdates t = []
  /\ finalNotesUpdates t = [] /\ errorUpdates t = [].
Proof.
  intros H. repeat split; apply collect_none;
    (eapply Forall_impl; [|exact H]); cbn;
    intros ev (H1 & H2 & H3 & H4 & H5); auto.
Qed.

(** Phase 2 as a block: what it emits and what it returns. *)
Lemma generatePhase_spec st w :
  let r := generatePhase model st w in
  let k := List.length (unlinkedNotes st) in
  Forall phase2Event (traceOf r)
  /\ stopsAtRejection r
  /\ (exists m, m <= List.length (titles st) - k
                /\ generateCalls (traceOf r) = generateCallsFor st k m
                /\ (rejections (traceOf r) = [] ->
                    m = List.length (titles st) - k))
  /\ Forall (fun l => exists added, l = unlinkedNotes st ++ added)
            (unlinkedNotesUpdates (traceOf r))
  /\ (forall s', outcomeOf r = inr s' ->
        exists added,
          s' = withUnlinkedNotes st (unlinkedNotes st ++ added)).
Proof.
  cbv zeta. rewrite generatePhase_run.
  destruct (Nat.ltb_spec (List.length (unlinkedNotes st))
                         (List.length (titles st))) as [Hlt|Hge].
  - pose proof (generateLoop_events model
                  (List.length (titles st) - List.length (unlinkedNotes st))
                  (List.length (unlinkedNotes st)) st (unlinkedNotes st) w) as E.
    pose proof (generateLoop_stops model
                  (List.length (titles st) - List.length (unlinkedNotes st))
                  (List.length (unlinkedNotes st)) st (unlinkedNotes st) w) as S.
    pose proof (generateLoop_calls model
                  (List.length (titles st) - List.length (unlinkedNotes st))
                  (List.length (unlinkedNotes st)) st (unlinkedNotes st) w) as C.
    pose proof (generateLoop_checkpoints model
                  (List.length (titles st) - List.length (unlinkedNotes st))
                  (List.length (unlinkedNotes st)) st (unlinkedNotes st) w) as K.
    pose proof (generateLoop_result model
                  (List.length (titles st) - List.length (unlinkedNotes st))
                  (List.length (unlinkedNotes st)) st (unlinkedNotes st) w) as R.
    destruct (generateLoop _ _ _ _ _ _) as [[t w'] [e|[s' notes']]];
      cbn [traceOf outcomeOf fst snd] in *.
    + split; [|split; [|split; [|split]]]; auto. discriminate.
    + split; [|split; [|split; [|split]]]; auto. intros s [= <-].
      destruct (R s' notes' eq_refl) as [-> [added ->]]. eauto.
  - cbn [traceOf outcomeOf fst snd]. split; [|split; [|split; [|split]]].
    + constructor.
    + reflexivity.
    + exists 0. repeat split; auto; lia.
    + constructor.
    + intros s [= <-]. exists []. now rewrite app_nil_r, eta_unlinkedNotes.
Qed.
End Resume.

Section Closing.
Import Pipeline Trace.
Variable model : Model.
Variable interlink : ProcessingState -> Task model (list Note.t).
Variable who : string.
Variable describe : thrown -> string.
Hypothesis interlink_phase3 : Service.phase3 model interlink.

Lemma phase3_closing t : Forall phase3Event t -> Forall closing t.
Proof.
  apply Forall_impl. intros ev (H1 & H2 & H3 & H4 & _). unfold closing.
  repeat split; auto.
  destruct ev as [u|ms|x [e|o]|x y [e|o]|x [e|o]|x y [e|o]]; cbn in *;
    try discriminate; auto.
Qed.

Lemma closing_quiet t :
  Forall closing t ->
  extractCalls t = [] /\ generateCalls t = [] /\ generateRejections t = []
  /\ titlesUpdates t = [] /\ unlinkedNotesUpdates t = [].
Proof.
  intros H. repeat split; apply collect_none;
    (eapply Forall_impl; [|exact H]); cbn;
    intros ev (H1 & H2 & H3 & H4 & H5); auto.
Qed.

(** A run whose phase 1 is skipped is phase 2 followed by closing events. *)
Lemma orchestrate_resumed st w :
  titles st <> [] ->
  exists rest,
    traceOf (Service.orchestrate model interlink who describe st w)
    = traceOf (generatePhase model st w) ++ rest
    /\ Forall closing rest.
Proof.
  intros Ht. rewrite orchestrate_run, extractPhase_skip by auto.
  destruct (generatePhase model st w) as [[t2 w2] [e|s2]];
    cbn [traceOf fst app].
  - eexists. split; [reflexivity|]. repeat constructor.
  - destruct (interlinkDue s2).
    + destruct (interlink_phase3 s2 w2) as (E & _).
      destruct (interlink s2 w2) as [[t3 w3] [e|final]];
        cbn [traceOf fst] in *.
      * eexists. split; [reflexivity|]. apply Forall_app. split.
        { now apply phase3_closing. }
        repeat constructor.
      * eexists. split; [reflexivity|]. apply Forall_app. split.
        { now apply phase3_closing. }
        repeat constructor.
    + exists []. now rewrite app_nil_r.
Qed.
End Closing.

(** C1, as amended: a run on a session that has titles and [k] notes, with
    [k] at most the number of titles, makes no phase-1 request and emits no
    titles; its phase-2 requests are those for the titles [k], [k+1], ...,
    one each and in this order, up to the first one that is rejected, and
    for all of them up to the last title when none is rejected; every
    checkpoint of the notes it emits starts with the [k] notes of the
    session, unchanged. *)
Theorem resume_skips_recorded_work :
  forall (model : Pipeline.Model) (apiErrorMessage : string -> option string)
         (service : Service.t model) (st : ProcessingState)
         (w : Pipeline.World model),
    In service (Service.all model apiErrorMessage) ->
    titles st <> [] ->
    List.length (unlinkedNotes st) <= List.length (titles st) ->
    let k := List.length (unlinkedNotes st) in
    let trace := traceOf (Service.run service st w) in
    Trace.extractCalls trace = []
    /\ Trace.titlesUpdates trace = []
    /\ (exists m,
          m <= List.length (titles st) - k
          /\ Trace.generateCalls trace = Trace.generateCallsFor st k m
          /\ (Trace.generateRejections trace = [] ->
              m = List.length (titles st) - k))
    /\ Forall (fun notes => firstn k notes = unlinkedNotes st)
              (Trace.unlinkedNotesUpdates trace).
Proof.
  intros model apiErrorMessage service st w Hin Ht Hk. cbv zeta.
  destruct (service_shape model apiErrorMessage service Hin)
    as (interlink & Hi & ->).
  pose proof (service_phase3 model interlink Hi) as P3.
  destruct (orchestrate_resumed model interlink (Service.who service)
              (Service.describe service) P3 st w Ht) as (rest & -> & Hrest).
  destruct (closing_quiet rest Hrest) as (C1 & C2 & C3 & C4 & C5).
  destruct (generatePhase_spec model st w) as (E & S & (m & Hm & Hc & Hr) & K & _).
  destruct (phase2_quiet _ E) as (Q1 & _ & Q3 & _).
  unfold Trace.extractCalls, Trace.titlesUpdates, Trace.generateCalls,
    Trace.generateRejections, Trace.unlinkedNotesUpdates in *.
  rewrite !collect_app, C1, C2, C3, C4, C5, Q1, Q3, !app_nil_r.
  split; [reflexivity|]. split; [reflexivity|]. split.
  - exists m. repeat split; auto. intros H. apply Hr.
    now apply phase2_no_other_rejection.
  - eapply Forall_impl; [|exact K]. cbn. intros l [added ->].
    rewrite firstn_app, Nat.sub_diag, firstn_all. cbn. now rewrite app_nil_r.
Qed.

(** Resuming the session interrupted after its first note: the two missing
    notes are requested, in order, and nothing else. *)
Lemma resume_skips_recorded_work_witness :
  let trace :=
    traceOf (Pipeline.Grok.processBookWithGrok Fixture.reliable
               Fixture.interrupted 0) in
  Trace.extractCalls trace = []
  /\ Trace.generateCalls trace = [("book", "B"); ("book", "C")].
Proof.
  destruct (resume_skips_recorded_work Fixture.reliable (fun _ => None)
              (Service.grok Fixture.reliable) Fixture.interrupted 0)
    as (H1 & _ & (m & Hm & Hc & Hr) & _).
  - left. reflexivity.
  - discriminate.
  - cbn. lia.
  - split; [exact H1|].
    etransitivity; [exact Hc|]. rewrite (Hr eq_refl). reflexivity.
Defined.

(** C1 as stated fails: when the request for the second title is rejected,
    the third title is never requested. *)
Lemma resume_stops_at_rejection :
  let st := Fixture.interrupted in
  let trace :=
    traceOf (Pipeline.Grok.processBookWithGrok
               (Fixture.failingAt 0 (JsError "quota")) st 0) in
  titles st <> []
  /\ List.length (unlinkedNotes st) <= List.length (titles st)
  /\ Trace.generateCalls trace = [("book", "B")]
  /\ Trace.generateCalls trace
     <> Trace.generateCallsFor st (List.length (unlinkedNotes st))
          (List.length (titles st) - List.length (unlinkedNotes st)).
Proof.
  cbv zeta. split; [discriminate|]. split; [cbn; lia|].
  split; [reflexivity|]. vm_compute. discriminate.
Qed.

(* ===================================================================== *)
(** * Phase 3 *)
(* ===================================================================== *)

Section Complete.
Import Pipeline Trace.
Variable model : Model.
Variable interlink : ProcessingState -> Task model (list Note.t).
Variable who : string.
Variable describe : thrown -> string.
Hypothesis interlink_phase3 : Service.phase3 model interlink.

(** On a session whose notes are all generated, phases 1 and 2 do nothing. *)
Lemma orchestrate_complete st w :
  titles st <> [] ->
  List.length (titles st) <= List.length (unlinkedNotes st) ->
  Service.orchestrate model interlink who describe st w =
  if interlinkDue st then
    match interlink st w with
    | (t3, w3, inl e) =>
        (t3 ++ [Service.report describe e], w3, inl (Service.failure who describe e))
    | (t3, w3, inr final) =>
        (t3 ++ [Progress (completedUpdate final)], w3, inr final)
    end
  else ([], w, inr (finalNotes st)).
Proof.
  intros Ht Hk. rewrite orchestrate_run, extractPhase_skip by auto.
  rewrite generatePhase_run.
  destruct (Nat.ltb_spec (List.length (unlinkedNotes st))
                         (List.length (titles st))) as [Hlt|Hge]; [lia|].
  destruct (interlinkDue st); [|reflexivity].
  destruct (interlink st w) as [[t3 w3] [e|final]]; reflexivity.
Qed.
End Complete.

Lemma interlinkDue_false st :
  Pipeline.interlinkDue st = false <->
  status st = Status.completed /\ finalNotes st <> [].
Proof.
  unfold Pipeline.interlinkDue. rewrite orb_false_iff, negb_false_iff.
  split; intros [H1 H2]; split.
  - now destruct (status st).
  - destruct (finalNotes st); [discriminate | congruence].
  - now rewrite H1.
  - destruct (finalNotes st); [congruence | reflexivity].
Qed.

(** C2, as amended: on a session in which every title has its note, a run
    makes an interlink request if and only if the status is not
    ['completed'] or [finalNotes] is empty; when the status is
    ['completed'] and [finalNotes] is not empty the run makes no request,
    emits no progress update and returns [finalNotes] as it is. *)
Theorem interlink_when_due :
  forall (model : Pipeline.Model) (apiErrorMessage : string -> option string)
         (service : Service.t model) (st : ProcessingState)
         (w : Pipeline.World model),
    In service (Service.all model apiErrorMessage) ->
    titles st <> [] ->
    List.length (titles st) <= List.length (unlinkedNotes st) ->
    let r := Service.run service st w in
    (Trace.interlinkCalls (traceOf r) <> [] <->
     status st <> Status.completed \/ finalNotes st = [])
    /\ (status st = Status.completed -> finalNotes st <> [] ->
        traceOf r = [] /\ worldOf r = w /\ outcomeOf r = inr (finalNotes st)).
Proof.
  intros model apiErrorMessage service st w Hin Ht Hk. cbv zeta.
  destruct (service_shape model apiErrorMessage service Hin)
    as (interlink & Hi & ->).
  pose proof (service_phase3 model interlink Hi) as P3.
  rewrite orchestrate_complete by auto.
  destruct (Pipeline.interlinkDue st) eqn:Hdue.
  - assert (status st <> Status.completed \/ finalNotes st = []) as Hor.
    { unfold Pipeline.interlinkDue in Hdue. apply orb_prop in Hdue as [H|H].
      - left. intros E. rewrite E in H. discriminate.
      - right. now destruct (finalNotes st). }
    split.
    + split; [auto|]. intros _.
      destruct (P3 st w) as (_ & _ & _ & Hcalls).
      assert (unlinkedNotes st <> []) as Hne.
      { destruct (unlinkedNotes st); [|discriminate].
        destruct (titles st); [congruence | cbn in Hk; lia]. }
      specialize (Hcalls Hne).
      destruct (interlink st w) as [[t3 w3] [e|final]];
        cbn [traceOf fst] in *; unfold Trace.interlinkCalls in *;
        rewrite collect_app; intros E; apply app_eq_nil in E as [E _]; auto.
    + intros H1 H2. destruct Hor; congruence.
  - apply interlinkDue_false in Hdue as [H1 H2]. split.
    + split; [intros H; now elim H|]. intros [H|H]; congruence.
    + auto.
Qed.

(** A session with its notes generated and no final notes: the interlink
    request is made. *)
Lemma interlink_when_due_witness :
  Trace.interlinkCalls
    (traceOf (Pipeline.Grok.processBookWithGrok Fixture.reliable
                Fixture.generated 0)) <> []
  /\ traceOf (Pipeline.Grok.processBookWithGrok Fixture.reliable
                Fixture.finished 0) = [].
Proof.
  split.
  - apply (interlink_when_due Fixture.reliable (fun _ => None)
             (Service.grok Fixture.reliable) Fixture.generated 0).
    + left. reflexivity.
    + discriminate.
    + cbn. lia.
    + left. discriminate.
  - apply (interlink_when_due Fixture.reliable (fun _ => None)
             (Service.grok Fixture.reliable) Fixture.finished 0).
    + left. reflexivity.
    + discriminate.
    + cbn. lia.
    + reflexivity.
    + discriminate.
Defined.

(** C2 as stated fails: a session whose notes are all generated, whose
    status is ['error'] and which still holds final notes is interlinked
    again, and its [finalNotes] are replaced. *)
Lemma interlink_again_unless_completed :
  let st := Fixture.stale in
  let trace :=
    traceOf (Pipeline.Grok.processBookWithGrok Fixture.reliable st 0) in
  List.length (titles st) <= List.length (unlinkedNotes st)
  /\ finalNotes st <> []
  /\ Trace.interlinkCalls trace <> []
  /\ finalNotes (App.replay trace st) <> finalNotes st.
Proof.
  cbv zeta. split; [cbn; lia|]. split; [discriminate|].
  split; vm_compute; discriminate.
Qed.

(* --------------------------------------------------------------------- *)
(** ** Ordinal ids *)

Lemma readDecimal_zero s : Js.readDecimal (String "0" s) = Js.readDecimal s.
Proof.
  unfold Js.readDecimal. cbn. destruct (NilEmpty.uint_of_string s); reflexivity.
Qed.

Lemma readDecimal_toString n : Js.readDecimal (Js.toString n) = Some n.
Proof.
  unfold Js.readDecimal, Js.toString. rewrite NilEmpty.usu. cbn.
  now rewrite Unsigned.of_to.
Qed.

Lemma readDecimal_padStart s k :
  Js.readDecimal (Js.padStart s k "0") = Js.readDecimal s.
Proof.
  unfold Js.padStart. induction (k - String.length s) as [|m IH]; cbn; auto.
  now rewrite readDecimal_zero.
Qed.

Lemma append_inj_l p : forall a b, (p ++ a = p ++ b)%string -> a = b.
Proof.
  induction p as [|c p IH]; cbn; intros a b H; auto.
  injection H as H. auto.
Qed.

Example noteId_examples :
  noteId 0 = "note_000" /\ noteId 42 = "note_042" /\ noteId 1234 = "note_1234".
Proof. repeat split. Qed.

(** Distinct indices have distinct ids. *)
Lemma noteId_inj i j : noteId i = noteId j -> i = j.
Proof.
  unfold noteId. intros H. apply append_inj_l in H.
  apply (f_equal Js.readDecimal) in H.
  rewrite !readDecimal_padStart, !readDecimal_toString in H. congruence.
Qed.

Lemma ordinalIds_NoDup notes :
  Trace.ordinalIds notes -> NoDup (map Note.id notes).
Proof.
  intros H. apply NoDup_nth_error. intros i j Hi Hij.
  rewrite length_map in Hi.
  destruct (nth_error notes i) as [a|] eqn:Ea.
  2:{ apply nth_error_None in Ea. lia. }
  rewrite !nth_error_map, Ea in Hij.
  destruct (nth_error notes j) as [b|] eqn:Eb; [|discriminate].
  cbn in Hij. injection Hij as Hij.
  rewrite (H i a Ea), (H j b Eb) in Hij. now apply noteId_inj.
Qed.

Section Phase1.
Import Pipeline Trace.
Variable model : Model.

(** Phase 1 as a block. *)
Lemma extractPhase_spec st w :
  let r := extractPhase model st w in
  Forall phase1Event (traceOf r)
  /\ stopsAtRejection r
  /\ (forall s1, outcomeOf r = inr s1 ->
        status s1 = status st /\ finalNotes s1 = finalNotes st
        /\ unlinkedNotes s1 = unlinkedNotes st
        /\ inputText s1 = inputText st
        /\ (titles st <> [] -> s1 = st)).
Proof.
  cbv zeta. destruct (titles st) as [|t0 ts] eqn:Ht.
  - rewrite extractPhase_run by auto. cbv zeta.
    destruct (titlesReply model (inputText st) w) as [w1 [e|newTitles]];
      cbn [traceOf outcomeOf fst snd].
    + split; [|split].
      * repeat constructor.
      * unfold stopsAtRejection. cbn. eexists [_], _. repeat split.
      * discriminate.
    + split; [|split].
      * repeat constructor.
      * reflexivity.
      * intros s1 [= <-]. cbn. repeat split; auto. congruence.
  - rewrite extractPhase_skip by congruence. cbn [traceOf outcomeOf fst snd].
    split; [|split].
    + constructor.
    + reflexivity.
    + intros s1 [= <-]. repeat split; auto.
Qed.

Lemma phase1_quiet t :
  Forall phase1Event t ->
  generateCalls t = [] /\ generateRejections t = [] /\ interlinkCalls t = []
  /\ unlinkedNotesUpdates t = [] /\ finalNotesUpdates t = []
  /\ errorUpdates t = [].
Proof.
  intros H. repeat split; apply collect_none;
    (eapply Forall_impl; [|exact H]); cbn;
    intros ev (H1 & H2 & H3 & H4 & H5 & H6); auto.
Qed.

(** Phases 1 and 2 leave the status and the final notes of the session as
    they are, so the test for phase 3 is a test on the initial session. *)
Lemma interlinkDue_preserved st w s1 w1 s2 :
  outcomeOf (extractPhase model st w) = inr s1 ->
  outcomeOf (generatePhase model s1 w1) = inr s2 ->
  interlinkDue s2 = interlinkDue st.
Proof.
  intros H1 H2.
  destruct (extractPhase_spec st w) as (_ & _ & E).
  destruct (E s1 H1) as (E1 & E2 & _).
  destruct (generatePhase_spec model s1 w1) as (_ & _ & _ & _ & G).
  destruct (G s2 H2) as [added ->].
  unfold interlinkDue. cbn. now rewrite E1, E2.
Qed.
End Phase1.

(** C3: the final notes a run produces carry the ordinal ids "note_000",
    "note_001", ... of their positions, whatever ids the model replied
    with, and these ids are pairwise distinct.  This holds for the notes of
    every [finalNotes] update a run emits and for the notes a run returns
    after its phase 3. *)
Theorem final_note_ids :
  forall (model : Pipeline.Model) (apiErrorMessage : string -> option string)
         (service : Service.t model) (st : ProcessingState)
         (w : Pipeline.World model),
    In service (Service.all model apiErrorMessage) ->
    let r := Service.run service st w in
    Forall (fun notes => Trace.ordinalIds notes /\ NoDup (map Note.id notes))
           (Trace.finalNotesUpdates (traceOf r))
    /\ (forall notes,
          outcomeOf r = inr notes -> Pipeline.interlinkDue st = true ->
          Trace.finalNotesUpdates (traceOf r) = [notes]
          /\ (forall i note, nth_error notes i = Some note ->
                             Note.id note = noteId i)
          /\ NoDup (map Note.id notes)).
Proof.
  intros model apiErrorMessage service st w Hin. cbv zeta.
  destruct (service_shape model apiErrorMessage service Hin)
    as (interlink & Hi & ->).
  pose proof (service_phase3 model interlink Hi) as P3.
  rewrite orchestrate_run.
  destruct (extractPhase_spec model st w) as (E1 & _).
  pose proof (interlinkDue_preserved model st w) as Hdue.
  destruct (Pipeline.extractPhase model st w) as [[t1 w1] [e|s1]];
    cbn [traceOf outcomeOf fst snd] in *.
  { destruct (phase1_quiet t1 E1) as (_ & _ & _ & _ & F & _).
    unfold Trace.finalNotesUpdates in *. rewrite collect_app, F. cbn.
    split; [constructor | discriminate]. }
  destruct (generatePhase_spec model s1 w1) as (E2 & _).
  specialize (Hdue s1 w1).
  destruct (Pipeline.generatePhase model s1 w1) as [[t2 w2] [e|s2]];
    cbn [traceOf outcomeOf fst snd] in *.
  { destruct (phase1_quiet t1 E1) as (_ & _ & _ & _ & F1 & _).
    destruct (phase2_quiet t2 E2) as (_ & _ & _ & F2 & _).
    unfold Trace.finalNotesUpdates in *. rewrite !collect_app, F1, F2. cbn.
    split; [constructor | discriminate]. }
  specialize (Hdue s2 eq_refl eq_refl). rewrite Hdue.
  destruct (phase1_quiet t1 E1) as (_ & _ & _ & _ & F1 & _).
  destruct (phase2_quiet t2 E2) as (_ & _ & _ & F2 & _).
  destruct (Pipeline.interlinkDue st).
  - destruct (P3 s2 w2) as (E3 & _ & Hids & _).
    destruct (interlink s2 w2) as [[t3 w3] [e|final]];
      cbn [traceOf outcomeOf fst snd] in *;
      destruct (phase3_no_generate t3 E3) as (_ & _ & _ & _ & _ & F3 & _);
      unfold Trace.finalNotesUpdates in *;
      rewrite !collect_app, F1, F2, F3; cbn.
    + split; [constructor | discriminate].
    + pose proof (Hids final eq_refl) as Hid.
      pose proof (ordinalIds_NoDup final Hid) as Hnd.
      split; [repeat constructor; auto|].
      intros notes [= <-] _. auto.
  - cbn [traceOf outcomeOf fst snd].
    unfold Trace.finalNotesUpdates in *. rewrite !collect_app, F1, F2. cbn.
    split; [constructor | discriminate].
Qed.

(** The model replies with the same id for every note; the final notes
    carry the ordinal ids. *)
Lemma final_note_ids_witness :
  exists notes,
    outcomeOf (Pipeline.Grok.processBookWithGrok Fixture.reliable
                 (Fixture.fresh "book") 0) = inr notes
    /\ map Note.id notes = ["note_000"; "note_001"]
    /\ NoDup (map Note.id notes).
Proof.
  eexists. split; [reflexivity|]. split; [reflexivity|].
  destruct (final_note_ids Fixture.reliable (fun _ => None)
              (Service.grok Fixture.reliable) (Fixture.fresh "book") 0
              (or_introl eq_refl)) as [_ H].
  destruct (H _ eq_refl eq_refl) as (_ & _ & Hnd). exact Hnd.
Defined.

(* ===================================================================== *)
(** * Failures *)
(* ===================================================================== *)

Section Failures.
Import Pipeline Trace.

Lemma last_cons {A} (l : list A) : forall x d, last (x :: l) d = last l x.
Proof.
  induction l as [|y l IH]; intros x d; [reflexivity|].
  change (last (x :: y :: l) d) with (last (y :: l) d).
  now rewrite !IH.
Qed.

Lemma replay_unlinkedNotes t : forall s,
  unlinkedNotes (App.replay t s)
  = last (unlinkedNotesUpdates t) (unlinkedNotes s).
Proof.
  unfold unlinkedNotesUpdates.
  induction t as [|ev t IH]; intros s; [reflexivity|].
  cbn [App.replay fold_left]. fold (App.replay t (App.handleProgress s ev)).
  rewrite IH, collect_cons. destruct ev as [u| | | | |]; cbn; auto.
  destruct (Update.unlinkedNotes u) as [l|]; cbn [orElse]; auto.
  now rewrite last_cons.
Qed.

Lemma last_Forall {A} (P : A -> Prop) l d :
  Forall P l -> P d -> P (last l d).
Proof.
  intros H. revert d. induction H as [|x l Hx Hl IH]; intros d Hd;
    [exact Hd|].
  rewrite last_cons. auto.
Qed.

Lemma describe_nonempty (model : Model) apiErrorMessage
    (service : Service.t model) e :
  In service (Service.all model apiErrorMessage) ->
  (forall m, messageOf e = Some m -> m <> "") ->
  Service.describe service e <> "".
Proof.
  intros [<-|[<-|[<-|[]]]] H; cbn.
  - unfold Grok.describe. destruct (messageOf e); [auto | discriminate].
  - unfold Gemini.describe. destruct (messageOf e) as [m|]; [|discriminate].
    destruct (apiErrorMessage m); [discriminate | auto].
  - destruct e; cbn in *; try discriminate. auto.
Qed.
End Failures.

Section Summary.
Import Pipeline Trace.
Variable model : Model.
Variable interlink : ProcessingState -> Task model (list Note.t).
Variable who : string.
Variable describe : thrown -> string.
Hypothesis interlink_phase3 : Service.phase3 model interlink.

Lemma rejections_app t1 t2 : rejections (t1 ++ t2) = rejections t1 ++ rejections t2.
Proof. apply collect_app. Qed.

Lemma stops_thrown {A} t (w : World model) e :
  stopsAtRejection (t, w, @inl thrown A e) ->
  exists before call,
    t = before ++ [call] /\ rejectionOf call = Some e /\ rejections before = [].
Proof. intros H. exact H. Qed.

Lemma stops_returned {A} t (w : World model) (a : A) :
  stopsAtRejection (t, w, @inr thrown A a) -> rejections t = [].
Proof. intros H. exact H. Qed.

(** A run, summed up: the events of the three phases, then either the
    update that completes the session (or nothing, when phase 3 is not
    due), or the report of the error the last request was rejected with. *)
Lemma orchestrate_summary st w :
  exists t1 t2 t3 closing w' outcome,
    Service.orchestrate model interlink who describe st w
    = ((t1 ++ t2 ++ t3) ++ closing, w', outcome)
    /\ Forall phase1Event t1 /\ Forall phase2Event t2 /\ Forall phase3Event t3
    /\ Forall (fun l => exists added, l = unlinkedNotes st ++ added)
              (unlinkedNotesUpdates t2)
    /\ ((rejections (t1 ++ t2 ++ t3) = []
         /\ exists notes,
              outcome = inr notes
              /\ (if interlinkDue st
                  then closing = [Progress (completedUpdate notes)]
                  else closing = [] /\ notes = finalNotes st))
        \/ (exists before call e,
              t1 ++ t2 ++ t3 = before ++ [call]
              /\ rejectionOf call = Some e
              /\ rejections before = []
              /\ closing = [Service.report describe e]
              /\ outcome = inl (Service.failure who describe e))).
Proof.
  rewrite orchestrate_run.
  destruct (extractPhase_spec model st w) as (E1 & S1 & R1).
  pose proof (interlinkDue_preserved model st w) as Hdue.
  destruct (extractPhase model st w) as [[t1 w1] [e|s1]];
    cbn [traceOf outcomeOf fst snd] in *.
  { exists t1, [], [], [Service.report describe e], w1, (inl (Service.failure who describe e)).
    rewrite !app_nil_r. split; [reflexivity|].
    repeat (split; [now auto|]). right.
    apply stops_thrown in S1 as (before & call & -> & Hc & Hb).
    exists before, call, e. auto. }
  destruct (R1 s1 eq_refl) as (_ & Hf1 & Hu1 & _).
  destruct (generatePhase_spec model s1 w1) as (E2 & S2 & _ & K2 & R2).
  rewrite Hu1 in K2. specialize (Hdue s1 w1).
  apply stops_returned in S1.
  destruct (generatePhase model s1 w1) as [[t2 w2] [e|s2]];
    cbn [traceOf outcomeOf fst snd] in *.
  { exists t1, t2, [], [Service.report describe e], w2, (inl (Service.failure who describe e)).
    rewrite !app_nil_r, <- app_assoc. split; [reflexivity|].
    repeat (split; [now auto|]). right.
    apply stops_thrown in S2 as (before & call & -> & Hc & Hb).
    exists (t1 ++ before), call, e. rewrite app_assoc, rejections_app, S1, Hb.
    auto. }
  specialize (Hdue s2 eq_refl eq_refl). rewrite Hdue.
  destruct (R2 s2 eq_refl) as [added ->].
  apply stops_returned in S2.
  destruct (interlinkDue st).
  - destruct (interlink_phase3
                (withUnlinkedNotes s1 (unlinkedNotes s1 ++ added)) w2)
      as (E3 & S3 & _).
    destruct (interlink _ w2) as [[t3 w3] [e|final]];
      cbn [traceOf outcomeOf fst snd] in *.
    + exists t1, t2, t3, [Service.report describe e], w3,
        (inl (Service.failure who describe e)).
      rewrite <- !app_assoc. split; [reflexivity|].
      repeat (split; [now auto|]). right.
      apply stops_thrown in S3 as (before & call & -> & Hc & Hb).
      exists (t1 ++ t2 ++ before), call, e.
      rewrite !rejections_app, S1, S2, Hb, <- !app_assoc. auto.
    + exists t1, t2, t3, [Progress (completedUpdate final)], w3, (inr final).
      rewrite <- !app_assoc. split; [reflexivity|].
      repeat (split; [now auto|]). left.
      apply stops_returned in S3.
      rewrite !rejections_app, S1, S2, S3. split; [reflexivity|].
      exists final. auto.
  - exists t1, t2, [], [], w2,
      (inr (finalNotes (withUnlinkedNotes s1 (unlinkedNotes s1 ++ added)))).
    rewrite !app_nil_r. split; [reflexivity|].
    repeat (split; [now auto|]). left.
    rewrite !rejections_app, S1, S2. split; [reflexivity|].
    eexists. split; [reflexivity|]. split; [reflexivity|]. exact Hf1.
Qed.
End Summary.

Section Quiet.
Import Pipeline Trace.

Lemma phases_quiet t1 t2 t3 :
  Forall phase1Event t1 -> Forall phase2Event t2 -> Forall phase3Event t3 ->
  errorUpdates (t1 ++ t2 ++ t3) = []
  /\ finalNotesUpdates (t1 ++ t2 ++ t3) = []
  /\ unlinkedNotesUpdates (t1 ++ t2 ++ t3) = unlinkedNotesUpdates t2.
Proof.
  intros E1 E2 E3.
  destruct (phase1_quiet t1 E1) as (_ & _ & _ & U1 & F1 & R1).
  destruct (phase2_quiet t2 E2) as (_ & _ & _ & F2 & R2).
  destruct (phase3_no_generate t3 E3) as (_ & _ & _ & _ & U3 & F3 & R3).
  unfold errorUpdates, finalNotesUpdates, unlinkedNotesUpdates in *.
  rewrite !collect_app, U1, F1, R1, F2, R2, U3, F3, R3, !app_nil_r.
  auto.
Qed.

Lemma replay_error t : forall s,
  errorUpdates t = [] -> error (App.replay t s) = error s.
Proof.
  unfold errorUpdates.
  induction t as [|ev t IH]; intros s H; [reflexivity|].
  rewrite collect_cons in H. cbn [App.replay fold_left].
  fold (App.replay t (App.handleProgress s ev)).
  destruct ev as [u| | | | |]; cbn in *; try (now rewrite IH).
  destruct (Update.error u) eqn:E; [discriminate|]. rewrite IH by auto.
  cbn. now rewrite E.
Qed.
End Quiet.

(** C6, as amended: a run throws if and only if one of its requests is
    rejected.  Then the rejected request is its last request, the run emits
    one progress update with status ['error'] and throws, in this order;
    the error string of the update is the message of the thrown value when
    it has one (for the Gemini service, "API Error: " and the inner message
    of an API error) and a fixed text otherwise, so it is not empty when
    that message is not empty; and the update leaves the notes of the
    session as the last checkpoint left them, the notes of the initial
    session followed by those generated. *)
Theorem failure_is_reported :
  forall (model : Pipeline.Model) (apiErrorMessage : string -> option string)
         (service : Service.t model) (st : ProcessingState)
         (w : Pipeline.World model),
    In service (Service.all model apiErrorMessage) ->
    let r := Service.run service st w in
    (Trace.rejections (traceOf r) = [] ->
     exists notes,
       outcomeOf r = inr notes /\ Trace.errorUpdates (traceOf r) = [])
    /\ (Trace.rejections (traceOf r) <> [] ->
        exists before call e,
          traceOf r
          = before ++ [call; Pipeline.Progress
                               (Pipeline.errorUpdate (Service.describe service e))]
          /\ Trace.rejectionOf call = Some e
          /\ Trace.errorUpdates (before ++ [call]) = []
          /\ outcomeOf r
             = inl (JsError ("Failed to process book with "
                             ++ Service.who service ++ ": "
                             ++ Service.describe service e))
          /\ unlinkedNotes (App.replay (traceOf r) st)
             = unlinkedNotes (App.replay (before ++ [call]) st)
          /\ (exists added,
                unlinkedNotes (App.replay (traceOf r) st)
                = unlinkedNotes st ++ added)
          /\ ((forall m, messageOf e = Some m -> m <> "") ->
              Service.describe service e <> "")).
Proof.
  intros model apiErrorMessage service st w Hin. cbv zeta.
  destruct (service_shape model apiErrorMessage service Hin)
    as (interlink & Hi & ->).
  pose proof (service_phase3 model interlink Hi) as P3.
  destruct (orchestrate_summary model interlink (Service.who service)
              (Service.describe service) P3 st w)
    as (t1 & t2 & t3 & closing & w' & outcome & -> & E1 & E2 & E3 & K & H).
  cbn [traceOf outcomeOf fst snd].
  destruct (phases_quiet t1 t2 t3 E1 E2 E3) as (Q1 & Q2 & Q3).
  destruct H as [(Hrej & notes & -> & Hclosing)
                |(before & call & e & Hsplit & Hcall & Hbefore & -> & ->)].
  - assert (Trace.rejections closing = [] /\ Trace.errorUpdates closing = [])
      as [Hc1 Hc2].
    { destruct (Pipeline.interlinkDue st).
      - subst closing. auto.
      - destruct Hclosing as [-> _]. auto. }
    split.
    + intros _. exists notes. split; [reflexivity|].
      unfold Trace.errorUpdates in *. now rewrite collect_app, Q1, Hc2.
    + intros H. elim H. now rewrite rejections_app, Hrej, Hc1.
  - split.
    + intros H. exfalso. rewrite rejections_app in H.
      apply app_eq_nil in H as [H _].
      rewrite Hsplit, rejections_app in H. apply app_eq_nil in H as [_ H].
      unfold Trace.rejections in H. cbn in H. rewrite Hcall in H.
      discriminate.
    + intros _. exists before, call, e. rewrite <- Hsplit.
      split; [rewrite Hsplit, <- app_assoc; reflexivity|].
      split; [exact Hcall|]. split; [exact Q1|]. split; [reflexivity|].
      rewrite replay_app. split; [reflexivity|]. split.
      * cbn. rewrite replay_unlinkedNotes, Q3.
        apply last_Forall; [exact K|]. exists []. now rewrite app_nil_r.
      * now apply describe_nonempty with (apiErrorMessage := apiErrorMessage).
Qed.

(** The request for the third title is rejected with a message: the run
    reports that message and throws, and the two notes stay. *)
Lemma failure_is_reported_witness :
  let r := Pipeline.Grok.processBookWithGrok
             (Fixture.failingAt 1 (JsError "quota exceeded"))
             Fixture.interrupted 0 in
  Trace.errorUpdates (traceOf r) = [Some "quota exceeded"]
  /\ outcomeOf r
     = inl (JsError "Failed to process book with Grok: quota exceeded")
  /\ List.length (unlinkedNotes (App.replay (traceOf r) Fixture.interrupted)) = 2.
Proof.
  cbv zeta.
  destruct (failure_is_reported (Fixture.failingAt 1 (JsError "quota exceeded"))
              (fun _ => None)
              (Service.grok (Fixture.failingAt 1 (JsError "quota exceeded")))
              Fixture.interrupted 0 (or_introl eq_refl)) as [_ H].
  destruct H as (before & call & e & Ht & Hc & He & Ho & Hu & _ & Hne).
  - vm_compute. discriminate.
  - split; [reflexivity|]. split; [reflexivity|]. reflexivity.
Defined.

(** C6 as stated fails: a request rejected with an [Error] whose message is
    empty is reported with the empty string. *)
Lemma failure_report_may_be_empty :
  let r := Pipeline.Gemini.processBookWithGemini
             (Fixture.failingAt 1 (JsError "")) (fun _ => None)
             Fixture.interrupted 0 in
  Trace.rejections (traceOf r) = [JsError ""]
  /\ Trace.errorUpdates (traceOf r) = [Some ""]
  /\ outcomeOf r = inl (JsError "Failed to process book with Gemini: ").
Proof. cbv zeta. repeat split. Qed.

(* ===================================================================== *)
(** * Completion *)
(* ===================================================================== *)

(** C7, as amended: when phase 3 succeeds, the last progress update of the
    run sets the status to ['completed'], the stage to the empty string and
    [finalNotes] to the notes returned; it has no [error] field, and no
    update of a successful run has one, so a consumer that merges the
    updates keeps whatever error it held.  In the application the error is
    cleared by [runProcess] before the orchestrator starts, and the session
    ends completed, with an empty stage and no error. *)
Theorem completion_update :
  forall (model : Pipeline.Model) (apiErrorMessage : string -> option string)
         (service : Service.t model) (st : ProcessingState)
         (w : Pipeline.World model) (notes : list Note.t),
    In service (Service.all model apiErrorMessage) ->
    outcomeOf (Service.run service st w) = inr notes ->
    Pipeline.interlinkDue st = true ->
    let trace := traceOf (Service.run service st w) in
    (exists before,
       trace = before ++ [Pipeline.Progress (Pipeline.completedUpdate notes)])
    /\ Update.status (Pipeline.completedUpdate notes) = Some Status.completed
    /\ Update.stage (Pipeline.completedUpdate notes) = Some ""
    /\ Update.finalNotes (Pipeline.completedUpdate notes) = Some notes
    /\ Update.error (Pipeline.completedUpdate notes) = None
    /\ Trace.errorUpdates trace = []
    /\ (forall session,
          let session' := App.replay trace session in
          status session' = Status.completed /\ stage session' = ""
          /\ finalNotes session' = notes /\ error session' = error session)
    /\ (service = Service.grok model ->
        forall app,
          let session' := App.session (fst (App.runProcess model app st w)) in
          status session' = Status.completed /\ stage session' = ""
          /\ finalNotes session' = notes /\ error session' = None).
Proof.
  intros model apiErrorMessage service st w notes Hin Hout Hdue. cbv zeta.
  assert (exists before,
             traceOf (Service.run service st w)
             = before ++ [Pipeline.Progress (Pipeline.completedUpdate notes)]
             /\ Trace.errorUpdates before = []) as (before & Htrace & Herr).
  { destruct (service_shape model apiErrorMessage service Hin)
      as (interlink & Hi & Hrun).
    pose proof (service_phase3 model interlink Hi) as P3.
    rewrite Hrun in Hout |- *.
    destruct (orchestrate_summary model interlink (Service.who service)
                (Service.describe service) P3 st w)
      as (t1 & t2 & t3 & closing & w' & outcome & Hsum & E1 & E2 & E3 & K & H).
    rewrite Hsum in Hout |- *.
    cbn [traceOf outcomeOf fst snd] in *.
    destruct (phases_quiet t1 t2 t3 E1 E2 E3) as (Q1 & _).
    destruct H as [(_ & notes' & -> & Hclosing)
                  |(_ & _ & e & _ & _ & _ & _ & ->)]; [|discriminate].
    injection Hout as ->. rewrite Hdue in Hclosing. subst closing. eauto. }
  assert (Trace.errorUpdates (traceOf (Service.run service st w)) = []) as Hall.
  { rewrite Htrace. unfold Trace.errorUpdates in *.
    now rewrite collect_app, Herr. }
  assert (forall session,
             let session' := App.replay (traceOf (Service.run service st w))
                                        session in
             status session' = Status.completed /\ stage session' = ""
             /\ finalNotes session' = notes /\ error session' = error session)
    as Hreplay.
  { intros session. cbv zeta. split; [|split; [|split]].
    - rewrite Htrace, replay_app. reflexivity.
    - rewrite Htrace, replay_app. reflexivity.
    - rewrite Htrace, replay_app. reflexivity.
    - now apply replay_error. }
  split; [eauto|]. repeat (split; [reflexivity|]).
  split; [exact Hall|]. split; [exact Hreplay|].
  intros -> app. unfold App.runProcess.
  cbn [Service.run Service.grok] in *.
  destruct (Pipeline.Grok.processBookWithGrok model st w)
    as [[trace w'] outcome] eqn:Hrun.
  cbn [traceOf outcomeOf fst snd] in *. subst outcome.
  match goal with
  | |- context [App.replay trace ?s] => destruct (Hreplay s) as (R1 & R2 & R3 & R4)
  end.
  destruct notes; cbn [fst App.session]; auto.
Qed.

(** Resuming the session whose notes are generated, in the application:
    the session ends completed and without an error. *)
Lemma completion_update_witness :
  let app := App.mk Fixture.generated None App.viewer in
  let session' :=
    App.session (fst (App.runProcess Fixture.reliable app Fixture.generated 0)) in
  status session' = Status.completed /\ stage session' = ""
  /\ error session' = None.
Proof.
  cbv zeta.
  destruct (completion_update Fixture.reliable (fun _ => None)
              (Service.grok Fixture.reliable) Fixture.generated 0 _
              (or_introl eq_refl) eq_refl eq_refl)
    as (_ & _ & _ & _ & _ & _ & _ & H).
  destruct (H eq_refl (App.mk Fixture.generated None App.viewer))
    as (H1 & H2 & _ & H4).
  auto.
Defined.

(** C7 as stated fails: merged into a session that holds an error, the
    updates of a successful run, the last one included, leave that error
    where it is. *)
Lemma completion_update_keeps_error :
  let st := Fixture.generated in
  let r := Pipeline.Grok.processBookWithGrok Fixture.reliable st 0 in
  (exists notes, outcomeOf r = inr notes
                 /\ last (traceOf r) (Pipeline.Delay 0)
                    = Pipeline.Progress (Pipeline.completedUpdate notes))
  /\ error st = Some "boom"
  /\ status (App.replay (traceOf r) st) = Status.completed
  /\ error (App.replay (traceOf r) st) = Some "boom"
  /\ error (App.replay (traceOf r) st) <> None.
Proof.
  cbv zeta. split; [eexists; split; reflexivity|].
  repeat split. discriminate.
Qed.

(* ===================================================================== *)
(** * Alignment of notes and titles *)
(* ===================================================================== *)

Section Steady.
Import Pipeline Trace.

Lemma steady_app t1 : forall kept s t2,
  steady kept s (t1 ++ t2)
  <-> steady kept s t1
      /\ steady (kept && forallb keepsTitle t1) (App.replay t1 s) t2.
Proof.
  induction t1 as [|ev t1 IH]; intros kept s t2; cbn.
  - rewrite andb_true_r. tauto.
  - rewrite IH, andb_assoc. tauto.
Qed.

(** Events that touch neither the titles nor the notes. *)
Lemma inert_replay t : forall s,
  Forall inert t ->
  titles (App.replay t s) = titles s
  /\ unlinkedNotes (App.replay t s) = unlinkedNotes s.
Proof.
  induction t as [|ev t IH]; intros s H; [cbn; auto|].
  inversion H as [|? ? [Ht Hu] H']; subst.
  assert (titles (App.handleProgress s ev) = titles s
          /\ unlinkedNotes (App.handleProgress s ev) = unlinkedNotes s)
    as [E1 E2].
  { destruct ev; cbn in *; auto. now rewrite Ht, Hu. }
  destruct (IH (App.handleProgress s ev) H') as [I1 I2].
  unfold App.replay in *. cbn [fold_left]. split; congruence.
Qed.

(** They keep a session steady. *)
Lemma steady_inert t : forall kept s,
  (kept = true -> aligned s) ->
  List.length (unlinkedNotes s) <= List.length (titles s) ->
  Forall inert t ->
  steady kept s t.
Proof.
  induction t as [|ev t IH]; intros kept s Hal Hb H; [exact I|].
  inversion H as [|? ? [Ht Hu] H']; subst.
  assert (titles (App.handleProgress s ev) = titles s
          /\ unlinkedNotes (App.handleProgress s ev) = unlinkedNotes s)
    as [E1 E2].
  { destruct ev; cbn in *; auto. now rewrite Ht, Hu. }
  assert (kept && keepsTitle ev = true -> aligned (App.handleProgress s ev))
    as Hal'.
  { intros Hk. apply andb_prop in Hk as [Hk _].
    unfold aligned. rewrite E1, E2. exact (Hal Hk). }
  cbn [steady]. split; [exact Hal'|]. split; [now rewrite E1, E2|]. split.
  - exists []. now rewrite app_nil_r.
  - apply IH; auto. now rewrite E1, E2.
Qed.

(** As long as every note body kept its title, the notes are aligned. *)
Lemma steady_aligned t : forall kept s,
  steady kept s t -> kept && forallb keepsTitle t = true ->
  aligned s -> aligned (App.replay t s).
Proof.
  induction t as [|ev t IH]; intros kept s H Hk Hal; [exact Hal|].
  destruct H as (H1 & _ & _ & H4). cbn [forallb] in Hk.
  rewrite andb_assoc in Hk.
  apply (IH _ _ H4 Hk). apply H1.
  now apply andb_prop in Hk as [Hk _].
Qed.

Lemma steady_bounded t : forall kept s,
  steady kept s t ->
  List.length (unlinkedNotes s) <= List.length (titles s) ->
  List.length (unlinkedNotes (App.replay t s))
  <= List.length (titles (App.replay t s)).
Proof.
  induction t as [|ev t IH]; intros kept s H Hb; [exact Hb|].
  destruct H as (_ & H2 & _ & H4). exact (IH _ _ H4 H2).
Qed.

Lemma steady_extends t : forall kept s,
  steady kept s t ->
  exists added, unlinkedNotes (App.replay t s) = unlinkedNotes s ++ added.
Proof.
  induction t as [|ev t IH]; intros kept s H.
  - exists []. now rewrite app_nil_r.
  - destruct H as (_ & _ & [a1 H3] & H4). destruct (IH _ _ H4) as [a2 H5].
    exists (a1 ++ a2). cbn [App.replay fold_left].
    fold (App.replay t (App.handleProgress s ev)).
    now rewrite H5, H3, app_assoc.
Qed.

Lemma aligned_bounded s :
  aligned s -> List.length (unlinkedNotes s) <= List.length (titles s).
Proof.
  intros Hal. apply aligned_prefix in Hal as [rest ->].
  rewrite length_app, length_map. lia.
Qed.

(** Between any two points of a steady trace the notes have only grown,
    there are no more notes than titles, and the notes are aligned when
    every note body up to the later point kept its title. *)
Lemma steady_points t s :
  steady true s t -> aligned s ->
  forall t1 t2 t3,
    t = t1 ++ t2 ++ t3 ->
    (forallb keepsTitle (t1 ++ t2) = true ->
     aligned (App.replay (t1 ++ t2) s))
    /\ List.length (unlinkedNotes (App.replay (t1 ++ t2) s))
       <= List.length (titles (App.replay (t1 ++ t2) s))
    /\ exists added,
         unlinkedNotes (App.replay (t1 ++ t2) s)
         = unlinkedNotes (App.replay t1 s) ++ added.
Proof.
  intros H Hal t1 t2 t3 ->. rewrite app_assoc in H.
  apply steady_app in H as [H12 _]. split; [|split].
  - intros Hk. now apply (steady_aligned _ _ _ H12).
  - apply (steady_bounded _ _ _ H12). now apply aligned_bounded.
  - apply steady_app in H12 as [_ H2]. rewrite replay_app.
    exact (steady_extends _ _ _ H2).
Qed.

(** A note that is appended under the title of its index keeps the notes
    aligned. *)
Lemma aligned_snoc s s' note :
  aligned s ->
  titles s' = titles s ->
  unlinkedNotes s' = unlinkedNotes s ++ [note] ->
  nth_error (titles s) (List.length (unlinkedNotes s))
  = Some (UnlinkedNote.title note) ->
  aligned s'.
Proof.
  intros Hal Ht Hu Hnote i n H. rewrite Ht. rewrite Hu in H.
  destruct (Nat.lt_ge_cases i (List.length (unlinkedNotes s))) as [Hlt|Hge].
  - rewrite nth_error_app1 in H by exact Hlt. exact (Hal i n H).
  - rewrite nth_error_app2 in H by exact Hge.
    destruct (i - List.length (unlinkedNotes s)) as [|d] eqn:Hd.
    + cbn in H. injection H as <-.
      replace i with (List.length (unlinkedNotes s)) by lia. exact Hnote.
    + cbn in H. now destruct d.
Qed.

Lemma keepsTitle_withTitle text title body :
  keepsTitle (GenerateNoteBody text title (inr body)) = true ->
  UnlinkedNote.title (withTitle title body) = title.
Proof.
  cbn. destruct (NoteBody.title body) as [own|]; [|reflexivity].
  now intros H%String.eqb_eq.
Qed.
End Steady.

Section Alignment.
Import Pipeline Trace.
Variable model : Model.

Ltac reply w1 e body :=
  rewrite generateLoop_step; cbv zeta;
  match goal with
  | |- context [bodyReply ?m ?x ?t ?w] =>
      destruct (bodyReply m x t w) as [w1 [e|body]]
  end.

(** Along phase 2 the session of the consumer stays steady. *)
Lemma generateLoop_steady remaining : forall i state notes w s kept,
  titles s = titles state -> unlinkedNotes s = notes ->
  List.length notes = i -> i + remaining <= List.length (titles state) ->
  (kept = true -> aligned s) ->
  steady kept s (traceOf (generateLoop model remaining i state notes w)).
Proof.
  induction remaining as [|remaining IH];
    intros i state notes w s kept Ht Hn Hi Hrem Hal; [exact I|].
  assert (List.length (unlinkedNotes s) <= List.length (titles s)) as Hb.
  { rewrite Ht, Hn. lia. }
  reply w1 e body.
  - cbn [traceOf fst]. apply steady_inert; auto. repeat constructor.
  - set (t0 := nth i (titles state) "").
    set (notes' := notes ++ [withTitle t0 body]).
    set (pause := if i <? _ then [Delay 1500] else []).
    set (asked := GenerateNoteBody (inputText state) t0 (inr body)).
    set (s3 := App.replay
                 [Progress (stageUpdate (generateStage i state t0)); asked;
                  Progress (unlinkedNotesUpdate notes')] s).
    assert (titles s3 = titles state /\ unlinkedNotes s3 = notes') as [T3 U3].
    { subst s3. cbn. auto. }
    assert (List.length notes' = S i) as Hi'.
    { subst notes'. rewrite length_app. cbn. lia. }
    assert (kept && keepsTitle asked = true -> aligned s3) as Hal3.
    { intros Hk. apply andb_prop in Hk as [Hk Hasked].
      apply (aligned_snoc s s3 (withTitle t0 body) (Hal Hk)).
      - congruence.
      - rewrite U3, Hn. reflexivity.
      - rewrite Hn, Hi, Ht.
        rewrite (keepsTitle_withTitle _ _ _ Hasked).
        apply nth_error_nth'. lia. }
    assert (Forall inert pause) as Hp.
    { subst pause. destruct (i <? _); repeat constructor. }
    destruct (inert_replay pause s3 Hp) as [P2 P3].
    specialize (IH (S i) (withUnlinkedNotes state notes') notes' w1
                   (App.replay pause s3)
                   (kept && keepsTitle asked && forallb keepsTitle pause)).
    destruct (generateLoop _ _ _ _ _ _) as [[t w2] r].
    cbn [traceOf fst] in *.
    change (steady kept s
              ([Progress (stageUpdate (generateStage i state t0)); asked;
                Progress (unlinkedNotesUpdate notes')] ++ pause ++ t)).
    apply steady_app. split.
    + cbn [steady App.handleProgress keepsTitle]. rewrite !andb_true_r.
      fold asked. repeat split.
      * intros Hk. unfold aligned. cbn. exact (Hal Hk).
      * cbn. exact Hb.
      * exists []. now rewrite app_nil_r.
      * intros Hk. apply andb_prop in Hk as [Hk _]. exact (Hal Hk).
      * exact Hb.
      * exists []. now rewrite app_nil_r.
      * intros Hk. apply Hal3 in Hk. exact Hk.
      * change (List.length (unlinkedNotes s3) <= List.length (titles s3)).
        rewrite T3, U3. lia.
      * exists [withTitle t0 body]. cbn. subst notes'. congruence.
    + fold s3.
      replace (kept && forallb keepsTitle
                         [Progress (stageUpdate (generateStage i state t0));
                          asked; Progress (unlinkedNotesUpdate notes')])
        with (kept && keepsTitle asked)
        by (cbn [forallb]; cbn [keepsTitle]; now rewrite !andb_true_r).
      apply steady_app. split.
      * apply steady_inert; auto. rewrite T3, U3. lia.
      * apply IH.
        -- change (titles (withUnlinkedNotes state notes'))
             with (titles state). congruence.
        -- congruence.
        -- exact Hi'.
        -- change (titles (withUnlinkedNotes state notes'))
             with (titles state). lia.
        -- intros Hk. apply andb_prop in Hk as [Hk _]. apply Hal3 in Hk.
           unfold aligned. now rewrite P2, P3.
Qed.

Lemma aligned_no_titles st :
  aligned st -> titles st = [] -> unlinkedNotes st = [].
Proof.
  intros Hal Ht. destruct (unlinkedNotes st) as [|n l] eqn:E; auto.
  specialize (Hal 0 n). rewrite E, Ht in Hal. now specialize (Hal eq_refl).
Qed.

(** Phase 1 keeps the session steady and in step with the local state, and
    it receives no note body. *)
Lemma extractPhase_steady st w :
  aligned st ->
  let r := extractPhase model st w in
  steady true st (traceOf r)
  /\ forallb keepsTitle (traceOf r) = true
  /\ (forall s1, outcomeOf r = inr s1 ->
        titles (App.replay (traceOf r) st) = titles s1
        /\ unlinkedNotes (App.replay (traceOf r) st) = unlinkedNotes s1
        /\ aligned s1).
Proof.
  intros Hal. cbv zeta. pose proof (aligned_bounded st Hal) as Hb.
  destruct (titles st) as [|t0 ts] eqn:Ht.
  - pose proof (aligned_no_titles st Hal Ht) as Hu.
    rewrite extractPhase_run by auto. cbv zeta.
    destruct (titlesReply model (inputText st) w) as [w1 [e|newTitles]];
      cbn [traceOf outcomeOf fst snd].
    + split; [|split; [reflexivity | discriminate]].
      apply steady_inert; auto; [now rewrite Ht | repeat constructor].
    + assert (forall s, unlinkedNotes s = [] -> aligned s) as Hnew.
      { intros s Hs i note H. rewrite Hs in H. now destruct i. }
      split; [|split; [reflexivity|]].
      * cbn [steady App.handleProgress]. repeat split.
        -- intros _. unfold aligned. cbn. exact Hal.
        -- cbn. now rewrite Ht.
        -- exists []. now rewrite app_nil_r.
        -- intros _. unfold aligned. cbn. exact Hal.
        -- cbn. now rewrite Ht.
        -- exists []. now rewrite app_nil_r.
        -- intros _. apply Hnew. cbn. exact Hu.
        -- cbn. rewrite Hu. cbn. lia.
        -- exists []. now rewrite app_nil_r.
      * intros s1 [= <-]. cbn. repeat split; auto.
  - rewrite extractPhase_skip by congruence. cbn [traceOf outcomeOf fst snd].
    split; [exact I|]. split; [reflexivity|].
    intros s1 [= <-]. rewrite Ht. auto.
Qed.

(** So does phase 2. *)
Lemma generatePhase_steady s1 w1 session :
  aligned s1 ->
  titles session = titles s1 -> unlinkedNotes session = unlinkedNotes s1 ->
  steady true session (traceOf (generatePhase model s1 w1)).
Proof.
  intros Hal Ht Hu. rewrite generatePhase_run.
  assert (aligned session) as Hsession.
  { unfold aligned. now rewrite Ht, Hu. }
  destruct (Nat.ltb_spec (List.length (unlinkedNotes s1))
                         (List.length (titles s1))) as [Hlt|Hge].
  - assert (steady true session
              (traceOf (generateLoop model
                          (List.length (titles s1)
                           - List.length (unlinkedNotes s1))
                          (List.length (unlinkedNotes s1)) s1
                          (unlinkedNotes s1) w1))) as S1.
    { apply generateLoop_steady; auto. lia. }
    destruct (generateLoop _ _ _ _ _ _) as [[t w'] [e|r]];
      cbn [traceOf fst] in *; auto.
  - exact I.
Qed.
End Alignment.

Section AlignmentOfRuns.
Import Pipeline Trace.
Variable model : Model.
Variable interlink : ProcessingState -> Task model (list Note.t).
Variable who : string.
Variable describe : thrown -> string.
Hypothesis interlink_phase3 : Service.phase3 model interlink.

Lemma phase3_inert t : Forall phase3Event t -> Forall inert t.
Proof.
  apply Forall_impl. intros ev (_ & _ & H3 & H4 & _). split; auto.
Qed.

Lemma steady_then_inert s t1 t2 :
  steady true s t1 -> aligned s -> Forall inert t2 ->
  steady true s (t1 ++ t2).
Proof.
  intros H1 Hal H2. apply steady_app. split; auto.
  apply steady_inert; auto.
  - intros Hk. now apply (steady_aligned _ _ _ H1).
  - apply (steady_bounded _ _ _ H1). now apply aligned_bounded.
Qed.

(** Along a whole run the session of the consumer stays steady. *)
Lemma orchestrate_steady st w :
  aligned st ->
  steady true st
         (traceOf (Service.orchestrate model interlink who describe st w)).
Proof.
  intros Hal. rewrite orchestrate_run.
  destruct (extractPhase_steady model st w Hal) as (S1 & K1 & R1).
  destruct (extractPhase model st w) as [[t1 w1] [e|s1]];
    cbn [traceOf outcomeOf fst snd] in *.
  { apply steady_then_inert; auto. repeat constructor. }
  destruct (R1 s1 eq_refl) as (Ht & Hu & Hal1).
  pose proof (generatePhase_steady model s1 w1 (App.replay t1 st) Hal1 Ht Hu)
    as S2.
  assert (steady true st (t1 ++ traceOf (generatePhase model s1 w1))) as S12.
  { apply steady_app. rewrite K1. auto. }
  destruct (generatePhase model s1 w1) as [[t2 w2] [e|s2]];
    cbn [traceOf outcomeOf fst snd] in *.
  { rewrite app_assoc. apply steady_then_inert; auto. repeat constructor. }
  destruct (interlinkDue s2).
  - destruct (interlink_phase3 s2 w2) as (E3 & _).
    apply phase3_inert in E3.
    destruct (interlink s2 w2) as [[t3 w3] [e|final]];
      cbn [traceOf outcomeOf fst snd] in *;
      rewrite app_assoc; apply steady_then_inert; auto;
      apply Forall_app; split; auto; repeat constructor.
  - exact S12.
Qed.
End AlignmentOfRuns.

(** C9, as amended: when the notes of the session are aligned with its
    titles on entry ([unlinkedNotes[i].title = titles[i]] for every index
    [i] of [unlinkedNotes]), then at every point of the run, whether it
    succeeds or fails, the session the consumer holds after the progress
    updates so far has at most as many notes as titles, and its notes are
    the notes of any earlier point with notes appended; every note [j] has
    the title [titles[j]] as long as each note body received so far has no
    [title] of its own or the title that was asked for. *)
Theorem notes_stay_aligned :
  forall (model : Pipeline.Model) (apiErrorMessage : string -> option string)
         (service : Service.t model) (st : ProcessingState)
         (w : Pipeline.World model),
    In service (Service.all model apiErrorMessage) ->
    (forall i note,
        nth_error (unlinkedNotes st) i = Some note ->
        nth_error (titles st) i = Some (UnlinkedNote.title note)) ->
    forall t1 t2 t3,
      traceOf (Service.run service st w) = t1 ++ t2 ++ t3 ->
      let earlier := App.replay t1 st in
      let later := App.replay (t1 ++ t2) st in
      (forallb Trace.keepsTitle (t1 ++ t2) = true ->
       forall j note,
         nth_error (unlinkedNotes later) j = Some note ->
         nth_error (titles later) j = Some (UnlinkedNote.title note))
      /\ List.length (unlinkedNotes later) <= List.length (titles later)
      /\ exists added, unlinkedNotes later = unlinkedNotes earlier ++ added.
Proof.
  intros model apiErrorMessage service st w Hin Hal t1 t2 t3 Htrace. cbv zeta.
  destruct (service_shape model apiErrorMessage service Hin)
    as (interlink & Hi & Hrun).
  pose proof (service_phase3 model interlink Hi) as P3.
  rewrite Hrun in Htrace.
  pose proof (orchestrate_steady model interlink (Service.who service)
                (Service.describe service) P3 st w Hal) as Hsteady.
  exact (steady_points _ _ Hsteady Hal t1 t2 t3 Htrace).
Qed.

(** The interrupted session, resumed with a model that rejects the request
    for the last title: the one note body that is received has no title of
    its own, and the session the consumer ends with has two aligned notes,
    the first of them the note it started with. *)
Lemma notes_stay_aligned_witness :
  let model := Fixture.failingAt 1 (JsError "quota exceeded") in
  let trace :=
    traceOf (Pipeline.Grok.processBookWithGrok model Fixture.interrupted 0) in
  let later := App.replay trace Fixture.interrupted in
  (forall j note,
      nth_error (unlinkedNotes later) j = Some note ->
      nth_error (titles later) j = Some (UnlinkedNote.title note))
  /\ List.length (unlinkedNotes later) <= List.length (titles later)
  /\ exists added, unlinkedNotes later = [Fixture.noteA] ++ added.
Proof.
  cbv zeta.
  destruct (notes_stay_aligned (Fixture.failingAt 1 (JsError "quota exceeded"))
              (fun _ => None)
              (Service.grok (Fixture.failingAt 1 (JsError "quota exceeded")))
              Fixture.interrupted 0 (or_introl eq_refl))
    with (t1 := @nil Pipeline.event)
         (t2 := traceOf (Pipeline.Grok.processBookWithGrok
                           (Fixture.failingAt 1 (JsError "quota exceeded"))
                           Fixture.interrupted 0))
         (t3 := @nil Pipeline.event)
    as (H1 & H2 & H3).
  - intros [|[|i]] note H; cbn in H; try discriminate.
    now injection H as <-.
  - cbn [app]. now rewrite app_nil_r.
  - split; [|split; [exact H2 | exact H3]].
    apply H1. vm_compute. reflexivity.
Defined.

(** A model whose note bodies come with a title of their own: the session
    starts without notes, so its notes are aligned on entry, and after the
    run the note at index 0 is titled "On X" while the title at index 0 is
    "X". *)
Lemma a_reply_may_rename_its_note :
  let st := Fixture.fresh "book" in
  let trace :=
    traceOf (Service.run (Service.grok Fixture.retitling) st 0) in
  let later := App.replay trace st in
  (forall i note,
      nth_error (unlinkedNotes st) i = Some note ->
      nth_error (titles st) i = Some (UnlinkedNote.title note))
  /\ ~ (forall j note,
          nth_error (unlinkedNotes later) j = Some note ->
          nth_error (titles later) j = Some (UnlinkedNote.title note)).
Proof.
  cbv zeta. split.
  - intros [|i] note H; discriminate H.
  - intros H.
    specialize (H 0 (UnlinkedNote.mk "On X" "About X" ["X"] "Chapter 1")
                  eq_refl).
    discriminate H.
Qed.

(* ===================================================================== *)
(** * Cross-references *)
(* ===================================================================== *)

Section MapFacts.
Context {V : Type}.

Lemma find_app {A} (f : A -> bool) l1 l2 :
  find f (l1 ++ l2) = match find f l1 with Some x => Some x | None => find f l2 end.
Proof.
  induction l1 as [|x l1 IH]; cbn; auto. destruct (f x); auto.
Qed.

Lemma find_filter_other (m : JsMap.t V) key key' :
  String.eqb key key' = false ->
  find (fun kv => String.eqb (fst kv) key')
       (filter (fun kv => negb (String.eqb (fst kv) key)) m)
  = find (fun kv => String.eqb (fst kv) key') m.
Proof.
  intros Hne. induction m as [|[k v] m IH]; cbn; auto.
  destruct (String.eqb_spec k key) as [->|Hk]; cbn.
  - rewrite Hne. exact IH.
  - destruct (String.eqb k key'); auto.
Qed.

Lemma find_filter_same (m : JsMap.t V) key :
  find (fun kv => String.eqb (fst kv) key)
       (filter (fun kv => negb (String.eqb (fst kv) key)) m) = None.
Proof.
  induction m as [|[k v] m IH]; cbn; auto.
  destruct (String.eqb_spec k key) as [->|Hk]; cbn; auto.
  destruct (String.eqb_spec k key); [congruence | exact IH].
Qed.

(** [map.set(key, value)] followed by [map.get(key')]. *)
Lemma get_set (m : JsMap.t V) key value key' :
  JsMap.get (JsMap.set m key value) key'
  = if String.eqb key key' then Some value else JsMap.get m key'.
Proof.
  unfold JsMap.get, JsMap.set. rewrite find_app.
  destruct (String.eqb_spec key key') as [<-|Hne].
  - rewrite find_filter_same. cbn. now rewrite String.eqb_refl.
  - rewrite find_filter_other by now apply String.eqb_neq.
    destruct (find _ m); auto. cbn.
    apply String.eqb_neq in Hne. now rewrite Hne.
Qed.

(** [new Map(entries).get(key)] is the value of the last entry for [key]. *)
Lemma get_fromEntries (entries : list (string * V)) key :
  JsMap.get (JsMap.fromEntries entries) key
  = option_map snd (find (fun kv => String.eqb (fst kv) key) (rev entries)).
Proof.
  unfold JsMap.fromEntries.
  assert (forall m,
             JsMap.get (fold_left (fun m kv => JsMap.set m (fst kv) (snd kv))
                                  entries m) key
             = match find (fun kv => String.eqb (fst kv) key) (rev entries) with
               | Some kv => Some (snd kv)
               | None => JsMap.get m key
               end) as H.
  { induction entries as [|[k v] entries IH]; intros m; [reflexivity|].
    cbn [fold_left rev]. rewrite IH, find_app, get_set. cbn.
    destruct (find _ (rev entries)); auto. destruct (String.eqb k key); auto. }
  rewrite H. destruct (find _ (rev entries)); reflexivity.
Qed.
End MapFacts.

Section LinkFacts.
Import Links NetworkGraph.

Lemma substring_all s : forall rest,
  String.substring 0 (String.length s) (s ++ rest) = s.
Proof.
  induction s as [|c s IH]; intros rest; cbn.
  - now destruct rest.
  - now rewrite IH.
Qed.

Lemma length_append (a b : string) :
  String.length (a ++ b) = String.length a + String.length b.
Proof. induction a as [|c a IH]; cbn; auto. Qed.

(** The title between the brackets of a marker. *)
Lemma marker_inner T :
  Js.substring (marker T) 2 (String.length (marker T) - 2) = T.
Proof.
  unfold Js.substring, marker.
  assert (String.length ("[[" ++ T ++ "]]") = String.length T + 4) as ->.
  { cbn. rewrite length_append. cbn. lia. }
  replace (Nat.min 2 (String.length T + 4)) with 2 by lia.
  replace (Nat.min (String.length T + 4 - 2) (String.length T + 4))
    with (String.length T + 2) by lia.
  replace (Nat.min 2 (String.length T + 2)) with 2 by lia.
  replace (Nat.max 2 (String.length T + 2) - 2) with (String.length T) by lia.
  cbn. apply substring_all.
Qed.

(** What the graph resolves a title to: the id of the last note whose
    normalized title is the normalized title. *)
Lemma titleToIdMap_get notes T :
  JsMap.get (titleToIdMap notes) (normalize T)
  = option_map Note.id
      (find (fun n => String.eqb (normalize (Note.title n)) (normalize T))
            (rev notes)).
Proof.
  unfold titleToIdMap. rewrite get_fromEntries, <- map_rev.
  induction (rev notes) as [|n l IH]; cbn; auto.
  destruct (String.eqb _ _); auto.
Qed.
End LinkFacts.


Example linkMatches_example :
  Links.linkMatches "See [[B]] and [[ c ]], not [[x]."
  = ["[[B]]"; "[[ c ]]"].
Proof. reflexivity. Qed.

Example normalize_example : Links.normalize "  The Habit LOOP " = "the habit loop".
Proof. reflexivity. Qed.

Example newLinks_example :
  NetworkGraph.newLinks (finalNotes Fixture.finished)
  = [ {| NetworkGraph.source := "note_000"; NetworkGraph.target := "note_001" |} ].
Proof. reflexivity. Qed.

(** A note that cites its own title gets no edge. *)
Example newLinks_self_example :
  NetworkGraph.newLinks [Note.mk "note_000" "A" "About [[A]] itself." [] ""] = [].
Proof. reflexivity. Qed.

(** C10: the graph never has an edge from a note to itself: every link that
    a match adds starts at the note that holds the match and ends at a
    different id, so a marker with the note's own title adds nothing for
    that note; and the request of the per-note interlink lists as targets
    the titles other than the note's own, and only those. *)
Theorem no_self_links :
  (forall (map : JsMap.t string) (note : Note.t) (matched : string),
      Forall (fun link => NetworkGraph.source link = Note.id note
                          /\ NetworkGraph.target link <> Note.id note)
             (NetworkGraph.linksOfMatch map note matched))
  /\ (forall notes : list Note.t,
         Forall (fun link => NetworkGraph.source link <> NetworkGraph.target link)
                (NetworkGraph.newLinks notes))
  /\ (forall (model : Pipeline.Model) (noteToLink : UnlinkedNote.t)
             (allTitles : list string) (w : Pipeline.World model),
         let r := Pipeline.OpenRouter.interlinkSingleNote model noteToLink
                    allTitles w in
         exists otherTitles,
           traceOf r
           = [Pipeline.InterlinkSingleNote (UnlinkedNote.content noteToLink)
                                           otherTitles (outcomeOf r)]
           /\ ~ In (UnlinkedNote.title noteToLink) otherTitles
           /\ (forall t, In t otherTitles <->
                         In t allTitles /\ t <> UnlinkedNote.title noteToLink)).
Proof.
  assert (forall (map : JsMap.t string) (note : Note.t) (matched : string),
             Forall (fun link => NetworkGraph.source link = Note.id note
                                 /\ NetworkGraph.target link <> Note.id note)
                    (NetworkGraph.linksOfMatch map note matched)) as Hmatch.
  { intros map note matched. unfold NetworkGraph.linksOfMatch.
    destruct (JsMap.get map _) as [targetId|]; [|constructor].
    destruct (String.eqb_spec targetId ""); cbn; [constructor|].
    destruct (String.eqb_spec targetId (Note.id note)); cbn; constructor; auto. }
  split; [exact Hmatch|]. split.
  - intros notes. unfold NetworkGraph.newLinks.
    apply Forall_flat_map, Forall_forall. intros note _.
    apply Forall_flat_map, Forall_forall. intros matched _.
    eapply Forall_impl; [|apply Hmatch]. cbn. intros link [-> H]. congruence.
  - intros model noteToLink allTitles w. cbv zeta.
    unfold Pipeline.OpenRouter.interlinkSingleNote. rewrite run_perform.
    eexists. split; [reflexivity|]. split.
    + rewrite filter_In, negb_true_iff, String.eqb_refl. intros [_ H].
      discriminate.
    + intros t. rewrite filter_In, negb_true_iff, String.eqb_neq. tauto.
Qed.


(* ===================================================================== *)
(** * Further properties of the gateway *)
(* ===================================================================== *)

Section BudgetFacts.
Import Gateway Backoff.
Context {W R A : Type}.
Variable request : Run W (event R) A.
Variable retryable : nat -> thrown -> bool.
Variable final : thrown -> thrown.
Variable base : Z.

Hypothesis one_call :
  forall w, attempts (traceOf (request w)) = 1 /\ delays (traceOf (request w)) = [].

Local Abbreviation loop := (retryShape request retryable final base).

Lemma loop_budget rem : forall attempt lastError w,
  let t := traceOf (loop rem attempt lastError w) in
  attempts t <= rem
  /\ (0 < rem -> 0 < attempts t)
  /\ List.length (delays t) <= attempts t
  /\ attempts t <= S (List.length (delays t))
  /\ delays t = schedule base attempt (List.length (delays t)).
Proof.
  induction rem as [|rem IH]; intros attempt lastError w; cbv zeta.
  - cbn. repeat split; auto; lia.
  - destruct (one_call w) as [Ha Hd].
    destruct (outcomeOf (request w)) as [e|reply] eqn:He.
    + destruct (retryable attempt e) eqn:Hr.
      * rewrite (loop_retry request retryable final base _ _ _ _ _ He Hr).
        specialize (IH (S attempt) e (worldOf (request w))). cbv zeta in IH.
        destruct (loop rem (S attempt) e (worldOf (request w))) as [[t w'] r].
        cbn [traceOf fst] in *. destruct IH as (I1 & I2 & I3 & I4 & I5).
        rewrite attempts_app, delays_app, Ha, Hd.
        cbn [attempts delays app List.length Nat.add].
        rewrite schedule_cons, <- I5. repeat split; auto; lia.
      * rewrite (loop_stop request retryable final base _ _ _ _ _ He Hr).
        cbn [traceOf fst]. rewrite Ha, Hd. cbn. repeat split; auto; lia.
    + rewrite (loop_answer request retryable final base _ _ _ _ _ He).
      cbn [traceOf fst]. rewrite Ha, Hd. cbn. repeat split; auto; lia.
Qed.

(** When the last attempt the loop allows is never retried, every timer is
    followed by another call. *)
Lemma loop_no_idle_wait bound rem : forall attempt lastError w,
  (forall a e, retryable a e = true -> S a < bound) ->
  attempt + S rem = bound ->
  let t := traceOf (loop (S rem) attempt lastError w) in
  S (List.length (delays t)) = attempts t.
Proof.
  induction rem as [|rem IH]; intros attempt lastError w Hb Hsum; cbv zeta;
    destruct (one_call w) as [Ha Hd];
    destruct (outcomeOf (request w)) as [e|reply] eqn:He.
  - destruct (retryable attempt e) eqn:Hr.
    + apply Hb in Hr. lia.
    + rewrite (loop_stop request retryable final base _ _ _ _ _ He Hr).
      cbn [traceOf fst]. now rewrite Ha, Hd.
  - rewrite (loop_answer request retryable final base _ _ _ _ _ He).
    cbn [traceOf fst]. now rewrite Ha, Hd.
  - destruct (retryable attempt e) eqn:Hr.
    + rewrite (loop_retry request retryable final base _ _ _ _ _ He Hr).
      specialize (IH (S attempt) e (worldOf (request w)) Hb ltac:(lia)).
      cbv zeta in IH.
      destruct (loop (S rem) (S attempt) e (worldOf (request w)))
        as [[t w'] r].
      cbn [traceOf fst] in *.
      rewrite attempts_app, delays_app, Ha, Hd.
      cbn [attempts delays app List.length Nat.add]. now rewrite IH.
    + rewrite (loop_stop request retryable final base _ _ _ _ _ He Hr).
      cbn [traceOf fst]. now rewrite Ha, Hd.
  - rewrite (loop_answer request retryable final base _ _ _ _ _ He).
    cbn [traceOf fst]. now rewrite Ha, Hd.
Qed.
End BudgetFacts.

Lemma total_schedule base k : forall from,
  Budget.total (Backoff.schedule base from k)
  = (base * (Js.pow2 (from + k) - Js.pow2 from))%Z.
Proof.
  unfold Backoff.schedule, Js.pow2.
  induction k as [|k IH]; intros from; cbn [seq map Budget.total fold_right].
  - rewrite Nat.add_0_r. lia.
  - change (fold_right Z.add 0%Z ?l) with (Budget.total l). rewrite IH.
    replace (Z.of_nat (S from + k)) with (Z.of_nat (from + S k)) by lia.
    replace (Z.of_nat (S from)) with (Z.of_nat from + 1)%Z by lia.
    rewrite Z.pow_add_r by lia. lia.
Qed.

(** X1: whatever the endpoint answers, a retry wrapper makes at most
    [maxRetries] network calls, sets a timer only after a call, and its
    timers are the first waits of the schedule: the wait number [k] is
    [initialDelay * 2^k], so [n] waits take [initialDelay * (2^n - 1)] in
    all.  The Grok wrapper never waits without calling again; the other two
    wait once more after a last attempt that was rate limited. *)
Theorem retry_budget :
  forall (W : Type) (maxRetries : nat) (initialDelay : Z) (w : W),
    (forall R (net : W -> W * (thrown + R)),
       let t := traceOf (Gateway.Gemini.callGeminiWithRetries
                           (Backoff.send net) maxRetries initialDelay w) in
       Budget.bounded maxRetries initialDelay t
       /\ Budget.total (Backoff.delays t)
          = (initialDelay
             * (Js.pow2 (List.length (Backoff.delays t)) - 1))%Z)
    /\ (forall (net : W -> W * (thrown + Gateway.OpenRouter.HttpResponse))
               (stringify : thrown -> string),
       let t := traceOf (Gateway.OpenRouter.callOpenRouterWithRetries
                           (Backoff.send net) stringify maxRetries
                           initialDelay w) in
       Budget.bounded maxRetries initialDelay t
       /\ Budget.total (Backoff.delays t)
          = (initialDelay
             * (Js.pow2 (List.length (Backoff.delays t)) - 1))%Z)
    /\ (forall (net : W -> W * (thrown + Gateway.Grok.HttpResponse)),
       let t := traceOf (Gateway.Grok.callGrokWithRetries
                           (Backoff.send net) maxRetries initialDelay w) in
       Budget.bounded maxRetries initialDelay t
       /\ Budget.total (Backoff.delays t)
          = (initialDelay
             * (Js.pow2 (List.length (Backoff.delays t)) - 1))%Z
       /\ List.length (Backoff.delays t) = Backoff.attempts t - 1).
Proof.
  intros W maxRetries initialDelay w.
  assert (forall l k, l = Backoff.schedule initialDelay 0 k ->
                      Budget.total l
                      = (initialDelay * (Js.pow2 k - 1))%Z) as Htotal.
  { intros l k ->. now rewrite total_schedule. }
  split; [|split].
  - intros R net t. subst t.
    unfold Gateway.Gemini.callGeminiWithRetries. rewrite gemini_shape.
    pose proof (loop_budget (Backoff.send net)
                  (fun _ => Gateway.Gemini.isRateLimitError) (fun x => x)
                  initialDelay (send_one_call net) maxRetries 0
                  (JsObject None) w) as H.
    cbv zeta in H. split; [exact H|]. apply Htotal, H.
  - intros net stringify t. subst t.
    unfold Gateway.OpenRouter.callOpenRouterWithRetries.
    rewrite openrouter_shape.
    pose proof (loop_budget (Gateway.OpenRouter.request (Backoff.send net))
                  (fun _ => Gateway.OpenRouter.isRateLimitError)
                  (Gateway.OpenRouter.rethrow stringify)
                  initialDelay (openrouter_request_one_call net) maxRetries 0
                  (JsObject None) w) as H.
    cbv zeta in H. split; [exact H|]. apply Htotal, H.
  - intros net t. subst t.
    unfold Gateway.Grok.callGrokWithRetries. rewrite grok_shape.
    pose proof (loop_budget (Gateway.Grok.request (Backoff.send net))
                  (fun a x => Gateway.Grok.isRateLimitError x
                              && (a <? maxRetries - 1))
                  (fun x => x)
                  initialDelay (grok_request_one_call net) maxRetries 0
                  (JsObject None) w) as H.
    cbv zeta in H. split; [exact H|]. split; [apply Htotal, H|].
    destruct maxRetries as [|k]; [reflexivity|].
    rewrite <- (loop_no_idle_wait (Gateway.Grok.request (Backoff.send net))
                  (fun a x => Gateway.Grok.isRateLimitError x
                              && (a <? S k - 1))
                  (fun x => x) initialDelay (grok_request_one_call net)
                  (S k) k 0 (JsObject None) w).
    + lia.
    + intros a e Hr. apply andb_prop in Hr as [_ Hr].
      apply Nat.ltb_lt in Hr. lia.
    + reflexivity.
Qed.

Section FailFast.
Import Gateway Backoff.
Context {W R A : Type}.
Variable request : Run W (event R) A.
Variable retryable : nat -> thrown -> bool.
Variable final : thrown -> thrown.
Variable base : Z.

Hypothesis one_call :
  forall w, attempts (traceOf (request w)) = 1 /\ delays (traceOf (request w)) = [].

Local Abbreviation loop := (retryShape request retryable final base).

(** After [m] retried failures, a failure that is not retried ends the
    loop. *)
Lemma loop_fails_fast m : forall rem attempt lastError w e,
  m < rem ->
  retried request retryable m attempt w = true ->
  outcomeOf (request (worldAfter request m w)) = inl e ->
  retryable (attempt + m) e = false ->
  let r := loop rem attempt lastError w in
  outcomeOf r = inl (final e)
  /\ delays (traceOf r) = schedule base attempt m
  /\ attempts (traceOf r) = S m
  /\ worldOf r = worldAfter request (S m) w.
Proof.
  induction m as [|m IH]; intros rem attempt lastError w e Hlt Hret He Hno.
  - destruct rem as [|rem]; [lia|]. cbn in He. cbv zeta.
    rewrite Nat.add_0_r in Hno.
    rewrite (loop_stop request retryable final base _ _ _ _ _ He Hno). cbn.
    destruct (one_call w) as [Ha Hd]. now rewrite Ha, Hd.
  - destruct rem as [|rem]; [lia|]. cbn in Hret, He.
    destruct (outcomeOf (request w)) as [e0|a] eqn:He0; [|discriminate].
    apply andb_prop in Hret as [Hr Hret].
    rewrite <- Nat.add_succ_comm in Hno.
    specialize (IH rem (S attempt) e0 (worldOf (request w)) e
                   ltac:(lia) Hret He Hno).
    cbv zeta in *.
    rewrite (loop_retry request retryable final base _ _ _ _ _ He0 Hr).
    destruct (loop rem (S attempt) e0 (worldOf (request w))) as [[t w'] r].
    cbn in *. destruct IH as (Ho & Hd & Ha & Hw).
    destruct (one_call w) as [Ha1 Hd1].
    rewrite delays_app, attempts_app, Ha1, Hd1. unfold schedule in *.
    cbn [delays attempts app map seq Nat.add]. rewrite Hd, Ha. auto.
Qed.
End FailFast.

(** X2: a failure that is not a rate limit ends the wrapper at once, also after
    [m] rate-limited attempts: no further call is made and no timer is set
    after it.  The Gemini and Grok wrappers throw the error as it is, the
    OpenRouter wrapper throws it as [rethrow] rewrites it. *)
Theorem other_failures_are_not_retried :
  forall (W : Type) (maxRetries : nat) (initialDelay : Z) (m : nat) (w : W)
         (e : thrown),
    m < maxRetries ->
    (forall R (net : W -> W * (thrown + R)),
       let request := Backoff.send net in
       let r := Gateway.Gemini.callGeminiWithRetries request maxRetries
                                                     initialDelay w in
       Backoff.rateLimited request Gateway.Gemini.isRateLimitError m w = true ->
       outcomeOf (request (Backoff.worldAfter request m w)) = inl e ->
       Gateway.Gemini.isRateLimitError e = false ->
       outcomeOf r = inl e
       /\ Backoff.delays (traceOf r) = Backoff.schedule initialDelay 0 m
       /\ Backoff.attempts (traceOf r) = S m)
    /\ (forall (net : W -> W * (thrown + Gateway.Grok.HttpResponse)),
       let request := Gateway.Grok.request (Backoff.send net) in
       let r := Gateway.Grok.callGrokWithRetries (Backoff.send net) maxRetries
                                                 initialDelay w in
       Backoff.rateLimited request Gateway.Grok.isRateLimitError m w = true ->
       outcomeOf (request (Backoff.worldAfter request m w)) = inl e ->
       Gateway.Grok.isRateLimitError e = false ->
       outcomeOf r = inl e
       /\ Backoff.delays (traceOf r) = Backoff.schedule initialDelay 0 m
       /\ Backoff.attempts (traceOf r) = S m)
    /\ (forall (net : W -> W * (thrown + Gateway.OpenRouter.HttpResponse))
               (stringify : thrown -> string),
       let request := Gateway.OpenRouter.request (Backoff.send net) in
       let r := Gateway.OpenRouter.callOpenRouterWithRetries
                  (Backoff.send net) stringify maxRetries initialDelay w in
       Backoff.rateLimited request Gateway.OpenRouter.isRateLimitError m w = true ->
       outcomeOf (request (Backoff.worldAfter request m w)) = inl e ->
       Gateway.OpenRouter.isRateLimitError e = false ->
       outcomeOf r = inl (Gateway.OpenRouter.rethrow stringify e)
       /\ Backoff.delays (traceOf r) = Backoff.schedule initialDelay 0 m
       /\ Backoff.attempts (traceOf r) = S m).
Proof.
  intros W maxRetries initialDelay m w e Hm. split; [|split].
  - intros R net request r Hrl He Hno. subst r.
    unfold Gateway.Gemini.callGeminiWithRetries. rewrite gemini_shape.
    edestruct (loop_fails_fast request
                 (fun _ => Gateway.Gemini.isRateLimitError) (fun x => x)
                 initialDelay (send_one_call net) m maxRetries 0
                 (JsObject None) w e) as (Ho & Hd & Ha & _); eauto.
    now rewrite retried_always.
  - intros net request r Hrl He Hno. subst r.
    unfold Gateway.Grok.callGrokWithRetries. rewrite grok_shape.
    edestruct (loop_fails_fast request
                 (fun a x => Gateway.Grok.isRateLimitError x
                             && (a <? maxRetries - 1))
                 (fun x => x)
                 initialDelay (grok_request_one_call net) m maxRetries 0
                 (JsObject None) w e) as (Ho & Hd & Ha & _); eauto.
    + apply retried_below; auto. lia.
    + cbn beta. now rewrite Hno.
  - intros net stringify request r Hrl He Hno. subst r.
    unfold Gateway.OpenRouter.callOpenRouterWithRetries.
    rewrite openrouter_shape.
    edestruct (loop_fails_fast request
                 (fun _ => Gateway.OpenRouter.isRateLimitError)
                 (Gateway.OpenRouter.rethrow stringify)
                 initialDelay (openrouter_request_one_call net) m maxRetries 0
                 (JsObject None) w e) as (Ho & Hd & Ha & _); eauto.
    now rewrite retried_always.
Qed.

(** The Gemini endpoint is out of quota twice and then refuses the key: two
    waits, three calls, and the refusal is thrown; the OpenRouter endpoint
    answers 402 at once: one call, no wait. *)
Lemma other_failures_are_not_retried_witness :
  (let r := Gateway.Gemini.callGeminiWithRetries
              (Backoff.send Endpoint.quotaThenBadKey) 3 2000%Z 0 in
   outcomeOf r = inl Endpoint.badKey
   /\ Backoff.delays (traceOf r) = [2000; 4000]%Z
   /\ Backoff.attempts (traceOf r) = 3)
  /\ (let r := Gateway.OpenRouter.callOpenRouterWithRetries
                 (Backoff.send Endpoint.alwaysUnpaid) (fun _ => "{}")
                 3 2000%Z 0 in
      outcomeOf r = inl (JsError "API Error (402): Insufficient credits")
      /\ Backoff.delays (traceOf r) = []
      /\ Backoff.attempts (traceOf r) = 1).
Proof.
  split.
  - destruct (other_failures_are_not_retried nat 3 2000%Z 2 0 Endpoint.badKey
                ltac:(lia)) as (G & _ & _).
    apply (G _ Endpoint.quotaThenBadKey); reflexivity.
  - destruct (other_failures_are_not_retried nat 3 2000%Z 0 0
                (JsHttp 402 (Some "Insufficient credits"))
                ltac:(lia)) as (_ & _ & O).
    apply (O Endpoint.alwaysUnpaid (fun _ => "{}")); reflexivity.
Defined.

(* --------------------------------------------------------------------- *)
(** ** Strings *)

Section StringFacts.

Lemma append_nil_r (s : string) : (s ++ "")%string = s.
Proof. induction s as [|c s IH]; cbn; congruence. Qed.

Lemma append_assoc (a b c : string) :
  ((a ++ b) ++ c)%string = (a ++ (b ++ c))%string.
Proof. induction a as [|x a IH]; cbn; congruence. Qed.

Lemma prefix_app (p s : string) : String.prefix p (p ++ s) = true.
Proof.
  induction p as [|c p IH]; cbn; [now destruct s|].
  destruct (ascii_dec c c); [exact IH | congruence].
Qed.

Lemma prefix_app_l (p a b : string) :
  String.prefix p a = true -> String.prefix p (a ++ b) = true.
Proof.
  revert a. induction p as [|c p IH]; intros a H; cbn in *.
  - now destruct (a ++ b)%string.
  - destruct a as [|x a]; cbn in H |- *; [discriminate|].
    destruct (ascii_dec c x); [auto | discriminate].
Qed.

Lemma includes_app_r (a b needle : string) :
  Js.includes b needle = true -> Js.includes (a ++ b) needle = true.
Proof.
  intros H. induction a as [|c a IH]; cbn; auto.
  rewrite IH. apply orb_true_r.
Qed.

Lemma includes_app_l (a b needle : string) :
  Js.includes a needle = true -> Js.includes (a ++ b) needle = true.
Proof.
  induction a as [|c a IH]; cbn; intros H.
  - rewrite orb_false_r in H. destruct needle; [|discriminate].
    destruct b; reflexivity.
  - apply orb_prop in H as [H|H].
    + pose proof (prefix_app_l needle (String c a) b H) as Hp.
      cbn in Hp. now rewrite Hp.
    + rewrite (IH H). apply orb_true_r.
Qed.

Lemma substring_skip (p : string) : forall n s,
  String.substring (String.length p) n (p ++ s) = String.substring 0 n s.
Proof. induction p as [|c p IH]; intros n s; cbn; auto. Qed.

Lemma substring_0_length (s : string) :
  String.substring 0 (String.length s) s = s.
Proof.
  rewrite <- (append_nil_r s) at 2. apply substring_all.
Qed.

Lemma trimStart_blank (ws s : string) :
  allWhiteSpace ws = true -> Js.trimStart (ws ++ s) = Js.trimStart s.
Proof.
  induction ws as [|c ws IH]; cbn; auto. intros H.
  apply andb_prop in H as [Hc H]. rewrite Hc. auto.
Qed.

Lemma trimStart_fixed (s rest : string) :
  s <> "" -> Js.trimStart s = s -> Js.trimStart (s ++ rest) = (s ++ rest)%string.
Proof.
  destruct s as [|c s]; [congruence|]. intros _. cbn.
  destruct (Js.isWhiteSpace c) eqn:Hc; auto.
  intros H. exfalso.
  assert (forall t, String.length (Js.trimStart t) <= String.length t) as Hle.
  { induction t as [|x t IHt]; cbn; auto.
    destruct (Js.isWhiteSpace x); cbn; lia. }
  specialize (Hle s). rewrite H in Hle. cbn in Hle. lia.
Qed.

Lemma trimEnd_blank_all (ws : string) :
  allWhiteSpace ws = true -> Js.trimEnd ws = "".
Proof.
  induction ws as [|c ws IH]; cbn; auto. intros H.
  apply andb_prop in H as [Hc H]. now rewrite (IH H), Hc.
Qed.

(** [trimEnd] of a concatenation. *)
Lemma trimEnd_app (a b : string) :
  Js.trimEnd (a ++ b)
  = match Js.trimEnd b with
    | EmptyString => Js.trimEnd a
    | _ => (a ++ Js.trimEnd b)%string
    end.
Proof.
  induction a as [|c a IH]; cbn.
  - now destruct (Js.trimEnd b).
  - rewrite IH. destruct (Js.trimEnd b); [reflexivity|].
    destruct a; reflexivity.
Qed.

Lemma trimEnd_blank (s ws : string) :
  allWhiteSpace ws = true -> Js.trimEnd (s ++ ws) = Js.trimEnd s.
Proof.
  intros H. now rewrite trimEnd_app, (trimEnd_blank_all ws H).
Qed.
End StringFacts.

(* --------------------------------------------------------------------- *)
(** ** What the wrappers take for a rate limit, and what they throw *)

(** X3: the Grok wrapper reads a rate limit off the text of the error: a
    response that is not ok is taken for a rate limit when its status is
    429, and also when its body contains "429" or "too many requests",
    whatever its status.  With two attempts or more the wrapper then waits
    [initialDelay] and calls again. *)
Theorem grok_rate_limit_is_read_off_the_text :
  forall (W : Type) (net : W -> W * (thrown + Gateway.Grok.HttpResponse))
         (w : W) (response : Gateway.Grok.HttpResponse),
    snd (net w) = inr response ->
    Gateway.Grok.ok response = false ->
    Gateway.Grok.status response = 429
    \/ Js.includes (Gateway.Grok.text response) "429" = true
    \/ Js.includes (Gateway.Grok.text response) "too many requests" = true ->
    let e := JsError ("API request failed: "
                      ++ Js.toString (Gateway.Grok.status response) ++ " "
                      ++ Gateway.Grok.text response) in
    outcomeOf (Gateway.Grok.request (Backoff.send net) w) = inl e
    /\ Gateway.Grok.isRateLimitError e = true
    /\ forall (maxRetries : nat) (initialDelay : Z),
         2 <= maxRetries ->
         exists rest,
           traceOf (Gateway.Grok.callGrokWithRetries (Backoff.send net)
                      maxRetries initialDelay w)
           = Gateway.Attempt (inr response) :: Gateway.Delay initialDelay
               :: rest
           /\ 0 < Backoff.attempts rest.
Proof.
  intros W net w response Hnet Hok Hwhy e.
  assert (Gateway.Grok.request (Backoff.send net) w
          = ([Gateway.Attempt (inr response)], fst (net w), inl e)) as Hreq.
  { unfold Gateway.Grok.request. rewrite run_bind, send_run, Hnet, Hok.
    reflexivity. }
  assert (Gateway.Grok.isRateLimitError e = true) as Hrl.
  { unfold Gateway.Grok.isRateLimitError, Gateway.messageIncludes. subst e.
    cbn [messageOf]. apply orb_true_iff.
    destruct Hwhy as [Hs | [Ht | Ht]].
    - left. rewrite Hs. apply includes_app_r. reflexivity.
    - left. apply includes_app_r, includes_app_r, includes_app_r. exact Ht.
    - right. apply includes_app_r, includes_app_r, includes_app_r. exact Ht. }
  split; [now rewrite Hreq|]. split; [exact Hrl|].
  intros maxRetries initialDelay Hmax.
  unfold Gateway.Grok.callGrokWithRetries. rewrite grok_shape.
  destruct maxRetries as [|k]; [lia|].
  rewrite (loop_retry (Gateway.Grok.request (Backoff.send net))
             (fun a x => Gateway.Grok.isRateLimitError x && (a <? S k - 1))
             (fun x => x) initialDelay k 0 (JsObject None) w e).
  2:{ now rewrite Hreq. }
  2:{ cbn beta. rewrite Hrl. apply andb_true_iff. split; [reflexivity|].
      apply Nat.ltb_lt. lia. }
  pose proof (loop_budget (Gateway.Grok.request (Backoff.send net))
                (fun a x => Gateway.Grok.isRateLimitError x && (a <? S k - 1))
                (fun x => x) initialDelay (grok_request_one_call net) k 1 e
                (worldOf (Gateway.Grok.request (Backoff.send net) w))) as H.
  cbv zeta in H.
  destruct (Backoff.retryShape _ _ _ _ k 1 e _) as [[t w'] r].
  rewrite Hreq. cbn [traceOf fst snd app] in *.
  exists t. split.
  - unfold Js.pow2. cbn [Z.of_nat Z.pow]. now rewrite Z.mul_1_r.
  - apply H. lia.
Qed.

(** A server error whose body contains the digits 429 is retried. *)
Lemma grok_rate_limit_is_read_off_the_text_witness :
  Gateway.Grok.isRateLimitError
    (JsError "API request failed: 500 upstream failure, trace 14290") = true
  /\ exists rest,
       traceOf (Gateway.Grok.callGrokWithRetries
                  (Backoff.send Endpoint.alwaysServerError) 3 2000%Z 0)
       = Gateway.Attempt (inr Endpoint.serverError)
           :: Gateway.Delay 2000%Z :: rest
       /\ 0 < Backoff.attempts rest.
Proof.
  destruct (grok_rate_limit_is_read_off_the_text nat
              Endpoint.alwaysServerError 0 Endpoint.serverError
              eq_refl eq_refl (or_intror (or_introl eq_refl)))
    as (_ & Hrl & Hretry).
  split; [exact Hrl|]. apply Hretry. lia.
Defined.

(** X4: what reaches the user of the OpenRouter variant.  When every attempt is
    answered with status 429 the wrapper throws the last [errorInfo] object
    as it is; that is no [Error], and the orchestrator reports it as an
    unknown error.  A response that is not ok, has another status and carries
    an error message is thrown at once as an [Error] that names the status
    and the message, and the orchestrator reports that text. *)
Theorem openrouter_failure_reports :
  forall (W : Type)
         (net : W -> W * (thrown + Gateway.OpenRouter.HttpResponse))
         (stringify : thrown -> string) (maxRetries : nat)
         (initialDelay : Z) (w : W),
    0 < maxRetries ->
    let request := Gateway.OpenRouter.request (Backoff.send net) in
    let r := Gateway.OpenRouter.callOpenRouterWithRetries
               (Backoff.send net) stringify maxRetries initialDelay w in
    (Backoff.rateLimited request Gateway.OpenRouter.isRateLimitError
                         maxRetries w = true ->
     exists apiMessage,
       outcomeOf r = inl (JsHttp 429 apiMessage)
       /\ Backoff.attempts (traceOf r) = maxRetries
       /\ instanceofError (JsHttp 429 apiMessage) = false
       /\ Pipeline.OpenRouter.describe (JsHttp 429 apiMessage)
          = Pipeline.unknownError)
    /\ (forall (response : Gateway.OpenRouter.HttpResponse) (message : string),
          snd (net w) = inr response ->
          Gateway.OpenRouter.ok response = false ->
          Gateway.OpenRouter.status response <> 429 ->
          Gateway.OpenRouter.errorMessage response = Some message ->
          let text := ("API Error ("
                       ++ Js.toString (Gateway.OpenRouter.status response)
                       ++ "): " ++ message)%string in
          outcomeOf r = inl (JsError text)
          /\ Backoff.attempts (traceOf r) = 1
          /\ Backoff.delays (traceOf r) = []
          /\ Pipeline.OpenRouter.describe (JsError text) = text).
Proof.
  intros W net stringify maxRetries initialDelay w Hmax request r. subst r.
  unfold Gateway.OpenRouter.callOpenRouterWithRetries.
  rewrite openrouter_shape. destruct maxRetries as [|k]; [lia|]. split.
  - intros Hrl. apply rateLimited_last in Hrl as [Hrl (e & He & Hrl')].
    edestruct (loop_gives_up request
                 (fun _ => Gateway.OpenRouter.isRateLimitError)
                 (Gateway.OpenRouter.rethrow stringify) initialDelay
                 (openrouter_request_one_call net) k 0
                 (JsObject None) w) as (Ho & Hd & Ha & Hw); eauto.
    { now rewrite retried_always. }
    destruct e as [m | m | status apiMessage]; try discriminate Hrl'.
    cbn in Hrl'. apply Nat.eqb_eq in Hrl'. subst status.
    exists apiMessage. auto.
  - intros response message Hnet Hok Hstatus Hmsg. subst request.
    assert (Gateway.OpenRouter.request (Backoff.send net) w
            = ([Gateway.Attempt (inr response)], fst (net w),
               inl (JsHttp (Gateway.OpenRouter.status response)
                           (Some message)))) as Hreq.
    { unfold Gateway.OpenRouter.request.
      rewrite run_bind, send_run, Hnet, Hok, Hmsg. reflexivity. }
    rewrite (loop_stop (Gateway.OpenRouter.request (Backoff.send net))
               (fun _ => Gateway.OpenRouter.isRateLimitError)
               (Gateway.OpenRouter.rethrow stringify) initialDelay k 0
               (JsObject None) w
               (JsHttp (Gateway.OpenRouter.status response) (Some message))).
    + rewrite Hreq. cbn. auto.
    + now rewrite Hreq.
    + cbn. now apply Nat.eqb_neq.
Qed.

(** An endpoint that is always busy: three calls, then the object with
    status 429 is thrown and reported as an unknown error; an endpoint that
    wants to be paid: one call, and the message of its reply is reported. *)
Lemma openrouter_failure_reports_witness :
  (exists apiMessage,
     outcomeOf (Gateway.OpenRouter.callOpenRouterWithRetries
                  (Backoff.send Endpoint.alwaysBusy) (fun _ => "{}")
                  3 2000%Z 0)
     = inl (JsHttp 429 apiMessage)
     /\ Pipeline.OpenRouter.describe (JsHttp 429 apiMessage)
        = "An unknown error occurred while processing the book.")
  /\ outcomeOf (Gateway.OpenRouter.callOpenRouterWithRetries
                  (Backoff.send Endpoint.alwaysUnpaid) (fun _ => "{}")
                  3 2000%Z 0)
     = inl (JsError "API Error (402): Insufficient credits").
Proof.
  split.
  - destruct (openrouter_failure_reports nat Endpoint.alwaysBusy
                (fun _ => "{}") 3 2000%Z 0 ltac:(lia)) as [H _].
    destruct (H eq_refl) as (apiMessage & Ho & _ & _ & Hd).
    exists apiMessage. split; [exact Ho | exact Hd].
  - destruct (openrouter_failure_reports nat Endpoint.alwaysUnpaid
                (fun _ => "{}") 3 2000%Z 0 ltac:(lia)) as [_ H].
    destruct (H Endpoint.unpaid "Insufficient credits" eq_refl eq_refl
                ltac:(discriminate) eq_refl) as (Ho & _).
    exact Ho.
Defined.

(* --------------------------------------------------------------------- *)
(** ** Markdown fences around a reply *)

Lemma stripFenceEnd_fenced (s : string) :
  Gateway.stripFenceEnd (s ++ "```") = Js.trimEnd s.
Proof.
  unfold Gateway.stripFenceEnd, Gateway.fence.
  rewrite length_append. cbn [String.length].
  replace (String.length s + 3 - 3) with (String.length s) by lia.
  replace (3 <=? String.length s + 3) with true
    by (symmetry; apply Nat.leb_le; lia).
  rewrite substring_skip, substring_all. reflexivity.
Qed.

Lemma stripFenceStart_fenced (s : string) :
  Gateway.stripFenceStart ("```json" ++ s) = Js.trimStart s.
Proof.
  unfold Gateway.stripFenceStart. rewrite prefix_app, length_append.
  change (String.length "```json") with 7.
  replace (7 + String.length s - 7) with (String.length s) by lia.
  rewrite (substring_skip "```json"), substring_0_length. reflexivity.
Qed.

(** X5: a reply wrapped in a fence, [```json] before and [```] after with any
    white space around the body, is decoded as its body: [sanitize] gives
    the body back, so the Grok and the Gemini parser hand the body to
    [JSON.parse].  The parser of the OpenRouter variant does not sanitize:
    it hands the reply to [JSON.parse] with its fence. *)
Theorem fenced_reply_is_unwrapped :
  forall (body before after : string),
    allWhiteSpace before = true ->
    allWhiteSpace after = true ->
    Js.trimStart body = body ->
    Js.trimEnd body = body ->
    let reply := ("```json" ++ before ++ body ++ after ++ "```")%string in
    Gateway.sanitize reply = body
    /\ forall (T : Type) (JSON_parse : string -> string + T),
         Gateway.Grok.safeParseJsonResponse JSON_parse reply
         = match JSON_parse body with
           | inr value => inr value
           | inl _ => inl (JsError "Invalid response format from API")
           end
         /\ (forall candidates,
              Gateway.Gemini.safeParseJsonResponse JSON_parse
                {| Gateway.Gemini.text := Some reply;
                   Gateway.Gemini.candidates := candidates |}
              = match JSON_parse body with
                | inr value => inr value
                | inl message =>
                    inl (JsError ("Invalid JSON response from API: "
                                  ++ message))
                end)
         /\ (forall finish_reason,
              Gateway.OpenRouter.safeParseJsonResponse JSON_parse
                {| Gateway.OpenRouter.choices :=
                     Some [ {| Gateway.OpenRouter.content := Some reply;
                               Gateway.OpenRouter.finish_reason :=
                                 finish_reason |} ] |}
              = match JSON_parse reply with
                | inr value => inr value
                | inl message =>
                    inl (JsError ("Invalid JSON response from API: "
                                  ++ message))
                end).
Proof.
  intros body before after Hb Ha Hs He reply.
  assert (Gateway.sanitize reply = body) as Hsan.
  { unfold Gateway.sanitize, reply. rewrite stripFenceStart_fenced.
    rewrite trimStart_blank by exact Hb.
    destruct (String.eqb_spec body "") as [->|Hne].
    - cbn [String.append]. rewrite trimStart_blank by exact Ha.
      reflexivity.
    - rewrite trimStart_fixed by auto.
      rewrite <- append_assoc, stripFenceEnd_fenced.
      rewrite trimEnd_blank by exact Ha. exact He. }
  assert (Gateway.emptyText (Some reply) = false) as Hfull.
  { unfold Gateway.emptyText, Js.trim.
    assert (Js.trimStart reply = reply) as -> by reflexivity.
    assert (Js.trimEnd reply = reply) as ->.
    { unfold reply.
      replace ("```json" ++ before ++ body ++ after ++ "```")%string
        with (("```json" ++ before ++ body ++ after) ++ "```")%string.
      - rewrite trimEnd_app. reflexivity.
      - now rewrite !append_assoc. }
    reflexivity. }
  split; [exact Hsan|]. intros T JSON_parse. split; [|split].
  - unfold Gateway.Grok.safeParseJsonResponse. now rewrite Hsan.
  - intros candidates. unfold Gateway.Gemini.safeParseJsonResponse.
    cbn [Gateway.Gemini.text orElse]. now rewrite Hfull, Hsan.
  - intros finish_reason. unfold Gateway.OpenRouter.safeParseJsonResponse.
    cbn [Gateway.OpenRouter.firstChoice Gateway.OpenRouter.choices
         Gateway.OpenRouter.content orElse].
    now rewrite Hfull.
Qed.

(** The fenced array of the examples, with a line break on both sides. *)
Lemma fenced_reply_is_unwrapped_witness :
  Gateway.sanitize ("```json" ++ String "010" "" ++ "[1, 2]"
                    ++ String "010" "" ++ "```") = "[1, 2]".
Proof.
  apply (fenced_reply_is_unwrapped "[1, 2]" (String "010" "")
           (String "010" "") eq_refl eq_refl eq_refl eq_refl).
Defined.

(* ===================================================================== *)
(** * Further properties of the orchestrator *)
(* ===================================================================== *)

Section Pacing.
Import Pipeline Trace Pace.
Variable model : Model.

Lemma spaced_next ms n :
  spaced ms (S (S n)) = call :: pause ms :: spaced ms (S n).
Proof. reflexivity. Qed.

Lemma generateLoop_rhythm remaining : forall i state notes w,
  i + remaining = List.length (titles state) ->
  let t := traceOf (generateLoop model remaining i state notes w) in
  rhythm t = spaced 1500 (List.length (generateCalls t))
  /\ (0 < remaining -> 0 < List.length (generateCalls t)).
Proof.
  induction remaining as [|remaining IH]; intros i state notes w Hsum;
    cbv zeta.
  - cbn. split; [reflexivity | lia].
  - rewrite generateLoop_step. cbv zeta.
    destruct (bodyReply model (inputText state) (nth i (titles state) "") w)
      as [w1 [e|body]].
    + cbn. split; [reflexivity | lia].
    + destruct remaining as [|remaining].
      * replace (i <? List.length (titles state) - 1) with false
          by (symmetry; apply Nat.ltb_ge; lia).
        cbn. split; [reflexivity | lia].
      * specialize (IH (S i)
          (withUnlinkedNotes state
             (notes ++ [withTitle (nth i (titles state) "") body]))
          (notes ++ [withTitle (nth i (titles state) "") body]) w1
          ltac:(cbn; lia)).
        cbv zeta in IH.
        destruct (generateLoop _ _ _ _ _ _) as [[t w2] r].
        cbn [traceOf fst] in *. destruct IH as [IH Hpos].
        unfold rhythm, generateCalls in *.
        rewrite !collect_cons, !collect_app. cbn [beatOf generateCallOf app].
        replace (i <? List.length (titles state) - 1) with true
          by (symmetry; apply Nat.ltb_lt; lia).
        cbn [collect flat_map beatOf generateCallOf app List.length].
        rewrite IH. specialize (Hpos ltac:(lia)).
        destruct (List.length (collect generateCallOf t)) as [|m]; [lia|].
        split; [reflexivity | lia].
Qed.

Lemma interlinkLoop_rhythm remaining : forall i state all final w,
  i + remaining = List.length (unlinkedNotes state) ->
  let t := traceOf (OpenRouter.interlinkLoop model remaining i state all
                                             final w) in
  rhythm t = spaced 1500 (List.length (interlinkCalls t))
  /\ (0 < remaining -> 0 < List.length (interlinkCalls t)).
Proof.
  induction remaining as [|remaining IH]; intros i state all final w Hsum;
    cbv zeta.
  - cbn. split; [reflexivity | lia].
  - rewrite interlinkLoop_step. cbv zeta.
    match goal with
    | |- context [contentReply ?m ?x ?o ?w] =>
        destruct (contentReply m x o w) as [w1 [e|newContent]]
    end.
    + cbn. split; [reflexivity | lia].
    + destruct remaining as [|remaining].
      * replace (i <? List.length (unlinkedNotes state) - 1) with false
          by (symmetry; apply Nat.ltb_ge; lia).
        cbn. split; [reflexivity | lia].
      * match goal with
        | |- context [OpenRouter.interlinkLoop model ?rem (S i) state all ?f w1] =>
            specialize (IH (S i) state all f w1 ltac:(lia)); cbv zeta in IH;
            destruct (OpenRouter.interlinkLoop model rem (S i) state all f w1)
              as [[t w2] r]
        end.
        cbn [traceOf fst] in *. destruct IH as [IH Hpos].
        unfold rhythm, interlinkCalls in *.
        rewrite !collect_cons, !collect_app. cbn [beatOf interlinkCallOf app].
        replace (i <? List.length (unlinkedNotes state) - 1) with true
          by (symmetry; apply Nat.ltb_lt; lia).
        cbn [collect flat_map beatOf interlinkCallOf app List.length].
        rewrite IH. specialize (Hpos ltac:(lia)).
        destruct (List.length (collect interlinkCallOf t)) as [|m]; [lia|].
        split; [reflexivity | lia].
Qed.
End Pacing.

(** X6: the requests of a loop are spaced: phase 2 sets a timer of 1500 ms
    between two requests for a note body and none before the first or after
    the last, whether it completes or stops at a rejected request; so does
    the per-note interlink between two requests for a note. *)
Theorem requests_are_spaced :
  forall (model : Pipeline.Model) (state : ProcessingState)
         (w : Pipeline.World model),
    (let t := traceOf (Pipeline.generatePhase model state w) in
     Pace.rhythm t
     = Pace.spaced 1500 (List.length (Trace.generateCalls t)))
    /\ (let t := traceOf (Service.openRouterInterlink model state w) in
        Pace.rhythm t
        = Pace.spaced 1500 (List.length (Trace.interlinkCalls t))).
Proof.
  intros model state w. split; cbv zeta.
  - rewrite generatePhase_run.
    destruct (Nat.ltb_spec (List.length (unlinkedNotes state))
                           (List.length (titles state))) as [Hlt|Hge];
      [|reflexivity].
    pose proof (generateLoop_rhythm model
                  (List.length (titles state)
                   - List.length (unlinkedNotes state))
                  (List.length (unlinkedNotes state)) state
                  (unlinkedNotes state) w ltac:(lia)) as [H _].
    cbv zeta in H.
    destruct (Pipeline.generateLoop _ _ _ _ _ _) as [[t w'] [e|r]];
      exact H.
  - unfold Service.openRouterInterlink.
    apply (interlinkLoop_rhythm model (List.length (unlinkedNotes state)) 0
             state _ [] w eq_refl).
Qed.

Section Frames.
Import Pipeline Trace.
Variable model : Model.

Lemma skipn_nth {A} (l : list A) : forall i d,
  i < List.length l -> skipn i l = nth i l d :: skipn (S i) l.
Proof.
  induction l as [|x l IH]; intros i d H; cbn in H; [lia|].
  destruct i as [|i]; [reflexivity|].
  cbn [skipn nth]. rewrite (IH i d) by lia. reflexivity.
Qed.

Lemma interlinkLoop_frames remaining : forall i state all final w result,
  i + remaining = List.length (unlinkedNotes state) ->
  outcomeOf (OpenRouter.interlinkLoop model remaining i state all final w)
  = inr result ->
  map Frame.ofNote result
  = map Frame.ofNote final
    ++ map Frame.ofUnlinked (skipn i (unlinkedNotes state)).
Proof.
  induction remaining as [|remaining IH];
    intros i state all final w result Hsum.
  - cbn. intros [= <-]. rewrite skipn_all2 by lia. cbn.
    now rewrite app_nil_r.
  - rewrite interlinkLoop_step. cbv zeta.
    match goal with
    | |- context [contentReply ?m ?x ?o ?w] =>
        destruct (contentReply m x o w) as [w1 [e|newContent]]
    end; [discriminate|].
    match goal with
    | |- context [OpenRouter.interlinkLoop model remaining (S i) state all ?f w1] =>
        specialize (IH (S i) state all f w1 result ltac:(lia));
        destruct (OpenRouter.interlinkLoop model remaining (S i) state all f w1)
          as [[t w2] r]
    end.
    cbn [outcomeOf snd] in *. intros H. rewrite (IH H).
    rewrite (skipn_nth (unlinkedNotes state) i OpenRouter.noNote) by lia.
    rewrite map_app. cbn [map]. rewrite <- app_assoc. reflexivity.
Qed.

Lemma mapi_from_setId_frames l : forall k,
  map Frame.ofNote (mapi_from (fun note index => setId note (noteId index)) k l)
  = map Frame.ofNote l.
Proof.
  induction l as [|x l IH]; intros k; cbn [mapi_from map]; [reflexivity|].
  now rewrite IH.
Qed.
End Frames.

(** X7: the per-note interlink keeps the notes: on success there is one final
    note for each unlinked note, in the same order and with the same title,
    quotes and source; only the content comes from the model.  The batch
    interlink returns the notes of the model's reply: as many as the reply
    holds, with the titles, quotes and sources of the reply. *)
Theorem per_note_interlink_keeps_the_notes :
  forall (model : Pipeline.Model) (state : ProcessingState)
         (w : Pipeline.World model) (final : list Note.t),
    (outcomeOf (Service.openRouterInterlink model state w) = inr final ->
     map Frame.ofNote final = map Frame.ofUnlinked (unlinkedNotes state))
    /\ (outcomeOf (Service.grokInterlink model state w) = inr final ->
        exists linked,
          snd (Pipeline.notesReply model
                 (mapi (fun note index => withId note (noteId index))
                       (unlinkedNotes state)) w) = inr linked
          /\ map Frame.ofNote final = map Frame.ofNote linked).
Proof.
  intros model state w final. split.
  - unfold Service.openRouterInterlink. intros H.
    apply (interlinkLoop_frames model _ 0 state _ [] w final eq_refl H).
  - rewrite grokInterlink_run. cbv zeta.
    destruct (Pipeline.notesReply model _ w) as [w1 [e|linked]];
      [discriminate|].
    cbn [outcomeOf snd]. intros [= <-]. exists linked. split; [reflexivity|].
    apply mapi_from_setId_frames.
Qed.

(** The two notes of the examples, linked one by one: their titles, quotes
    and sources are kept. *)
Lemma per_note_interlink_keeps_the_notes_witness :
  exists final,
    outcomeOf (Service.openRouterInterlink Fixture.reliable
                 Fixture.generated 0) = inr final
    /\ map Frame.ofNote final
       = [("A", ["a"], "p. 1"); ("B", ["b"], "p. 2")].
Proof.
  eexists. split; [reflexivity|].
  apply (proj1 (per_note_interlink_keeps_the_notes Fixture.reliable
                  Fixture.generated 0 _)).
  reflexivity.
Defined.

Section EmptyExtraction.
Import Pipeline Trace.
Variable model : Model.

(** A run on a session without titles begins with the extraction. *)
Lemma run_extracts_first apiErrorMessage service st w :
  In service (Service.all model apiErrorMessage) ->
  titles st = [] ->
  exists outcome rest,
    traceOf (Service.run service st w)
    = Progress (stageStatusUpdate "Phase 1/3: Extracting core concepts..."
                                  Status.processing)
        :: ExtractConcepts (inputText st) outcome :: rest.
Proof.
  intros Hin Ht.
  destruct (service_shape model apiErrorMessage service Hin)
    as (interlink & _ & ->).
  rewrite orchestrate_run, extractPhase_run by exact Ht. cbv zeta.
  destruct (titlesReply model (inputText st) w) as [w1 [e|ts]].
  - cbn. eauto.
  - destruct (generatePhase model _ w1) as [[t2 w2] [e|s2]].
    + cbn. eauto.
    + destruct (interlinkDue s2).
      * destruct (interlink s2 w2) as [[t3 w3] [e|final]]; cbn; eauto.
      * cbn. eauto.
Qed.
End EmptyExtraction.

(** X8: an extraction that finds no concept, on a session that holds its input
    text only.  The per-note service completes at once with no notes and no
    further request; the Grok service still asks the model to interlink the
    empty list and takes the notes of the reply as final notes.  The empty
    list of titles is not told apart from titles not yet extracted: the
    next run on the completed session, by any of the services, begins with
    the extraction again. *)
Theorem nothing_extracted :
  forall (model : Pipeline.Model) (apiErrorMessage : string -> option string)
         (state : ProcessingState) (w w1 : Pipeline.World model),
    titles state = [] -> unlinkedNotes state = [] -> finalNotes state = [] ->
    Pipeline.titlesReply model (inputText state) w = (w1, inr []) ->
    let announce :=
      Pipeline.Progress
        (Pipeline.stageStatusUpdate "Phase 1/3: Extracting core concepts..."
                                    Status.processing) in
    let extract := Pipeline.ExtractConcepts (inputText state) (inr []) in
    let done :=
      [announce; extract; Pipeline.Progress (Pipeline.titlesUpdate []);
       Pipeline.Progress (Pipeline.completedUpdate [])] in
    Pipeline.OpenRouter.processBookWithGemini model state w
    = (done, w1, inr [])
    /\ (forall w2 linked,
          Pipeline.notesReply model [] w1 = (w2, inr linked) ->
          let final :=
            mapi (fun note index => setId note (noteId index)) linked in
          Pipeline.Grok.processBookWithGrok model state w
          = ([announce; extract; Pipeline.Progress (Pipeline.titlesUpdate []);
              Pipeline.Progress
                (Pipeline.stageUpdate
                   "Phase 3/3: Weaving the knowledge graph...");
              Pipeline.InterlinkNotes [] (inr linked);
              Pipeline.Progress (Pipeline.completedUpdate final)],
             w2, inr final))
    /\ (let session := App.replay done state in
        status session = Status.completed
        /\ titles session = []
        /\ forall service w',
             In service (Service.all model apiErrorMessage) ->
             exists outcome rest,
               traceOf (Service.run service session w')
               = announce
                   :: Pipeline.ExtractConcepts (inputText state) outcome
                   :: rest).
Proof.
  intros model apiErrorMessage state w w1 Ht Hu Hf Hreply announce extract done.
  split; [|split].
  - rewrite openRouter_orchestrates, orchestrate_run, extractPhase_run
      by exact Ht.
    cbv zeta. rewrite Hreply, generatePhase_run.
    destruct state as [st sg text ts us fs er]. cbn in Ht, Hu, Hf. subst.
    cbn [unlinkedNotes titles Pipeline.withTitles List.length Nat.ltb
         Nat.leb].
    replace (Pipeline.interlinkDue _) with true
      by (unfold Pipeline.interlinkDue; cbn; now rewrite orb_true_r).
    reflexivity.
  - intros w2 linked Hlinked final.
    rewrite grok_orchestrates, orchestrate_run, extractPhase_run by exact Ht.
    cbv zeta. rewrite Hreply, generatePhase_run.
    destruct state as [st sg text ts us fs er]. cbn in Ht, Hu, Hf. subst.
    cbn [unlinkedNotes titles Pipeline.withTitles List.length Nat.ltb
         Nat.leb].
    replace (Pipeline.interlinkDue _) with true
      by (unfold Pipeline.interlinkDue; cbn; now rewrite orb_true_r).
    rewrite grokInterlink_run. cbv zeta.
    cbn [unlinkedNotes Pipeline.withTitles mapi mapi_from].
    rewrite Hlinked. reflexivity.
  - cbv zeta. destruct state as [st sg text ts us fs er].
    cbn in Ht, Hu, Hf. subst. cbn [inputText].
    split; [reflexivity|]. split; [reflexivity|].
    intros service w' Hin.
    exact (run_extracts_first model apiErrorMessage service
             (App.replay done (mkState st sg text [] [] [] er)) w' Hin
             eq_refl).
Qed.

(** A model that finds nothing in the book: the per-note service completes
    with no notes after the one request, and the completed session has no
    titles. *)
Lemma nothing_extracted_witness :
  outcomeOf (Pipeline.OpenRouter.processBookWithGemini Barren.model
               (Fixture.fresh "book") 0) = inr []
  /\ worldOf (Pipeline.OpenRouter.processBookWithGemini Barren.model
                (Fixture.fresh "book") 0) = 1
  /\ outcomeOf (Pipeline.Grok.processBookWithGrok Barren.model
                  (Fixture.fresh "book") 0) = inr [].
Proof.
  destruct (nothing_extracted Barren.model (fun _ => None)
              (Fixture.fresh "book") 0 1 eq_refl eq_refl eq_refl eq_refl)
    as (H1 & H2 & _).
  rewrite H1, (H2 2 [] eq_refl). repeat split.
Defined.

(* ===================================================================== *)
(** * Further properties of the cross-references *)
(* ===================================================================== *)

(** X9: the graph is closed: every link starts at the id of a node and ends at
    the id of a node, so the force layout finds both ends of every link
    among the nodes it is given. *)
Theorem links_join_nodes :
  forall (notes : list Note.t) (link : NetworkGraph.D3Link),
    In link (NetworkGraph.newLinks notes) ->
    In (NetworkGraph.source link)
       (map NetworkGraph.id (NetworkGraph.newNodes notes))
    /\ In (NetworkGraph.target link)
          (map NetworkGraph.id (NetworkGraph.newNodes notes)).
Proof.
  intros notes link H.
  assert (forall n, In n notes ->
                    In (Note.id n)
                       (map NetworkGraph.id (NetworkGraph.newNodes notes)))
    as Hid.
  { intros n Hn. unfold NetworkGraph.newNodes. rewrite map_map. cbn.
    now apply (in_map Note.id). }
  unfold NetworkGraph.newLinks in H.
  apply in_flat_map in H as (note & Hnote & H).
  apply in_flat_map in H as (matched & _ & H).
  unfold NetworkGraph.linksOfMatch in H.
  rewrite titleToIdMap_get in H.
  destruct (find _ (rev notes)) as [found|] eqn:Hfind; cbn in H; [|easy].
  apply find_some in Hfind as [Hfound _]. apply in_rev in Hfound.
  destruct (negb _ && negb _); [|easy].
  destruct H as [<-|[]]. cbn. auto.
Qed.

(** In the notes of the examples the one link joins "note_000" and
    "note_001", the ids of the two nodes. *)
Lemma links_join_nodes_witness :
  In "note_000"
     (map NetworkGraph.id (NetworkGraph.newNodes (finalNotes Fixture.finished)))
  /\ In "note_001"
        (map NetworkGraph.id
             (NetworkGraph.newNodes (finalNotes Fixture.finished))).
Proof.
  apply (links_join_nodes (finalNotes Fixture.finished)
           {| NetworkGraph.source := "note_000";
              NetworkGraph.target := "note_001" |}).
  left. reflexivity.
Defined.

Section ScanFacts.
Import NoteView.

Lemma stripPrefix_some p : forall s r,
  stripPrefix p s = Some r -> s = (p ++ r)%string.
Proof.
  induction p as [|a p IH]; intros s r H; cbn in *.
  - now injection H as ->.
  - destruct s as [|b s]; [discriminate|].
    destruct (Ascii.eqb_spec a b) as [->|]; [|discriminate].
    now rewrite (IH s r H).
Qed.

Lemma stripPrefix_app p s : stripPrefix p (p ++ s) = Some s.
Proof.
  induction p as [|a p IH]; cbn; auto. now rewrite Ascii.eqb_refl.
Qed.

Lemma prefix_stripPrefix p : forall x y,
  String.prefix p x = true -> stripPrefix p (x ++ y) <> None.
Proof.
  induction p as [|a p IH]; intros x y H; cbn in *; [discriminate|].
  destruct x as [|b x]; cbn in H |- *; [discriminate|].
  destruct (ascii_dec a b) as [->|]; [|discriminate].
  rewrite Ascii.eqb_refl. now apply IH.
Qed.

Lemma lazyUpTo_unfold closing s :
  lazyUpTo closing s
  = match stripPrefix closing s with
    | Some after => Some (EmptyString, after)
    | None =>
        match s with
        | String c rest =>
            if Js.isLineTerminator c then None
            else match lazyUpTo closing rest with
                 | Some (inner, after) => Some (String c inner, after)
                 | None => None
                 end
        | EmptyString => None
        end
    end.
Proof. destruct s; reflexivity. Qed.

(** What a lazy run is: the text before the first [closing] that can be
    reached without crossing a line terminator. *)
Lemma lazyUpTo_some closing s : forall inner after,
  lazyUpTo closing s = Some (inner, after) ->
  s = (inner ++ closing ++ after)%string
  /\ noLineTerminator inner = true.
Proof.
  induction s as [|c s IH]; intros inner after H.
  - cbn in H. destruct (stripPrefix closing "") as [r|] eqn:E;
      [|discriminate].
    injection H as <- <-. split; [|reflexivity].
    exact (stripPrefix_some _ _ _ E).
  - cbn [lazyUpTo] in H.
    destruct (stripPrefix closing (String c s)) as [r|] eqn:E.
    + injection H as <- <-. split; [|reflexivity].
      exact (stripPrefix_some _ _ _ E).
    + destruct (Js.isLineTerminator c) eqn:Hc; [discriminate|].
      destruct (lazyUpTo closing s) as [[i a]|]; [|discriminate].
      injection H as <- <-. destruct (IH i a eq_refl) as [-> Hi].
      split; [reflexivity|]. cbn. now rewrite Hc, Hi.
Qed.

(** A run without a line terminator followed by [closing] is matched,
    possibly up to an earlier [closing]. *)
Lemma lazyUpTo_finds closing inner : forall rest,
  noLineTerminator inner = true ->
  lazyUpTo closing (inner ++ closing ++ rest) <> None.
Proof.
  induction inner as [|c inner IH]; intros rest H.
  - cbn [String.append]. rewrite lazyUpTo_unfold, stripPrefix_app.
    discriminate.
  - cbn in H. apply andb_prop in H as [Hc H].
    cbn [String.append lazyUpTo].
    destruct (stripPrefix closing _); [discriminate|].
    apply negb_true_iff in Hc. rewrite Hc.
    specialize (IH rest H).
    destruct (lazyUpTo closing (inner ++ closing ++ rest)) as [[i a]|];
      [discriminate | congruence].
Qed.

(** A run that holds neither a line terminator nor the first character of
    [closing] is matched whole. *)
Lemma lazyUpTo_exact a closing inner : forall rest,
  noLineTerminator inner = true ->
  lacks a inner = true ->
  lazyUpTo (String a closing) (inner ++ String a closing ++ rest)
  = Some (inner, rest).
Proof.
  induction inner as [|c inner IH]; intros rest Hlt Hl.
  - change ("" ++ String a closing ++ rest)%string
      with (String a closing ++ rest)%string.
    now rewrite lazyUpTo_unfold, stripPrefix_app.
  - cbn in Hlt, Hl. apply andb_prop in Hlt as [Hc Hlt].
    apply andb_prop in Hl as [Hca Hl].
    rewrite lazyUpTo_unfold. cbn [String.append stripPrefix].
    apply negb_true_iff in Hc, Hca. rewrite Ascii.eqb_sym, Hca, Hc.
    specialize (IH rest Hlt Hl). cbn [String.append] in IH.
    now rewrite IH.
Qed.

Lemma lazyUpTo_no_closing closing s : forall inner after,
  lazyUpTo closing s = Some (inner, after) ->
  closing <> "" ->
  Js.includes inner closing = false.
Proof.
  induction s as [|c s IH]; intros inner after H Hne.
  - cbn in H. destruct (stripPrefix closing "") as [r|]; [|discriminate].
    injection H as <- <-. destruct closing; [congruence | reflexivity].
  - cbn [lazyUpTo] in H.
    destruct (stripPrefix closing (String c s)) as [r|] eqn:E.
    + injection H as <- <-. destruct closing; [congruence | reflexivity].
    + destruct (Js.isLineTerminator c); [discriminate|].
      destruct (lazyUpTo closing s) as [[i a]|] eqn:El; [|discriminate].
      injection H as <- <-. cbn [Js.includes].
      rewrite (IH i a eq_refl Hne), orb_false_r.
      destruct (String.prefix closing (String c i)) eqn:Hp; [|reflexivity].
      exfalso. destruct (lazyUpTo_some _ _ _ _ El) as [-> _].
      apply (prefix_stripPrefix closing (String c i) (closing ++ a)) in Hp.
      cbn [String.append] in Hp. congruence.
Qed.

Ltac each_ascii c :=
  destruct c as [[] [] [] [] [] [] [] []].

Lemma lazyInner_step c rest :
  Links.lazyInner (String c rest)
  = match stripPrefix "]]" (String c rest) with
    | Some after => Some (EmptyString, after)
    | None =>
        if Js.isLineTerminator c then None
        else match Links.lazyInner rest with
             | Some (inner, after) => Some (String c inner, after)
             | None => None
             end
    end.
Proof.
  each_ascii c; try reflexivity.
  destruct rest as [|d rest]; [reflexivity|].
  each_ascii d; reflexivity.
Qed.

(** The lazy run of the graph's pattern is the lazy run up to "]]". *)
Lemma lazyInner_lazyUpTo s : Links.lazyInner s = lazyUpTo "]]" s.
Proof.
  induction s as [|c s IH]; [reflexivity|].
  rewrite lazyInner_step, IH. reflexivity.
Qed.

Lemma matchesFrom_step fuel c rest :
  Links.matchesFrom (S fuel) (String c rest)
  = match stripPrefix "[[" (String c rest) with
    | Some r =>
        match Links.lazyInner r with
        | Some (inner, after) =>
            Links.marker inner :: Links.matchesFrom fuel after
        | None => Links.matchesFrom fuel rest
        end
    | None => Links.matchesFrom fuel rest
    end.
Proof.
  each_ascii c; try reflexivity.
  destruct rest as [|d rest]; [reflexivity|].
  each_ascii d; reflexivity.
Qed.
End ScanFacts.

Section MatchFacts.
Import NoteView.

Lemma includes_unfold s needle :
  Js.includes s needle
  = String.prefix needle s
    || match s with
       | String _ rest => Js.includes rest needle
       | EmptyString => false
       end.
Proof. destruct s; reflexivity. Qed.

Lemma includes_prefix m after : Js.includes (m ++ after) m = true.
Proof. now rewrite includes_unfold, prefix_app. Qed.

(** What a successful step of the graph's scan has read. *)
Lemma scan_step s r inner after :
  stripPrefix "[[" s = Some r ->
  Links.lazyInner r = Some (inner, after) ->
  s = (Links.marker inner ++ after)%string
  /\ noLineTerminator inner = true
  /\ Js.includes inner "]]" = false.
Proof.
  intros Hs Hr. rewrite lazyInner_lazyUpTo in Hr.
  destruct (lazyUpTo_some _ _ _ _ Hr) as [-> Hlt].
  rewrite (stripPrefix_some _ _ _ Hs). unfold Links.marker.
  split; [|split; [exact Hlt|]].
  - cbn [String.append]. now rewrite !append_assoc.
  - apply (lazyUpTo_no_closing _ _ _ _ Hr). discriminate.
Qed.

Lemma matchesFrom_sound fuel : forall s m,
  In m (Links.matchesFrom fuel s) ->
  exists inner,
    m = Links.marker inner
    /\ noLineTerminator inner = true
    /\ Js.includes inner "]]" = false
    /\ Js.includes s m = true.
Proof.
  induction fuel as [|fuel IH]; intros s m H; [destruct H|].
  destruct s as [|c rest]; [destruct H|].
  rewrite matchesFrom_step in H.
  assert (In m (Links.matchesFrom fuel rest) ->
          exists inner,
            m = Links.marker inner
            /\ noLineTerminator inner = true
            /\ Js.includes inner "]]" = false
            /\ Js.includes (String c rest) m = true) as Hrest.
  { intros Hin. destruct (IH rest m Hin) as (inner & E & H1 & H2 & H3).
    exists inner. repeat split; auto.
    rewrite includes_unfold, H3. apply orb_true_r. }
  destruct (stripPrefix "[[" (String c rest)) as [r|] eqn:Hs; [|auto].
  destruct (Links.lazyInner r) as [[inner after]|] eqn:Hr; [|auto].
  destruct (scan_step _ _ _ _ Hs Hr) as (Es & Hlt & Hno).
  destruct H as [<-|H].
  - exists inner. repeat split; auto. rewrite Es. apply includes_prefix.
  - destruct (IH after m H) as (inner' & E & H1 & H2 & H3).
    exists inner'. repeat split; auto. rewrite Es.
    now apply includes_app_r.
Qed.

(** The scan needs no more fuel than one step for each character. *)
Lemma matchesFrom_fuel n : forall fuel1 fuel2 s,
  String.length s <= n ->
  String.length s < fuel1 -> String.length s < fuel2 ->
  Links.matchesFrom fuel1 s = Links.matchesFrom fuel2 s.
Proof.
  induction n as [|n IH]; intros fuel1 fuel2 s Hn H1 H2;
    (destruct fuel1 as [|f1]; [lia|]); (destruct fuel2 as [|f2]; [lia|]);
    (destruct s as [|c rest]; [reflexivity|]); cbn in Hn, H1, H2; [lia|].
  rewrite !matchesFrom_step.
  destruct (stripPrefix "[[" (String c rest)) as [r|] eqn:Hs.
  - destruct (Links.lazyInner r) as [[inner after]|] eqn:Hr.
    + destruct (scan_step _ _ _ _ Hs Hr) as (Es & _ & _).
      apply (f_equal String.length) in Es.
      rewrite length_append in Es. unfold Links.marker in Es.
      cbn in Es. f_equal. apply IH; lia.
    + apply IH; lia.
  - apply IH; lia.
Qed.
End MatchFacts.

(** X10: every match of the graph's pattern is a marker taken from the content:
    it reads "[[", an inner text and "]]", the inner text holds no line
    terminator and no "]]", and it is the text the graph takes for the
    title. *)
Theorem link_matches_are_markers :
  forall (content matched : string),
    In matched (Links.linkMatches content) ->
    exists inner,
      matched = Links.marker inner
      /\ noLineTerminator inner = true
      /\ Js.includes inner "]]" = false
      /\ Js.includes content matched = true
      /\ Js.substring matched 2 (String.length matched - 2) = inner.
Proof.
  intros content matched H.
  destruct (matchesFrom_sound _ _ _ H) as (inner & -> & H1 & H2 & H3).
  exists inner. repeat split; auto. apply marker_inner.
Qed.

(** The second match of the example. *)
Lemma link_matches_are_markers_witness :
  exists inner,
    "[[ c ]]" = Links.marker inner
    /\ noLineTerminator inner = true
    /\ Js.includes inner "]]" = false
    /\ Js.includes "See [[B]] and [[ c ]], not [[x]." "[[ c ]]" = true
    /\ Js.substring "[[ c ]]" 2 (String.length "[[ c ]]" - 2) = inner.
Proof.
  apply (link_matches_are_markers "See [[B]] and [[ c ]], not [[x]."
           "[[ c ]]").
  vm_compute. right. left. reflexivity.
Defined.

(** X11: a marker is found where the text stands clear of brackets: after a text
    without "[", a marker whose title holds no line terminator and no "]"
    is the first match, and the scan goes on behind it. *)
Theorem a_marker_after_plain_text_is_found :
  forall (before T after : string),
    lacks "[" before = true ->
    noLineTerminator T = true ->
    lacks "]" T = true ->
    Links.linkMatches (before ++ Links.marker T ++ after)
    = Links.marker T :: Links.linkMatches after.
Proof.
  intros before T after Hb Hlt Hl. unfold Links.linkMatches.
  induction before as [|c before IH].
  - change ("" ++ Links.marker T ++ after)%string
      with (Links.marker T ++ after)%string.
    assert ((Links.marker T ++ after)%string
            = String "[" (String "[" (T ++ "]]" ++ after))) as E.
    { unfold Links.marker. cbn [String.append]. now rewrite !append_assoc. }
    rewrite E. cbn [String.length]. rewrite matchesFrom_step.
    cbn [NoteView.stripPrefix Ascii.eqb Bool.eqb].
    rewrite lazyInner_lazyUpTo, (lazyUpTo_exact "]" "]" T after Hlt Hl).
    f_equal.
    apply (matchesFrom_fuel (String.length after)); auto;
      rewrite !length_append; cbn; lia.
  - cbn in Hb. apply andb_prop in Hb as [Hc Hb]. specialize (IH Hb).
    cbn [String.append String.length]. rewrite matchesFrom_step.
    cbn [NoteView.stripPrefix]. apply negb_true_iff in Hc.
    rewrite Ascii.eqb_sym, Hc. exact IH.
Qed.

(** The marker of the fixture, in the content of note A. *)
Lemma a_marker_after_plain_text_is_found_witness :
  Links.linkMatches "Alpha, see [[B]]." = ["[[B]]"].
Proof.
  apply (a_marker_after_plain_text_is_found "Alpha, see " "B" "."
           eq_refl eq_refl eq_refl).
Defined.

(* ===================================================================== *)
(** * Cross-references, from the content to the link *)
(* ===================================================================== *)

Section ProseFacts.
Import NoteView.





Lemma woven_app pieces1 pieces2 rest :
  Prose.woven (pieces1 ++ pieces2) rest
  = Prose.woven pieces1 (Prose.woven pieces2 rest).
Proof.
  induction pieces1 as [|[text T] pieces1 IH]; cbn; [reflexivity|].
  now rewrite IH.
Qed.

End ProseFacts.



(* ===================================================================== *)
(** * The note viewer *)
(* ===================================================================== *)

Section ViewFacts.
Import NoteView.

Lemma delimited_some opening closing s m after :
  delimited opening closing s = Some (m, after) ->
  exists inner,
    m = (opening ++ inner ++ closing)%string
    /\ s = (m ++ after)%string
    /\ noLineTerminator inner = true.
Proof.
  unfold delimited. intros H.
  destruct (stripPrefix opening s) as [rest|] eqn:Hs; [|discriminate].
  destruct (lazyUpTo closing rest) as [[inner a]|] eqn:Hr; [|discriminate].
  injection H as <- <-. exists inner.
  destruct (lazyUpTo_some _ _ _ _ Hr) as [-> Hlt].
  rewrite (stripPrefix_some _ _ _ Hs).
  split; [reflexivity|]. split; [|exact Hlt]. now rewrite !append_assoc.
Qed.

Lemma matchAt_some s m after :
  matchAt s = Some (m, after) -> s = (m ++ after)%string.
Proof.
  unfold matchAt. intros H.
  destruct (delimited "[[" "]]" s) as [[m1 a1]|] eqn:H1.
  { injection H as <- <-.
    now destruct (delimited_some _ _ _ _ _ H1) as (_ & _ & -> & _). }
  destruct (delimited "**" "**" s) as [[m2 a2]|] eqn:H2.
  { injection H as <- <-.
    now destruct (delimited_some _ _ _ _ _ H2) as (_ & _ & -> & _). }
  now destruct (delimited_some _ _ _ _ _ H) as (_ & _ & -> & _).
Qed.

Lemma splitFrom_joined fuel : forall text s,
  fold_right String.append "" (splitFrom fuel text s) = (text ++ s)%string.
Proof.
  induction fuel as [|fuel IH]; intros text s.
  - cbn. apply append_nil_r.
  - destruct s as [|c rest].
    + cbn. reflexivity.
    + cbn [splitFrom].
      destruct (matchAt (String c rest)) as [[m after]|] eqn:Hm.
      * cbn [fold_right]. rewrite IH. cbn [String.append].
        now rewrite (matchAt_some _ _ _ Hm).
      * rewrite IH, append_assoc. reflexivity.
Qed.

Lemma substring_split (s : string) : forall n,
  n <= String.length s ->
  (String.substring 0 n s ++ String.substring n (String.length s - n) s)%string
  = s.
Proof.
  induction s as [|c s IH]; intros n Hn; cbn in Hn.
  - destruct n; [reflexivity | lia].
  - destruct n as [|n].
    + cbn [String.substring String.append String.length Nat.sub].
      now rewrite substring_0_length.
    + cbn [String.substring String.append String.length Nat.sub].
      rewrite IH by lia. reflexivity.
Qed.

Lemma enclosed_some opening closing dotAll part inner :
  enclosed opening closing dotAll part = Some inner ->
  part = (opening ++ inner ++ closing)%string
  /\ (dotAll = false -> noLineTerminator inner = true).
Proof.
  unfold enclosed. intros H.
  destruct (stripPrefix opening part) as [rest|] eqn:Hs; [|discriminate].
  destruct (String.length closing <=? String.length rest) eqn:Hlen;
    [|discriminate].
  destruct (String.eqb_spec
              (String.substring (String.length rest - String.length closing)
                                (String.length closing) rest) closing)
    as [Hc|]; [|discriminate].
  cbn [andb] in H.
  destruct (dotAll || noLineTerminator _) eqn:Hd; [|discriminate].
  injection H as <-. apply Nat.leb_le in Hlen. split.
  - rewrite (stripPrefix_some _ _ _ Hs). f_equal.
    pose proof (substring_split rest
                  (String.length rest - String.length closing)
                  ltac:(lia)) as E.
    replace (String.length rest
             - (String.length rest - String.length closing))
      with (String.length closing) in E by lia.
    rewrite Hc in E. now symmetry.
  - intros ->. exact Hd.
Qed.

Lemma sourceOf_renderPart part index :
  sourceOf (renderPart part index) = part.
Proof.
  unfold renderPart. destruct (String.eqb_spec part "") as [->|_];
    [reflexivity|].
  destruct (enclosed "[[" "]]" false part) as [t|] eqn:H1.
  { now destruct (enclosed_some _ _ _ _ _ H1) as [-> _]. }
  destruct (enclosed "**" "**" true part) as [t|] eqn:H2.
  { now destruct (enclosed_some _ _ _ _ _ H2) as [-> _]. }
  destruct (enclosed "*" "*" true part) as [t|] eqn:H3.
  { now destruct (enclosed_some _ _ _ _ _ H3) as [-> _]. }
  reflexivity.
Qed.

Lemma sourceText_mapi parts : forall index,
  sourceText (mapi_from renderPart index parts)
  = fold_right String.append "" parts.
Proof.
  unfold sourceText.
  induction parts as [|p parts IH]; intros index; [reflexivity|].
  cbn [mapi_from map fold_right]. now rewrite sourceOf_renderPart, IH.
Qed.
End ViewFacts.

(** X12: the viewer loses nothing of a note: the elements it renders, each put
    back between its delimiters, spell the content again. *)
Theorem rendering_keeps_the_text :
  forall content : string,
    NoteView.sourceText (NoteView.parseContent content) = content.
Proof.
  intros content. unfold NoteView.parseContent, mapi, NoteView.split.
  rewrite sourceText_mapi, splitFrom_joined. reflexivity.
Qed.

Section Agreement.
Import NoteView.

Lemma lacks_app c a b :
  lacks c (a ++ b) = lacks c a && lacks c b.
Proof.
  induction a as [|x a IH]; cbn; auto. rewrite IH. apply andb_assoc.
Qed.

Lemma matchesFrom_delimited fuel c rest :
  Links.matchesFrom (S fuel) (String c rest)
  = match delimited "[[" "]]" (String c rest) with
    | Some (m, after) => m :: Links.matchesFrom fuel after
    | None => Links.matchesFrom fuel rest
    end.
Proof.
  rewrite matchesFrom_step. unfold delimited.
  destruct (stripPrefix "[[" (String c rest)) as [r|]; [|reflexivity].
  rewrite lazyInner_lazyUpTo.
  destruct (lazyUpTo "]]" r) as [[inner after]|]; reflexivity.
Qed.

Lemma matchAt_without_star s :
  lacks "*" s = true -> matchAt s = delimited "[[" "]]" s.
Proof.
  intros H. unfold matchAt.
  destruct (delimited "[[" "]]" s) as [m|]; [reflexivity|].
  unfold delimited. destruct s as [|c s]; [reflexivity|].
  cbn in H. apply andb_prop in H as [Hc _]. apply negb_true_iff in Hc.
  cbn [stripPrefix]. rewrite Ascii.eqb_sym, Hc. reflexivity.
Qed.

Lemma enclosed_marker inner :
  noLineTerminator inner = true ->
  enclosed "[[" "]]" false (Links.marker inner) = Some inner.
Proof.
  intros H. unfold enclosed, Links.marker.
  rewrite (stripPrefix_app "[[" (inner ++ "]]")).
  rewrite length_append. cbn [String.length].
  replace (String.length inner + 2 - 2) with (String.length inner) by lia.
  replace (2 <=? String.length inner + 2) with true
    by (symmetry; apply Nat.leb_le; lia).
  rewrite substring_skip, substring_all, H. reflexivity.
Qed.

Lemma renderPart_marker inner index :
  noLineTerminator inner = true ->
  renderPart (Links.marker inner) index = Some (button index inner).
Proof.
  intros H. unfold renderPart. rewrite (enclosed_marker inner H).
  reflexivity.
Qed.

(** A text that holds no "*" and at whose start the link pattern does not
    match is rendered as plain text, or not at all when it is empty. *)
Lemma renderPart_text text s index :
  lacks "*" text = true ->
  text = "" \/ delimited "[[" "]]" (text ++ s) = None ->
  linkTitles [renderPart text index] = [].
Proof.
  intros Hstar Hinv. unfold renderPart.
  destruct (String.eqb_spec text "") as [->|Hne]; [reflexivity|].
  destruct Hinv as [->|Hinv]; [congruence|].
  destruct (enclosed "[[" "]]" false text) as [t|] eqn:H1.
  { exfalso. destruct (enclosed_some _ _ _ _ _ H1) as [-> Hlt].
    specialize (Hlt eq_refl). unfold delimited in Hinv.
    rewrite !append_assoc in Hinv.
    rewrite (stripPrefix_app "[[") in Hinv.
    pose proof (lazyUpTo_finds "]]" t s Hlt) as Hf.
    destruct (lazyUpTo "]]" (t ++ "]]" ++ s)) as [[i a]|];
      [discriminate | congruence]. }
  assert (stripPrefix "*" text = None) as Hs.
  { destruct text as [|c text]; [reflexivity|]. cbn in Hstar.
    apply andb_prop in Hstar as [Hc _]. apply negb_true_iff in Hc.
    cbn [stripPrefix]. now rewrite Ascii.eqb_sym, Hc. }
  assert (stripPrefix "**" text = None) as Hs2.
  { destruct text as [|c text]; [reflexivity|]. cbn [stripPrefix] in *.
    destruct (Ascii.eqb "*" c); [discriminate | reflexivity]. }
  unfold enclosed. rewrite Hs, Hs2. reflexivity.
Qed.

Lemma linkTitles_cons e l :
  linkTitles (e :: l) = linkTitles [e] ++ linkTitles l.
Proof. unfold linkTitles. cbn. now rewrite app_nil_r. Qed.

Lemma split_agrees fuel : forall text s index,
  String.length s < fuel ->
  lacks "*" text = true ->
  lacks "*" s = true ->
  text = "" \/ delimited "[[" "]]" (text ++ s) = None ->
  linkTitles (mapi_from renderPart index (splitFrom fuel text s))
  = map (fun m => Js.substring m 2 (String.length m - 2))
        (Links.matchesFrom fuel s).
Proof.
  induction fuel as [|fuel IH]; intros text s index Hlen Ht Hs Hinv; [lia|].
  destruct s as [|c rest].
  - cbn [splitFrom mapi_from Links.matchesFrom map].
    now apply (renderPart_text text "" index).
  - rewrite matchesFrom_delimited. cbn [splitFrom].
    rewrite (matchAt_without_star _ Hs).
    destruct (delimited "[[" "]]" (String c rest)) as [[m after]|] eqn:Hm.
    + destruct (delimited_some _ _ _ _ _ Hm) as (inner & Em & Es & Hlt).
      assert (m = Links.marker inner) as -> by exact Em.
      cbn [mapi_from map].
      rewrite linkTitles_cons, (renderPart_text text (String c rest) index)
        by auto.
      rewrite linkTitles_cons, renderPart_marker by exact Hlt.
      rewrite marker_inner. cbn [app linkTitles flat_map]. f_equal.
      rewrite Es, lacks_app in Hs. apply andb_prop in Hs as [_ Hs].
      apply IH; auto.
      apply (f_equal String.length) in Es. rewrite length_append in Es.
      unfold Links.marker in Es. cbn in Es, Hlen. lia.
    + cbn in Hs. apply andb_prop in Hs as [Hc Hs]. apply IH.
      * cbn in Hlen. lia.
      * rewrite lacks_app, Ht. cbn. now rewrite Hc.
      * exact Hs.
      * right. rewrite append_assoc. cbn [String.append].
        destruct Hinv as [->|Hinv]; [exact Hm | exact Hinv].
Qed.
End Agreement.

(** X13: on a content without "*" the viewer and the graph read the same links:
    the titles of the buttons the viewer renders are the inner texts of the
    matches the graph scans, in the same order. *)
Theorem viewer_and_graph_read_the_same_links :
  forall content : string,
    lacks "*" content = true ->
    NoteView.linkTitles (NoteView.parseContent content)
    = map (fun m => Js.substring m 2 (String.length m - 2))
          (Links.linkMatches content).
Proof.
  intros content H.
  apply (split_agrees (S (String.length content)) "" content 0); auto.
Qed.

(** The content of note A in the examples: one button, for "B". *)
Lemma viewer_and_graph_read_the_same_links_witness :
  NoteView.linkTitles (NoteView.parseContent "Alpha, see [[B]].") = ["B"].
Proof.
  rewrite (viewer_and_graph_read_the_same_links "Alpha, see [[B]]." eq_refl).
  vm_compute. reflexivity.
Defined.

(* ===================================================================== *)
(** * The notes on display *)
(* ===================================================================== *)

Section DisplayFacts.
Import Display.

Lemma toString_inj i j : Js.toString i = Js.toString j -> i = j.
Proof.
  intros H. apply (f_equal Js.readDecimal) in H.
  rewrite !readDecimal_toString in H. congruence.
Qed.

Lemma tempId_inj i j : tempId i = tempId j -> i = j.
Proof.
  unfold tempId. intros H. apply append_inj_l in H. now apply toString_inj.
Qed.

Lemma tempIds l : forall k,
  map Note.id (mapi_from (fun note index => withId note (tempId index)) k l)
  = map tempId (seq k (List.length l)).
Proof.
  induction l as [|x l IH]; intros k; cbn [mapi_from map List.length seq];
    [reflexivity|].
  now rewrite IH.
Qed.

Lemma NoDup_map_inj {A B} (f : A -> B) (l : list A) :
  (forall x y, f x = f y -> x = y) -> NoDup l -> NoDup (map f l).
Proof.
  intros Hinj. induction 1 as [|x l Hx _ IH]; cbn; constructor; auto.
  intros Hin. apply in_map_iff in Hin as (y & E & Hy).
  apply Hinj in E. now subst.
Qed.

Lemma tempIds_NoDup l :
  NoDup (map Note.id
             (mapi (fun note index => withId note (tempId index)) l)).
Proof.
  unfold mapi. rewrite tempIds.
  apply NoDup_map_inj; [|apply seq_NoDup].
  intros i j. apply tempId_inj.
Qed.

Lemma find_unique {A} (key : A -> string) (l : list A) :
  NoDup (map key l) ->
  forall i x, nth_error l i = Some x ->
              find (fun y => String.eqb (key y) (key x)) l = Some x.
Proof.
  induction l as [|y l IH]; intros Hnd i x Hx; [now destruct i|].
  cbn [map] in Hnd. inversion Hnd as [|k ks Hnotin Hnd']. subst.
  destruct i as [|i]; cbn in Hx.
  - injection Hx as ->. cbn. now rewrite String.eqb_refl.
  - cbn [find]. destruct (String.eqb_spec (key y) (key x)) as [E|_].
    + exfalso. apply Hnotin. rewrite E. apply in_map.
      now apply nth_error_In in Hx.
    + now apply (IH Hnd' i).
Qed.

(** The ids of the notes on display are pairwise distinct when those of
    the final notes are. *)
Lemma displayed_ids_NoDup session :
  NoDup (map Note.id (finalNotes session)) ->
  NoDup (map Note.id (notesToDisplay session)).
Proof.
  intros H. unfold notesToDisplay.
  destruct (Status.eqb _ _ && _); [exact H|].
  destruct (0 <? _); [apply tempIds_NoDup | constructor].
Qed.
End DisplayFacts.

(** X14: a click on an entry of the list of notes shows the note of that entry:
    when the ids of the final notes are pairwise distinct, as a run leaves
    them, selecting the id of the note number [i] on display makes that
    note the selected note.  The temporary ids of the unlinked notes are
    always distinct. *)
Theorem a_click_in_the_list_shows_the_note :
  forall (app : App.t) (i : nat) (note : Note.t),
    NoDup (map Note.id (finalNotes (App.session app))) ->
    nth_error (Display.notesToDisplay (App.session app)) i = Some note ->
    Display.selectedNote
      (Display.setSelectedNoteId app (Some (Note.id note))) = Some note.
Proof.
  intros app i note Hnd Hi. unfold Display.selectedNote.
  cbn [Display.setSelectedNoteId App.selectedNoteId App.session].
  apply (find_unique Note.id _ (displayed_ids_NoDup _ Hnd) i note Hi).
Qed.

(** The session interrupted after its first note shows that note under its
    temporary id; a click on the entry selects it. *)
Lemma a_click_in_the_list_shows_the_note_witness :
  Display.selectedNote
    (Display.setSelectedNoteId (App.mk Fixture.interrupted None App.viewer)
                               (Some "note_temp_0"))
  = Some (Note.mk "note_temp_0" "A" "Alpha." ["a"] "p. 1").
Proof.
  apply (a_click_in_the_list_shows_the_note
           (App.mk Fixture.interrupted None App.viewer) 0
           (Note.mk "note_temp_0" "A" "Alpha." ["a"] "p. 1")).
  - constructor.
  - reflexivity.
Defined.



(* ===================================================================== *)
(** * The controls *)
(* ===================================================================== *)

Section Restart.
Import Pipeline Trace.
Variable model : Model.

(** A run of the Grok service on a session that has titles makes no
    extraction request. *)
Lemma grok_resumed_never_extracts st w :
  titles st <> [] ->
  extractCalls (traceOf (Grok.processBookWithGrok model st w)) = [].
Proof.
  intros Ht. rewrite grok_orchestrates.
  destruct (orchestrate_resumed model (Service.grokInterlink model) "Grok"
              Grok.describe (grokInterlink_phase3 model) st w Ht)
    as (rest & -> & Hrest).
  destruct (generatePhase_spec model st w) as (H2 & _).
  cbv zeta in H2.
  destruct (phase2_quiet _ H2) as (H2' & _).
  destruct (closing_quiet _ Hrest) as (Hrest' & _).
  unfold extractCalls in *. now rewrite collect_app, H2', Hrest'.
Qed.

(** On a session that has a note for every title it makes no phase-2
    request either. *)
Lemma grok_resumed_never_generates st w :
  titles st <> [] ->
  List.length (titles st) <= List.length (unlinkedNotes st) ->
  generateCalls (traceOf (Grok.processBookWithGrok model st w)) = [].
Proof.
  intros Ht Hk. rewrite grok_orchestrates.
  rewrite (orchestrate_complete model (Service.grokInterlink model) "Grok"
             Grok.describe st w Ht Hk).
  destruct (interlinkDue st); [|reflexivity].
  destruct (grokInterlink_phase3 model st w) as (E3 & _).
  destruct (Service.grokInterlink model st w) as [[t3 w3] [e|final]];
    cbn [traceOf fst] in *;
    destruct (phase3_no_generate _ E3) as (H & _);
    unfold generateCalls in *; now rewrite collect_app, H.
Qed.
End Restart.

(** "Process Book" when the extraction request is rejected: what is left
    of the session on display. *)
Lemma restart_rejected (model : Pipeline.Model) (app : App.t)
    (w w1 : Pipeline.World model) (e : thrown) :
  Js.trim (inputText (App.session app)) <> "" ->
  Pipeline.titlesReply model (inputText (App.session app)) w = (w1, inl e) ->
  Controls.handleStartProcessing model app w
  = (App.mk (mkState Status.error
                     "Phase 1/3: Extracting core concepts..."
                     (inputText (App.session app))
                     (titles (App.session app))
                     (unlinkedNotes (App.session app))
                     (finalNotes (App.session app))
                     (Some (Pipeline.Grok.describe e)))
            (App.selectedNoteId app) (App.viewMode app), w1).
Proof.
  intros Hinput Hreply. unfold Controls.handleStartProcessing.
  destruct (String.eqb_spec (Js.trim (inputText (App.session app))) "")
    as [|_]; [congruence|].
  cbv zeta. unfold App.runProcess.
  rewrite grok_orchestrates, orchestrate_run, extractPhase_run
    by reflexivity.
  cbv zeta. cbn [inputText App.getInitialState].
  rewrite Hreply. reflexivity.
Qed.

(** X16: a new run that fails at once keeps the earlier results.  "Process Book"
    runs the pipeline on a fresh state, but the progress of the run is
    merged into the session on display: when the extraction request is
    rejected, the session is in error with the message of the failure and
    still holds the titles, the unlinked notes and the final notes it had
    before.  A resume then works on those: with the earlier titles it never
    asks for the concepts of the text, and when the earlier session had a
    note for every title it asks for no note body either. *)
Theorem a_failed_restart_keeps_the_earlier_results :
  forall (model : Pipeline.Model) (app : App.t)
         (w w1 : Pipeline.World model) (e : thrown),
    Js.trim (inputText (App.session app)) <> "" ->
    Pipeline.titlesReply model (inputText (App.session app)) w
    = (w1, inl e) ->
    let restarted := Controls.handleStartProcessing model app w in
    let session := App.session (fst restarted) in
    snd restarted = w1
    /\ status session = Status.error
    /\ error session = Some (Pipeline.Grok.describe e)
    /\ inputText session = inputText (App.session app)
    /\ titles session = titles (App.session app)
    /\ unlinkedNotes session = unlinkedNotes (App.session app)
    /\ finalNotes session = finalNotes (App.session app)
    /\ App.selectedNoteId (fst restarted) = App.selectedNoteId app
    /\ (titles (App.session app) <> [] ->
        forall w',
          let resumed :=
            traceOf (Pipeline.Grok.processBookWithGrok model session w') in
          Trace.extractCalls resumed = []
          /\ (List.length (titles (App.session app))
              <= List.length (unlinkedNotes (App.session app)) ->
              Trace.generateCalls resumed = [])).
Proof.
  intros model app w w1 e Hinput Hreply restarted session.
  subst session restarted.
  rewrite (restart_rejected model app w w1 e Hinput Hreply).
  cbn [fst snd App.session App.selectedNoteId].
  repeat split; try reflexivity.
  - now apply grok_resumed_never_extracts.
  - intros Hk. now apply grok_resumed_never_generates.
Qed.

(** The finished session of the examples, a new text, and a model that
    rejects the first request: the session is in error and still holds the
    two final notes of the earlier book. *)
Lemma a_failed_restart_keeps_the_earlier_results_witness :
  let app := App.mk Fixture.finished (Some "note_000") App.viewer in
  let restarted :=
    Controls.handleStartProcessing (Fixture.failingAt 0 (JsError "boom"))
                                   app 0 in
  status (App.session (fst restarted)) = Status.error
  /\ error (App.session (fst restarted)) = Some "boom"
  /\ titles (App.session (fst restarted)) = ["A"; "B"]
  /\ finalNotes (App.session (fst restarted)) = finalNotes Fixture.finished.
Proof.
  cbv zeta.
  destruct (a_failed_restart_keeps_the_earlier_results
              (Fixture.failingAt 0 (JsError "boom"))
              (App.mk Fixture.finished (Some "note_000") App.viewer)
              0 1 (JsError "boom") ltac:(discriminate) eq_refl)
    as (_ & Hs & He & _ & Ht & _ & Hf & _).
  split; [exact Hs|]. split; [exact He|]. split; [exact Ht | exact Hf].
Defined.

(* ===================================================================== *)
(** * The export *)
(* ===================================================================== *)

Section ExportFacts.
Import ExportNotes.

Lemma js_substring_from_0 s n :
  Js.substring s 0 n = String.substring 0 (Nat.min n (String.length s)) s.
Proof.
  unfold Js.substring. cbn [Nat.min].
  now rewrite Nat.max_0_l, Nat.sub_0_r.
Qed.

Lemma substring_0_le (s : string) : forall n,
  String.length s <= n -> String.substring 0 n s = s.
Proof.
  induction s as [|c s IH]; intros n H; cbn in H.
  - now destruct n.
  - destruct n as [|n]; [lia|]. cbn. rewrite IH by lia. reflexivity.
Qed.

Lemma substring_0_length_min (s : string) : forall n,
  String.length (String.substring 0 n s) = Nat.min n (String.length s).
Proof.
  induction s as [|c s IH]; intros n; destruct n; cbn; auto.
Qed.

Lemma replaceForbidden_length s :
  String.length (replaceForbidden s) = String.length s.
Proof. induction s as [|c s IH]; cbn; auto. Qed.

Lemma replaceForbidden_safe s : safe (replaceForbidden s) = true.
Proof.
  induction s as [|c s IH]; cbn [replaceForbidden safe]; auto.
  rewrite IH, andb_true_r. destruct (forbidden c) eqn:E; [reflexivity|].
  now rewrite E.
Qed.

Lemma replaceForbidden_fixed s : safe s = true -> replaceForbidden s = s.
Proof.
  induction s as [|c s IH]; cbn; auto. intros H.
  apply andb_prop in H as [Hc H]. apply negb_true_iff in Hc.
  now rewrite Hc, IH.
Qed.

Lemma substring_0_safe (s : string) : forall n,
  safe s = true -> safe (String.substring 0 n s) = true.
Proof.
  induction s as [|c s IH]; intros n H; destruct n; cbn in *; auto.
  apply andb_prop in H as [Hc H]. now rewrite Hc, IH.
Qed.

Lemma sanitizeFilename_take title :
  sanitizeFilename title
  = String.substring 0 (Nat.min 200 (String.length title))
                     (replaceForbidden title).
Proof.
  unfold sanitizeFilename.
  now rewrite js_substring_from_0, replaceForbidden_length.
Qed.
End ExportFacts.

(** X17: the name of an exported file is safe and short: [sanitizeFilename]
    keeps the length of a title up to 200 characters, leaves no character
    of the class it replaces, changes nothing in a name it has produced,
    and changes nothing in a title that is safe and no longer than 200
    characters. *)
Theorem sanitized_names_are_safe :
  forall title : string,
    let name := ExportNotes.sanitizeFilename title in
    String.length name = Nat.min 200 (String.length title)
    /\ ExportNotes.safe name = true
    /\ ExportNotes.sanitizeFilename name = name
    /\ (ExportNotes.safe title = true -> String.length title <= 200 ->
        name = title).
Proof.
  intros title name. subst name.
  assert (String.length (ExportNotes.sanitizeFilename title)
          = Nat.min 200 (String.length title)) as Hlen.
  { rewrite sanitizeFilename_take, substring_0_length_min.
    rewrite replaceForbidden_length. lia. }
  assert (ExportNotes.safe (ExportNotes.sanitizeFilename title) = true)
    as Hsafe.
  { rewrite sanitizeFilename_take.
    apply substring_0_safe, replaceForbidden_safe. }
  split; [exact Hlen|]. split; [exact Hsafe|]. split.
  - rewrite (sanitizeFilename_take (ExportNotes.sanitizeFilename title)).
    rewrite (replaceForbidden_fixed _ Hsafe).
    apply substring_0_le. rewrite Hlen. lia.
  - intros Hs Hl. rewrite sanitizeFilename_take.
    rewrite (replaceForbidden_fixed _ Hs). apply substring_0_le. lia.
Qed.

Section ArchiveFacts.
Import ExportNotes.

Lemma fold_left_pairs {A B C} (f : C -> B -> C) (g : A -> B) (l : list A) :
  forall c, fold_left f (map g l) c = fold_left (fun c x => f c (g x)) l c.
Proof. induction l as [|x l IH]; intros c; cbn; auto. Qed.

Lemma files_fromEntries notes :
  files notes
  = JsMap.fromEntries
      (map (fun note => (filename note, markdownContent note)) notes).
Proof.
  unfold files, JsMap.fromEntries. now rewrite fold_left_pairs.
Qed.
End ArchiveFacts.

(** X18: the archive of an export holds one file for each name, with the text
    of the last note of that name: a lookup by file name gives the Markdown
    of the last final note whose title is sanitized to that name, so of two
    notes whose titles give the same name only the later one is exported,
    and a name that no note has is not in the archive.  Without final notes
    no archive is built. *)
Theorem the_archive_keeps_the_last_note_of_a_name :
  forall session : ProcessingState,
    match ExportNotes.handleExport session with
    | None => finalNotes session = []
    | Some zip =>
        finalNotes session <> []
        /\ forall name : string,
             JsMap.get zip name
             = option_map ExportNotes.markdownContent
                 (find (fun note =>
                          String.eqb (ExportNotes.filename note) name)
                       (rev (finalNotes session)))
    end.
Proof.
  intros session. unfold ExportNotes.handleExport.
  destruct (finalNotes session) as [|n notes] eqn:E; [reflexivity|].
  cbn [List.length Nat.eqb]. split; [discriminate|]. intros name.
  rewrite files_fromEntries, get_fromEntries, <- map_rev.
  induction (rev (n :: notes)) as [|x l IH]; cbn; auto.
  destruct (String.eqb _ _); auto.
Qed.

(** A title with a slash and a question mark. *)
Lemma sanitized_names_are_safe_witness :
  ExportNotes.sanitizeFilename "Habits" = "Habits"
  /\ String.length (ExportNotes.sanitizeFilename "What/why?") = 9.
Proof.
  split.
  - apply (sanitized_names_are_safe "Habits"); [reflexivity | cbn; lia].
  - apply (sanitized_names_are_safe "What/why?").
Defined.

Section MarkdownFacts.
Import ExportNotes.

Lemma trimEnd_keeps (a b : string) :
  Js.trimEnd b <> "" ->
  Js.trimEnd (a ++ b) = (a ++ Js.trimEnd b)%string.
Proof.
  intros H. rewrite trimEnd_app. destruct (Js.trimEnd b); congruence.
Qed.

Lemma trimEnd_app_nonempty (a b : string) :
  Js.trimEnd b <> "" -> Js.trimEnd (a ++ b) <> "".
Proof.
  intros H. rewrite (trimEnd_keeps a b H).
  destruct a; [exact H | discriminate].
Qed.

Lemma trimStart_template (rest : string) :
  Js.trimStart (nl ++ "# " ++ rest) = ("# " ++ rest)%string.
Proof. reflexivity. Qed.

Lemma trimEnd_source (source : string) :
  Js.trimEnd ("## Source" ++ nl ++ nl ++ source ++ nl ++ "        ")
  = ("## Source"
     ++ match Js.trimEnd source with
        | EmptyString => EmptyString
        | s => nl ++ nl ++ s
        end)%string.
Proof.
  assert (Js.trimEnd (nl ++ nl ++ source ++ nl ++ "        ")
          = match Js.trimEnd source with
            | EmptyString => EmptyString
            | s => (nl ++ nl ++ s)%string
            end) as Htail.
  { rewrite <- (append_assoc nl nl), trimEnd_app.
    rewrite (trimEnd_blank source (nl ++ "        ") eq_refl).
    destruct (Js.trimEnd source); [reflexivity|].
    now rewrite append_assoc. }
  rewrite trimEnd_app, Htail.
  destruct (Js.trimEnd source); reflexivity.
Qed.
End MarkdownFacts.

(** X19: the text of an exported file.  The line break that opens the template
    and the white space that closes it are trimmed away, so the file begins
    with the heading of the title and goes on with the content, the quotes
    and the heading of the source, each as the note has it; the source
    follows without its trailing white space, and a blank source leaves the
    heading at the end of the file. *)
Theorem the_text_of_an_exported_note :
  forall note : Note.t,
    let nl := ExportNotes.nl in
    ExportNotes.markdownContent note
    = ("# " ++ Note.title note ++ nl
       ++ nl ++ Note.content note ++ nl
       ++ nl ++ "---" ++ nl
       ++ nl ++ "## Supporting Quotes" ++ nl
       ++ nl ++ ExportNotes.quotesMarkdown (Note.quotes note) ++ nl
       ++ nl ++ "---" ++ nl
       ++ nl ++ "## Source"
       ++ match Js.trimEnd (Note.source note) with
          | EmptyString => EmptyString
          | source => nl ++ nl ++ source
          end)%string.
Proof.
  intros note nl. subst nl. unfold ExportNotes.markdownContent, Js.trim.
  rewrite trimStart_template.
  assert (Js.trimEnd ("## Source" ++ ExportNotes.nl ++ ExportNotes.nl
                      ++ Note.source note ++ ExportNotes.nl ++ "        ")
          <> "") as K.
  { rewrite trimEnd_source. discriminate. }
  rewrite !trimEnd_keeps
    by (repeat first [exact K | apply trimEnd_app_nonempty]).
  now rewrite trimEnd_source.
Qed.

(* ===================================================================== *)
(** * From the endpoint to the session *)
(* ===================================================================== *)

Section EndToEnd.
Import Gateway.
Context {W : Type}.
Variable net : list (string * string) -> W -> W * (thrown + Grok.HttpResponse).

(** A phase function of the Grok service whose first call is answered with
    a failure that is not retried. *)
Lemma roundTrip_fails_fast {T} (messages : list (string * string))
    (JSON_parse : string -> string + T) (w : W) (response : Grok.HttpResponse) :
  snd (net messages w) = inr response ->
  Grok.ok response = false ->
  let e := JsError ("API request failed: "
                    ++ Js.toString (Grok.status response) ++ " "
                    ++ Grok.text response) in
  Grok.isRateLimitError e = false ->
  Grok.roundTrip (Backoff.send (net messages)) JSON_parse w
  = ([Attempt (inr response)], fst (net messages w), inl e).
Proof.
  intros Hnet Hok e Hrl.
  assert (Grok.request (Backoff.send (net messages)) w
          = ([Attempt (inr response)], fst (net messages w), inl e)) as Hreq.
  { unfold Grok.request. rewrite run_bind, send_run, Hnet, Hok.
    reflexivity. }
  unfold Grok.roundTrip, Grok.callGrokWithRetries.
  rewrite run_bind, grok_shape.
  rewrite (loop_stop (Grok.request (Backoff.send (net messages)))
             (fun a x => Grok.isRateLimitError x && (a <? 3 - 1))
             (fun x => x) 2000%Z 2 0 (JsObject None) w e).
  - now rewrite Hreq.
  - now rewrite Hreq.
  - cbn beta. now rewrite Hrl.
Qed.
End EndToEnd.

(** X20: from the endpoint to the session, in the Grok service.  When the user
    starts a run and the endpoint answers the first request with a status
    that is not ok and a body that is not taken for a rate limit, the one
    call is not repeated and the session on display ends in error with the
    text "API request failed:", the status and the body of the response. *)
Theorem an_http_failure_reaches_the_session :
  forall (W : Type)
         (net : list (string * string) -> W
                -> W * (thrown + Gateway.Grok.HttpResponse))
         (EXTRACT GENERATE INTERLINK : string)
         (stringifyRequest : string -> string -> string)
         (stringifyNotes : list Note.t -> string)
         (parseTitles : string -> string + list string)
         (parseBody : string -> string + NoteBody.t)
         (parseNotes : string -> string + list Note.t)
         (app : App.t) (w : W) (response : Gateway.Grok.HttpResponse),
    let service :=
      GrokService.model net EXTRACT GENERATE INTERLINK stringifyRequest
                        stringifyNotes parseTitles parseBody parseNotes in
    let messages :=
      [("system", EXTRACT); ("user", inputText (App.session app))] in
    let message :=
      ("API request failed: "
       ++ Js.toString (Gateway.Grok.status response) ++ " "
       ++ Gateway.Grok.text response)%string in
    Js.trim (inputText (App.session app)) <> "" ->
    snd (net messages w) = inr response ->
    Gateway.Grok.ok response = false ->
    Gateway.Grok.isRateLimitError (JsError message) = false ->
    let started := Controls.handleStartProcessing service app w in
    status (App.session (fst started)) = Status.error
    /\ error (App.session (fst started)) = Some message
    /\ snd started = fst (net messages w).
Proof.
  intros W net EXTRACT GENERATE INTERLINK stringifyRequest stringifyNotes
         parseTitles parseBody parseNotes app w response service messages
         message Hinput Hnet Hok Hrl started.
  subst started.
  rewrite (restart_rejected service app w (fst (net messages w))
             (JsError message) Hinput).
  - repeat split.
  - unfold service, GrokService.model, GrokService.seen,
      GrokService.extractConcepts.
    cbn [Pipeline.titlesReply]. subst messages message.
    now rewrite (roundTrip_fails_fast net _ parseTitles w response
                   Hnet Hok Hrl).
Qed.

(** The endpoint is down: the session shows "API request failed: 503
    Service Unavailable" after one call. *)
Lemma an_http_failure_reaches_the_session_witness :
  let started :=
    Controls.handleStartProcessing Outage.service
      (App.mk (Fixture.fresh "book") None App.viewer) 0 in
  status (App.session (fst started)) = Status.error
  /\ error (App.session (fst started))
     = Some "API request failed: 503 Service Unavailable"
  /\ snd started = 1.
Proof.
  apply (an_http_failure_reaches_the_session nat Outage.down
           "extract" "generate" "interlink"
           (fun text concept => (text ++ concept)%string)
           (fun _ => "[]") Outage.reject Outage.reject Outage.reject
           (App.mk (Fixture.fresh "book") None App.viewer) 0
           Outage.unavailable);
    [discriminate | reflexivity | reflexivity | reflexivity].
Defined.

(* ===================================================================== *)
(** * What a run leaves on display *)
(* ===================================================================== *)

Section Replies.
Import Pipeline Trace.
Variable model : Model.

Lemma replay_cons ev t s :
  App.replay (ev :: t) s = App.replay t (App.handleProgress s ev).
Proof. reflexivity. Qed.

End Replies.





(* ===================================================================== *)
(** * Interrupted and resumed *)
(* ===================================================================== *)

Section OneRun.
Import Pipeline Trace.
Variable model : Model.

(** The body the model gives for a title of a text, whenever it answers. *)
Variable body : string -> string -> NoteBody.t.
Hypothesis answers :
  forall text title w w' answer,
    bodyReply model text title w = (w', inr answer) ->
    answer = body text title.

Lemma firstn_snoc {A} (l : list A) : forall i d,
  i < List.length l -> firstn (S i) l = firstn i l ++ [nth i l d].
Proof.
  induction l as [|x l IH]; intros i d H; cbn in H; [lia|].
  destruct i as [|i]; [reflexivity|].
  rewrite (firstn_cons (S i)), (firstn_cons i). cbn [nth app].
  rewrite (IH i d) by lia. reflexivity.
Qed.

Lemma generateLoop_one_run remaining : forall i state notes w session,
  i + remaining = List.length (titles state) ->
  notes = map (fun title => withTitle title (body (inputText state) title))
              (firstn i (titles state)) ->
  unlinkedNotes session = notes ->
  let r := generateLoop model remaining i state notes w in
  (exists j,
      unlinkedNotes (App.replay (traceOf r) session)
      = map (fun title => withTitle title (body (inputText state) title))
            (firstn j (titles state)))
  /\ forall s' notes',
       outcomeOf r = inr (s', notes') ->
       notes' = map (fun title => withTitle title (body (inputText state) title))
                    (titles state).
Proof.
  induction remaining as [|remaining IH];
    intros i state notes w session Hsum Hnotes Hs; cbv zeta.
  - cbn. split; [exists i; congruence|].
    intros s' notes' [= _ <-]. rewrite Hnotes, firstn_all2 by lia.
    reflexivity.
  - rewrite generateLoop_step. cbv zeta.
    destruct (bodyReply model (inputText state) (nth i (titles state) "") w)
      as [w1 [e|answer]] eqn:Hreply.
    + cbn. split; [exists i; congruence | discriminate].
    + apply answers in Hreply. subst answer.
      set (notes1 := notes ++ [withTitle (nth i (titles state) "")
                                 (body (inputText state)
                                       (nth i (titles state) ""))]).
      assert (notes1
              = map (fun title =>
                       withTitle title (body (inputText state) title))
                    (firstn (S i) (titles state))) as Hnotes1.
      { subst notes1. rewrite (firstn_snoc (titles state) i "") by lia.
        rewrite map_app, Hnotes. reflexivity. }
      specialize (IH (S i) (withUnlinkedNotes state notes1) notes1 w1).
      destruct (generateLoop model remaining (S i) _ notes1 w1)
        as [[t w2] r].
      cbn [traceOf outcomeOf fst snd] in *.
      set (pause := if i <? _ then [Delay 1500] else []).
      assert (forall s, App.replay pause s = s) as Hq.
      { subst pause. destruct (i <? _); reflexivity. }
      rewrite !replay_cons, replay_app, Hq.
      apply IH; [cbn; lia | exact Hnotes1 | reflexivity].
Qed.
End OneRun.

(** X23: interrupted and resumed, phase 2 gives the notes of a single run.  For
    a model whose answer for a title, when it answers, is the body of that
    title: if the notes of the session are the notes of its first titles,
    then after the events of phase 2 the consumer's session again holds the
    notes of its first titles, however the phase ended, and a phase 2 that
    completes returns the note of every title, in the order of the
    titles. *)
Theorem resuming_gives_the_notes_of_one_run :
  forall (model : Pipeline.Model) (body : string -> string -> NoteBody.t)
         (state : ProcessingState) (w : Pipeline.World model),
    (forall text title w w' answer,
        Pipeline.bodyReply model text title w = (w', inr answer) ->
        answer = body text title) ->
    let note title := withTitle title (body (inputText state) title) in
    unlinkedNotes state
    = map note (firstn (List.length (unlinkedNotes state)) (titles state)) ->
    let r := Pipeline.generatePhase model state w in
    (exists j,
        unlinkedNotes (App.replay (traceOf r) state)
        = map note (firstn j (titles state)))
    /\ forall state', outcomeOf r = inr state' ->
                      unlinkedNotes state' = map note (titles state).
Proof.
  intros model body state w Hanswers note Hnotes. cbv zeta.
  rewrite generatePhase_run.
  destruct (Nat.ltb_spec (List.length (unlinkedNotes state))
                         (List.length (titles state))) as [Hlt|Hge].
  - destruct (generateLoop_one_run model body Hanswers
                (List.length (titles state)
                 - List.length (unlinkedNotes state))
                (List.length (unlinkedNotes state)) state
                (unlinkedNotes state) w state ltac:(lia) Hnotes eq_refl)
      as [H1 H2].
    destruct (Pipeline.generateLoop _ _ _ _ _ _)
      as [[t w'] [e|[s' notes']]]; cbn [traceOf outcomeOf fst snd] in *.
    + split; [exact H1 | discriminate].
    + split; [exact H1|]. intros state' [= <-]. cbn.
      exact (H2 s' notes' eq_refl).
  - cbn [traceOf outcomeOf fst snd App.replay fold_left]. split.
    + exists (List.length (unlinkedNotes state)). exact Hnotes.
    + intros state' [= <-]. rewrite Hnotes at 1.
      rewrite firstn_all2 by exact Hge. reflexivity.
Qed.

(** A run on three titles that is rejected at the second note and resumed:
    the notes are those of the three titles. *)
Lemma resuming_gives_the_notes_of_one_run_witness :
  let book := mkState Status.idle "" "book" ["A"; "B"; "C"] [] [] None in
  let note title :=
    UnlinkedNote.mk title ("About " ++ title) [title] "Chapter 1" in
  let first :=
    Pipeline.generatePhase (Fixture.failingAt 1 (JsError "boom")) book 0 in
  let resumed := App.replay (traceOf first) book in
  unlinkedNotes resumed = [note "A"]
  /\ forall state',
       outcomeOf (Pipeline.generatePhase Fixture.reliable resumed 0)
       = inr state' ->
       unlinkedNotes state' = [note "A"; note "B"; note "C"].
Proof.
  cbv zeta. split; [reflexivity|].
  apply (resuming_gives_the_notes_of_one_run Fixture.reliable
           (fun _ title => NoteBody.mk None ("About " ++ title) [title]
                                       "Chapter 1")
           (App.replay
              (traceOf (Pipeline.generatePhase
                          (Fixture.failingAt 1 (JsError "boom"))
                          (mkState Status.idle "" "book" ["A"; "B"; "C"]
                                   [] [] None) 0))
              (mkState Status.idle "" "book" ["A"; "B"; "C"] [] [] None))
           0).
  - intros text title w w' answer H. cbn in H. now injection H as _ <-.
  - reflexivity.
Defined.
